(** * RepoSensei: the repository relevance-ranking engine

    A shallow embedding of [reposensei/utils.py] and of the scanning part of
    [reposensei/signals.py], with the properties of the tree scanner, the
    import graph builder, the importance scorer and the evidence budget
    reader.

    Conventions.
    - A Python [str] is a [string]; characters are 8-bit ([ascii]).
    - A [pathlib.Path] is the list of its [parts]; an absolute path starts
      with the part ["/"].
    - A Python [int] is a [Z]; [len] is [Z.of_nat] of a length.
    - A raised exception is [None] in the [option] monad.
    - The file system is a snapshot record [FS] that answers the queries the
      code makes ([rglob], [stat], [read_text], [resolve]). *)

From Stdlib Require Import String Ascii List ZArith Lia Bool Arith.
From Stdlib Require Import Permutation Sorted.
Import ListNotations.

Local Open Scope string_scope.
Local Open Scope list_scope.

Infix "+++" := String.append (right associativity, at level 60).

(** ** Exceptions *)

Definition bind {A B : Type} (m : option A) (f : A -> option B) : option B :=
  match m with
  | Some a => f a
  | None => None
  end.

Notation "x <- m ;; k" := (bind m (fun x => k))
  (at level 61, m at next level, right associativity).

(** ** Strings *)

Module Str.

Definition nl : string := String "010"%char EmptyString.

Definition len (s : string) : Z := Z.of_nat (String.length s).

(** [s[:n]] for an integer [n >= 0]. *)
Fixpoint clip (n : Z) (s : string) : string :=
  match s with
  | EmptyString => EmptyString
  | String c s' => if (n <=? 0)%Z then EmptyString else String c (clip (n - 1) s')
  end.

(** [s[:n]] for an index [n]. *)
Fixpoint take (n : nat) (s : string) : string :=
  match n, s with
  | O, _ => EmptyString
  | _, EmptyString => EmptyString
  | S n', String c s' => String c (take n' s')
  end.

(** [s[n:]] for [n >= 0]. *)
Fixpoint drop (n : nat) (s : string) : string :=
  match n, s with
  | O, _ => s
  | _, EmptyString => EmptyString
  | S n', String _ s' => drop n' s'
  end.

(** [sep.join(l)], and [cat] for the join with the empty separator. *)
Definition join (sep : string) (l : list string) : string := String.concat sep l.

Fixpoint cat (l : list string) : string :=
  match l with
  | [] => EmptyString
  | s :: l' => s +++ cat l'
  end.

(** [s.count(c)] for a one-character needle. *)
Fixpoint count (c : ascii) (s : string) : Z :=
  match s with
  | EmptyString => 0%Z
  | String d s' => ((if Ascii.eqb c d then 1 else 0) + count c s')%Z
  end.

Definition lower_char (c : ascii) : ascii :=
  let n := nat_of_ascii c in
  if (65 <=? n)%nat && (n <=? 90)%nat then ascii_of_nat (n + 32) else c.

Fixpoint lower (s : string) : string :=
  match s with
  | EmptyString => EmptyString
  | String c s' => String (lower_char c) (lower s')
  end.

(** [s.startswith(p)]. *)
Definition startswith (p s : string) : bool := String.prefix p s.

(** [s.endswith(p)]. *)
Definition endswith (p s : string) : bool :=
  (String.length p <=? String.length s)%nat &&
  String.eqb (drop (String.length s - String.length p) s) p.

(** [p in s] for strings. *)
Fixpoint contains (p s : string) : bool :=
  String.prefix p s ||
  match s with
  | EmptyString => false
  | String _ s' => contains p s'
  end.

(** [s.split(c)] for a one-character separator: never empty. *)
Fixpoint split (c : ascii) (s : string) : list string :=
  match s with
  | EmptyString => [EmptyString]
  | String d s' =>
      if Ascii.eqb c d then EmptyString :: split c s'
      else match split c s' with
           | [] => [String d EmptyString]
           | w :: ws => String d w :: ws
           end
  end.

(** [s.rfind(c)]: the last index of [c] in [s], [None] for Python's -1. *)
Fixpoint rfind (c : ascii) (s : string) : option nat :=
  match s with
  | EmptyString => None
  | String d s' =>
      match rfind c s' with
      | Some i => Some (S i)
      | None => if Ascii.eqb c d then Some O else None
      end
  end.

(** Python's [str.isspace] on one 8-bit character. *)
Definition is_space (c : ascii) : bool :=
  let n := nat_of_ascii c in
  ((9 <=? n)%nat && (n <=? 13)%nat) || ((28 <=? n)%nat && (n <=? 32)%nat)
  || (n =? 133)%nat || (n =? 160)%nat.

Fixpoint lstrip (s : string) : string :=
  match s with
  | String c s' => if is_space c then lstrip s' else s
  | EmptyString => EmptyString
  end.

Fixpoint rstrip (s : string) : string :=
  match s with
  | EmptyString => EmptyString
  | String c s' =>
      match rstrip s' with
      | EmptyString => if is_space c then EmptyString else String c EmptyString
      | r => String c r
      end
  end.

(** [s.strip()]. *)
Definition strip (s : string) : string := rstrip (lstrip s).

Definition mem (s : string) (l : list string) : bool :=
  existsb (String.eqb s) l.

End Str.

(** ** Paths *)

Definition Path : Type := list string.

Module PathOps.

Definition eqb (p q : Path) : bool :=
  if list_eq_dec string_dec p q then true else false.

Definition mem (p : Path) (l : list Path) : bool := existsb (eqb p) l.

(** [str(p)] and [p.as_posix()] on a POSIX system. *)
Definition str (p : Path) : string :=
  match p with
  | [] => "."
  | c :: rest =>
      if String.eqb c "/" then "/" +++ Str.join "/" rest else Str.join "/" p
  end.

(** [Path(s)]: split at ["/"], drop empty and ["."] components, keep a
    leading ["/"] as the anchor. *)
Definition parse (s : string) : Path :=
  let comps :=
    filter (fun c => negb (String.eqb c EmptyString) && negb (String.eqb c "."))
           (Str.split "/"%char s) in
  if Str.startswith "/" s then "/" :: comps else comps.

(** [p.name]: the last component, empty for the anchor alone. *)
Definition name (p : Path) : string :=
  match rev p with
  | [] => EmptyString
  | n :: [] => if String.eqb n "/" then EmptyString else n
  | n :: _ => n
  end.

(** [p.suffix]: from the last dot of the name, unless that dot is the
    first or the last character. *)
Definition suffix (p : Path) : string :=
  let n := name p in
  match Str.rfind "."%char n with
  | Some i =>
      if (0 <? i)%nat && (i <? String.length n - 1)%nat then Str.drop i n else EmptyString
  | None => EmptyString
  end.

(** [p.stem]. *)
Definition stem (p : Path) : string :=
  let n := name p in
  match Str.rfind "."%char n with
  | Some i =>
      if (0 <? i)%nat && (i <? String.length n - 1)%nat then Str.take i n else n
  | None => n
  end.

(** [p.parent]. *)
Definition parent (p : Path) : Path :=
  match p with
  | [] => []
  | c :: [] => if String.eqb c "/" then p else []
  | _ => removelast p
  end.

(** [root / rel]. *)
Definition joinpath (root rel : Path) : Path :=
  match rel with
  | c :: _ => if String.eqb c "/" then rel else root ++ rel
  | [] => root
  end.

(** [p.relative_to(root)]: raises [ValueError] unless [root] is a prefix
    of [p]. *)
Fixpoint relative_to (p root : Path) {struct root} : option Path :=
  match root, p with
  | [], _ => Some p
  | r :: root', c :: p' => if String.eqb r c then relative_to p' root' else None
  | _ :: _, [] => None
  end.

End PathOps.

(** ** The file system snapshot *)

Record Stat : Type := mkStat { st_is_file : bool; st_size : Z }.

Record FS : Type := mkFS {
  (** [root.rglob("*")]: the descendants of [root], as component lists
      relative to [root], in traversal order. *)
  fs_rglob : Path -> list Path;
  (** [os.stat], following links; [None] when it fails. *)
  fs_stat : Path -> option Stat;
  (** [p.read_text(errors="ignore")]; [None] when it raises. *)
  fs_read_text : Path -> option string;
  (** [p.resolve()]; [None] when it raises. *)
  fs_resolve : Path -> option Path
}.

Definition rglob (fs : FS) (root : Path) : list Path :=
  map (fun rel => root ++ rel) (fs_rglob fs root).

Definition is_file (fs : FS) (p : Path) : bool :=
  match fs_stat fs p with
  | Some st => st_is_file st
  | None => false
  end.

Definition exists_ (fs : FS) (p : Path) : bool :=
  match fs_stat fs p with
  | Some _ => true
  | None => false
  end.

(** ** Python containers *)

Module Py.

(** [l[:n]]: a negative [n] counts from the end. *)
Definition slice_to {A : Type} (n : Z) (l : list A) : list A :=
  if (0 <=? n)%Z then firstn (Z.to_nat n) l
  else firstn (length l - Z.to_nat (- n)) l.

(** [sorted(l, key=key)] is stable: an element is placed before the first
    element of the sorted rest whose key it does not exceed in the order
    [leb].  With [reverse=True] the order is the converse one, and equal
    keys still keep their original order. *)
Section Sort.
Context {A K : Type} (key : A -> K) (leb : K -> K -> bool).

Fixpoint insert (x : A) (l : list A) : list A :=
  match l with
  | [] => [x]
  | y :: l' => if leb (key x) (key y) then x :: l else y :: insert x l'
  end.

Definition sorted (l : list A) : list A := fold_right insert [] l.
End Sort.

Definition geb (a b : Z) : bool := (b <=? a)%Z.

(** A [set] that is only built with [add] and then tested, measured or
    iterated is the sequence of its [add] calls.  [len] counts the distinct
    elements; the iteration order is not fixed by the language (it depends
    on the string hash seed of the process) and is taken as a parameter
    where the code iterates a set. *)
Definition set_len (adds : list string) : Z :=
  Z.of_nat (length (nodup string_dec adds)).

(** Two iteration orders a process may have. *)
Definition order_first_added (adds : list string) : list string :=
  rev (nodup string_dec (rev adds)).
Definition order_last_added (adds : list string) : list string :=
  nodup string_dec (rev adds).

(** [collections.Counter], a dict: keys stay in insertion order. *)
Definition Counter : Type := list (string * Z).

(** [c[k] += n]. *)
Fixpoint counter_add (k : string) (n : Z) (c : Counter) : Counter :=
  match c with
  | [] => [(k, n)]
  | (k', v) :: c' =>
      if String.eqb k k' then (k', (v + n)%Z) :: c'
      else (k', v) :: counter_add k n c'
  end.

(** [c.get(k, 0)] and [c[k]]. *)
Fixpoint counter_get (k : string) (c : Counter) : Z :=
  match c with
  | [] => 0%Z
  | (k', v) :: c' => if String.eqb k k' then v else counter_get k c'
  end.

(** [c.most_common()] and [c.most_common(n)]: by count, largest first,
    ties in insertion order. *)
Definition most_common_all (c : Counter) : list (string * Z) :=
  sorted (@snd string Z) geb c.
Definition most_common (n : nat) (c : Counter) : list (string * Z) :=
  firstn n (most_common_all c).

(** A dict of lists filled with [d[k].append(v)]. *)
Fixpoint index_append {V : Type} (k : string) (v : V) (d : list (string * list V))
    : list (string * list V) :=
  match d with
  | [] => [(k, [v])]
  | (k', vs) :: d' =>
      if String.eqb k k' then (k', vs ++ [v]) :: d'
      else (k', vs) :: index_append k v d'
  end.

(** [d.get(k, [])]. *)
Fixpoint index_get {V : Type} (k : string) (d : list (string * list V)) : list V :=
  match d with
  | [] => []
  | (k', vs) :: d' => if String.eqb k k' then vs else index_get k d'
  end.

(** The "dedupe, preserve order" loops: keep the first occurrence. *)
Fixpoint dedupe (seen : list string) (l : list string) : list string :=
  match l with
  | [] => []
  | e :: l' =>
      if Str.mem e seen then dedupe seen l' else e :: dedupe (e :: seen) l'
  end.

Fixpoint mapM {A B : Type} (f : A -> option B) (l : list A) : option (list B) :=
  match l with
  | [] => Some []
  | a :: l' => b <- f a ;; bs <- mapM f l' ;; Some (b :: bs)
  end.

End Py.

(** ** Regular expressions ([re]) *)

Module Re.

(** The fragment of [re] syntax the patterns of the program use. *)
Inductive re : Type :=
| Eps
| Chr (f : ascii -> bool)          (* one character of a class *)
| Seq (a b : re)
| Alt (a b : re)                   (* a|b, a tried first *)
| Star (greedy : bool) (a : re)    (* a* and a*? *)
| Grp (n : nat) (a : re)           (* capturing group n *)
| Bol                              (* ^ under re.M *)
| Eol.                             (* $ under re.M *)

Definition Plus (greedy : bool) (a : re) : re := Seq a (Star greedy a).
Definition Opt (a : re) : re := Alt a Eps.

Fixpoint Lit (s : string) : re :=
  match s with
  | EmptyString => Eps
  | String c s' => Seq (Chr (Ascii.eqb c)) (Lit s')
  end.

Definition newline : ascii := "010"%char.

(** [\s], [.] (no DOTALL), the quote class (single or double quote) and
    the class [a-zA-Z0-9_\.]. *)
Definition space : re := Chr Str.is_space.
Definition dot : re := Chr (fun c => negb (Ascii.eqb c newline)).
Definition quote_char (c : ascii) : bool :=
  Ascii.eqb c "039"%char || Ascii.eqb c "034"%char.
Definition quote : re := Chr quote_char.
Definition module_char (c : ascii) : bool :=
  let n := nat_of_ascii c in
  ((97 <=? n)%nat && (n <=? 122)%nat) || ((65 <=? n)%nat && (n <=? 90)%nat)
  || ((48 <=? n)%nat && (n <=? 57)%nat) || (n =? 95)%nat || (n =? 46)%nat.

(** A matcher state: the position in the subject and the groups set so far. *)
Definition groups : Type := list (nat * string).
Definition state : Type := (nat * groups)%type.

Fixpoint group (n : nat) (g : groups) : option string :=
  match g with
  | [] => None
  | (m, v) :: g' => if (n =? m)%nat then Some v else group n g'
  end.

Section Matcher.
Variable subject : list ascii.

Definition slice (i j : nat) : string :=
  string_of_list_ascii (firstn (j - i) (skipn i subject)).

(** The ends of all the ways [a*] can match from [st], in the order the
    backtracking matcher tries them; an iteration must consume input. *)
Fixpoint star_ends (step : state -> list state) (greedy : bool)
    (fuel : nat) (st : state) : list state :=
  match fuel with
  | O => [st]
  | S fuel' =>
      let more :=
        flat_map (fun st' =>
                    if (fst st <? fst st')%nat
                    then star_ends step greedy fuel' st' else [])
                 (step st) in
      if greedy then more ++ [st] else st :: more
  end.

(** The ends of all the ways [r] can match from [st], in backtracking
    order: the head is the match [re] reports. *)
Fixpoint ends (r : re) (st : state) : list state :=
  match r with
  | Eps => [st]
  | Chr f =>
      match nth_error subject (fst st) with
      | Some c => if f c then [(S (fst st), snd st)] else []
      | None => []
      end
  | Seq a b => flat_map (ends b) (ends a st)
  | Alt a b => ends a st ++ ends b st
  | Star greedy a => star_ends (ends a) greedy (length subject - fst st) st
  | Grp n a =>
      map (fun st' => (fst st', (n, slice (fst st) (fst st')) :: snd st'))
          (ends a st)
  | Bol =>
      match fst st with
      | O => [st]
      | S i =>
          match nth_error subject i with
          | Some c => if Ascii.eqb c newline then [st] else []
          | None => []
          end
      end
  | Eol =>
      match nth_error subject (fst st) with
      | Some c => if Ascii.eqb c newline then [st] else []
      | None => if (fst st =? length subject)%nat then [st] else []
      end
  end.

(** [r.finditer(subject)]: leftmost matches, not overlapping.  (After an
    empty match the scan moves one character on; the patterns of the
    program never match the empty string.) *)
Fixpoint finditer_from (r : re) (fuel : nat) (i : nat) : list groups :=
  match fuel with
  | O => []
  | S fuel' =>
      match ends r (i, []) with
      | (j, g) :: _ => g :: finditer_from r fuel' (if (i <? j)%nat then j else S i)
      | [] => finditer_from r fuel' (S i)
      end
  end.
End Matcher.

Definition finditer (r : re) (text : string) : list groups :=
  let subject := list_ascii_of_string text in
  finditer_from subject r (S (length subject)) 0.

End Re.

(** ** [reposensei/utils.py] *)

Definition IGNORE_DIRS : list string :=
  [".git"; "node_modules"; "dist"; "build"; "target"; "vendor";
   ".venv"; "venv"; "__pycache__"; ".pytest_cache"; ".mypy_cache";
   ".next"; ".turbo"; ".parcel-cache"; ".cache"].

Definition PRIORITY_FILES : list string :=
  ["README.md"; "README.rst"; "README.txt";
   "pyproject.toml"; "requirements.txt"; "Pipfile"; "poetry.lock"; "setup.py";
   "package.json"; "pnpm-lock.yaml"; "yarn.lock"; "package-lock.json";
   "go.mod"; "go.sum";
   "pom.xml"; "build.gradle"; "build.gradle.kts";
   "Dockerfile"; "docker-compose.yml"; "Makefile";
   "terraform.tf"; "main.tf";
   "serverless.yml"; "template.yaml"].

Definition CODE_DIR_HINTS : list string :=
  ["src"; "app"; "apps"; "api"; "server"; "backend"; "frontend"; "cmd"; "pkg";
   "internal"; "lib"].

Definition DEPRIORITIZE_DIRS : list string :=
  ["docs"; "doc"; "documentation"; "site"; "website"; "examples"; "example";
   "demo"; "demos"; "public"].

Definition ENTRY_FILENAMES : list string :=
  ["main.py"; "app.py"; "server.py"; "wsgi.py"; "asgi.py";
   "index.js"; "index.ts"; "server.js"; "server.ts"; "app.js"; "app.ts";
   "main.go";
   "main.java"].

(** [^\s*(?:from\s+([a-zA-Z0-9_\.]+)\s+import|import\s+([a-zA-Z0-9_\.]+))] *)
Definition PY_IMPORT_RE : Re.re :=
  Re.Seq Re.Bol (Re.Seq (Re.Star true Re.space)
    (Re.Alt
       (Re.Seq (Re.Lit "from") (Re.Seq (Re.Plus true Re.space)
          (Re.Seq (Re.Grp 1 (Re.Plus true (Re.Chr Re.module_char)))
             (Re.Seq (Re.Plus true Re.space) (Re.Lit "import")))))
       (Re.Seq (Re.Lit "import") (Re.Seq (Re.Plus true Re.space)
          (Re.Grp 2 (Re.Plus true (Re.Chr Re.module_char))))))).

(** [^\s*import\s+.*?from\s+Q(.+?)Q\s*;?\s*$], [Q] a single or double quote. *)
Definition JS_IMPORT_RE : Re.re :=
  Re.Seq Re.Bol (Re.Seq (Re.Star true Re.space) (Re.Seq (Re.Lit "import")
    (Re.Seq (Re.Plus true Re.space) (Re.Seq (Re.Star false Re.dot)
      (Re.Seq (Re.Lit "from") (Re.Seq (Re.Plus true Re.space) (Re.Seq Re.quote
        (Re.Seq (Re.Grp 1 (Re.Plus false Re.dot)) (Re.Seq Re.quote
          (Re.Seq (Re.Star true Re.space) (Re.Seq (Re.Opt (Re.Lit ";"))
            (Re.Seq (Re.Star true Re.space) Re.Eol)))))))))))).

(** [require\(\s*Q(.+?)Q\s*\)] *)
Definition JS_REQUIRE_RE : Re.re :=
  Re.Seq (Re.Lit "require(") (Re.Seq (Re.Star true Re.space) (Re.Seq Re.quote
    (Re.Seq (Re.Grp 1 (Re.Plus false Re.dot)) (Re.Seq Re.quote
      (Re.Seq (Re.Star true Re.space) (Re.Lit ")")))))).

(** Line start, [\s*import\s*], an optional open parenthesis with [\s*],
    then a quoted group 1 of one or more characters that are not quotes. *)
Definition GO_IMPORT_RE : Re.re :=
  Re.Seq Re.Bol (Re.Seq (Re.Star true Re.space) (Re.Seq (Re.Lit "import")
    (Re.Seq (Re.Star true Re.space)
      (Re.Seq (Re.Opt (Re.Seq (Re.Lit "(") (Re.Star true Re.space)))
        (Re.Seq Re.quote
          (Re.Seq (Re.Grp 1 (Re.Plus true (Re.Chr (fun c => negb (Re.quote_char c)))))
             Re.quote)))))).

(** [m.group(n)], the empty string for a group that took no part. *)
Definition group_or_empty (n : nat) (g : Re.groups) : string :=
  match Re.group n g with
  | Some v => v
  | None => EmptyString
  end.

Definition iter_repo_files (fs : FS) (root : Path) : list Path :=
  filter (fun p => negb (existsb (fun part => Str.mem part IGNORE_DIRS) p)
                   && is_file fs p)
         (rglob fs root).

Definition TREE_MARKER : string := "... (truncated)".

Fixpoint build_tree_loop (root : Path) (ps : list Path) (count max_entries : Z)
    : option (list string) :=
  match ps with
  | [] => Some []
  | p :: ps' =>
      rel <- PathOps.relative_to p root ;;
      let count := (count + 1)%Z in
      if (count >=? max_entries)%Z then Some [PathOps.str rel; TREE_MARKER]
      else
        lines <- build_tree_loop root ps' count max_entries ;;
        Some (PathOps.str rel :: lines)
  end.

Definition build_tree (fs : FS) (root : Path) (max_entries : Z) : option string :=
  lines <- build_tree_loop root
             (Py.sorted PathOps.str String.leb (iter_repo_files fs root))
             0 max_entries ;;
  Some (Str.join Str.nl lines).

Definition _safe_read_text (fs : FS) (p : Path) (max_chars : Z) : string :=
  match fs_read_text fs p with
  | Some text => Str.clip max_chars text
  | None => EmptyString
  end.

Definition _build_basename_index (fs : FS) (root : Path)
    : list (string * list Path) :=
  fold_left (fun idx p => Py.index_append (Str.lower (PathOps.stem p)) p idx)
            (iter_repo_files fs root) [].

Definition relposix (root p : Path) : option string :=
  rel <- PathOps.relative_to p root ;; Some (PathOps.str rel).

(** The basenames a source text refers to, one per import token, by suffix
    family. *)
Definition last_segment (c : ascii) (s : string) : string :=
  last (Str.split c s) EmptyString.
Definition first_segment (c : ascii) (s : string) : string :=
  hd EmptyString (Str.split c s).

Definition py_bases (text : string) : list string :=
  flat_map (fun m =>
              let mod_ :=
                Str.strip (match Re.group 1 m with
                           | Some (String c v) => String c v
                           | _ => group_or_empty 2 m
                           end) in
              if String.eqb mod_ EmptyString then []
              else [Str.lower (last_segment "."%char mod_)])
           (Re.finditer PY_IMPORT_RE text).

Definition js_bases (text : string) : list string :=
  map (fun m =>
         let path := Str.strip (group_or_empty 1 m) in
         if Str.startswith "." path
         then Str.lower (first_segment "."%char (PathOps.name (PathOps.parse path)))
         else Str.lower (first_segment "."%char (last_segment "/"%char path)))
      (Re.finditer JS_IMPORT_RE text)
  ++
  map (fun m =>
         let path := Str.strip (group_or_empty 1 m) in
         Str.lower (first_segment "."%char (PathOps.name (PathOps.parse path))))
      (Re.finditer JS_REQUIRE_RE text).

Definition go_bases (text : string) : list string :=
  map (fun m =>
         let imp := Str.strip (group_or_empty 1 m) in
         Str.lower (first_segment "."%char (last_segment "/"%char imp)))
      (Re.finditer GO_IMPORT_RE text).

Definition import_bases (suf text : string) : list string :=
  if String.eqb suf ".py" then py_bases text
  else if Str.mem suf [".js"; ".ts"; ".tsx"; ".jsx"] then js_bases text
  else if String.eqb suf ".go" then go_bases text
  else [].

(** The [refs.add(relposix(tgt))] calls of one source file, in order. *)
Definition collect_refs (root : Path) (idx : list (string * list Path))
    (bases : list string) : option (list string) :=
  Py.mapM (relposix root) (flat_map (fun base => Py.index_get base idx) bases).

Definition CODE_SUFFIXES : list string :=
  [".py"; ".js"; ".ts"; ".tsx"; ".jsx"; ".go"].

(** [p.stat().st_size if p.exists() else 0]: in a snapshot [exists] holds
    exactly when [stat] succeeds. *)
Definition size_key (fs : FS) (p : Path) : Z :=
  match fs_stat fs p with
  | Some st => st_size st
  | None => 0%Z
  end.

Section ImportCentrality.

(** The order in which this process iterates a set of strings, given the
    sequence of its [add] calls. *)
Variable set_order : list string -> list string.

(** The "Update counters" step for one source file. *)
Definition update_counters (src_rel : string) (refs : list string)
    (acc : Py.Counter * Py.Counter) : Py.Counter * Py.Counter :=
  match refs with
  | [] => acc
  | _ :: _ =>
      (fold_left (fun inbound tgt_rel =>
                    if String.eqb tgt_rel src_rel then inbound
                    else Py.counter_add tgt_rel 1 inbound)
                 (set_order refs) (fst acc),
       Py.counter_add src_rel (Py.set_len refs) (snd acc))
  end.

(** One iteration of [for src in candidates]. *)
Definition scan_source (fs : FS) (root : Path) (idx : list (string * list Path))
    (acc : Py.Counter * Py.Counter) (src : Path)
    : option (Py.Counter * Py.Counter) :=
  let text := _safe_read_text fs src 80000 in
  if String.eqb text EmptyString then Some acc
  else
    src_rel <- relposix root src ;;
    refs <- collect_refs root idx
              (import_bases (Str.lower (PathOps.suffix src)) text) ;;
    Some (update_counters src_rel refs acc).

Fixpoint scan_sources (fs : FS) (root : Path) (idx : list (string * list Path))
    (candidates : list Path) (acc : Py.Counter * Py.Counter)
    : option (Py.Counter * Py.Counter) :=
  match candidates with
  | [] => Some acc
  | src :: candidates' =>
      acc' <- scan_source fs root idx acc src ;;
      scan_sources fs root idx candidates' acc'
  end.

Definition scan_candidates (fs : FS) (root : Path) (max_files_to_scan : Z)
    : list Path :=
  Py.slice_to max_files_to_scan
    (Py.sorted (size_key fs) Py.geb
       (filter (fun p => Str.mem (Str.lower (PathOps.suffix p)) CODE_SUFFIXES)
               (iter_repo_files fs root))).

(** Returns [(inbound_refs, outbound_refs)]. *)
Definition _collect_import_centrality (fs : FS) (root : Path)
    (max_files_to_scan : Z) : option (Py.Counter * Py.Counter) :=
  scan_sources fs root (_build_basename_index fs root)
    (scan_candidates fs root max_files_to_scan) ([], []).

End ImportCentrality.

(** *** [pick_important_files] *)

Definition README_NAMES : list string := ["README.md"; "README.rst"; "README.txt"].

Definition ROUTER_SUFFIXES : list string :=
  ["routes.py"; "router.py"; "handlers.go"; "controller.ts"; "controller.js";
   "urls.py"].

Definition ROUTING_WORDS : list string :=
  ["route"; "router"; "controller"; "handler"; "endpoint"; "service"].

Definition CONFIG_WORDS : list string :=
  ["config"; "settings"; "infra"; "deploy"; ".github"].

Definition SIZE_CEILING : Z := 350000.

(** Tier 1 before the README step: priority files at depth at most one. *)
Fixpoint pinned_scan (root : Path) (files : list Path) : option (list Path) :=
  match files with
  | [] => Some []
  | p :: files' =>
      rel <- relposix root p ;;
      rest <- pinned_scan root files' ;;
      Some (if (Str.count "/"%char rel <=? 1)%Z && Str.mem (PathOps.name p) PRIORITY_FILES
            then p :: rest else rest)
  end.

(** The "ensure README first if present" loop. *)
Definition pin_readmes (fs : FS) (root : Path) (pinned : list Path) : list Path :=
  fold_left (fun pinned rn =>
               let rp := PathOps.joinpath root (PathOps.parse rn) in
               if exists_ fs rp && negb (PathOps.mem rp pinned)
               then rp :: pinned else pinned)
            README_NAMES pinned.

(** Tier 2. *)
Definition entry_scan (files : list Path) : list Path :=
  filter (fun p => Str.mem (Str.lower (PathOps.name p)) ENTRY_FILENAMES) files.

(** Tier 3: the files of [inbound.most_common(80)], with their scores. *)
Definition central_scan (fs : FS) (root : Path) (inbound : Py.Counter)
    : list (Z * Path) :=
  flat_map (fun rs =>
              let fp := PathOps.joinpath root (PathOps.parse (fst rs)) in
              if exists_ fs fp && is_file fs fp then [(snd rs, fp)] else [])
           (Py.most_common 80 inbound).

(** Tier 4: the score of one file up to the size checks. *)
Definition name_score (rel : Path) (name : string) : Z :=
  let rel_str := Str.lower (PathOps.str rel) in
  let lowname := Str.lower name in
  ((if Str.mem name PRIORITY_FILES then 120 else 0)
   + (if existsb (fun part => Str.mem part CODE_DIR_HINTS) rel then 40 else 0)
   - (if existsb (fun part => Str.mem part DEPRIORITIZE_DIRS) rel then 35 else 0)
   + (if Str.mem lowname ENTRY_FILENAMES then 90 else 0)
   + (if existsb (fun suf => Str.endswith suf lowname) ROUTER_SUFFIXES then 45 else 0)
   + (if existsb (fun x => Str.contains x rel_str) ROUTING_WORDS then 20 else 0)
   + (if existsb (fun x => Str.contains x rel_str) CONFIG_WORDS then 15 else 0))%Z.

(** One iteration of the heuristic loop: [Some None] is [continue] or a
    score that is not positive. *)
Definition heuristic_entry (fs : FS) (root : Path) (outbound : Py.Counter)
    (p : Path) : option (option (Z * Path)) :=
  rel <- PathOps.relative_to p root ;;
  let score := name_score rel (PathOps.name p) in
  match fs_stat fs p with
  | None => Some None
  | Some st =>
      let size := st_size st in
      if (size >? SIZE_CEILING)%Z then Some None
      else
        let score := (score - Z.quot size 12000)%Z in
        relposix_ <- relposix root p ;;
        let score :=
          if (Py.counter_get relposix_ outbound >=? 8)%Z then (score + 25)%Z
          else score in
        Some (if (score >? 0)%Z then Some (score, p) else None)
  end.

Fixpoint heuristic_scan (fs : FS) (root : Path) (outbound : Py.Counter)
    (files : list Path) : option (list (Z * Path)) :=
  match files with
  | [] => Some []
  | p :: files' =>
      e <- heuristic_entry fs root outbound p ;;
      rest <- heuristic_scan fs root outbound files' ;;
      Some (match e with
            | Some c => c :: rest
            | None => rest
            end)
  end.

Definition heuristic_candidates (fs : FS) (root : Path) (outbound : Py.Counter)
    : option (list (Z * Path)) :=
  cands <- heuristic_scan fs root outbound (iter_repo_files fs root) ;;
  Some (Py.sorted (@fst Z Path) Py.geb cands).

(** [it.resolve()], the path itself when that raises. *)
Definition resolved_key (fs : FS) (it : Path) : Path :=
  match fs_resolve fs it with
  | Some rp => rp
  | None => it
  end.

Fixpoint add_unique_loop (fs : FS) (out seen items : list Path) : list Path :=
  match items with
  | [] => out
  | it :: items' =>
      let rp := resolved_key fs it in
      if PathOps.mem rp seen then add_unique_loop fs out seen items'
      else add_unique_loop fs (out ++ [it]) (rp :: seen) items'
  end.

(** [add_unique(out, items)], returning the new [out]. *)
Definition add_unique (fs : FS) (out items : list Path) : option (list Path) :=
  seen <- Py.mapM (fs_resolve fs) out ;;
  Some (add_unique_loop fs out seen items).

(** *** [read_files] *)

Definition PER_FILE_CHARS : Z := 28000.

Definition TRUNCATION_MARKER : string :=
  Str.nl +++ Str.nl +++ "... (content truncated to fit context budget)".

(** The f-string ["\n\n===== FILE: {rel} =====\n{snippet}"]. *)
Definition file_block (rel : Path) (snippet : string) : string :=
  Str.nl +++ Str.nl +++ "===== FILE: " +++ PathOps.str rel +++ " =====" +++ Str.nl
  +++ snippet.

Fixpoint read_files_loop (fs : FS) (root : Path) (files : list Path)
    (total max_total_chars : Z) : option (list string) :=
  match files with
  | [] => Some []
  | p :: files' =>
      rel <- PathOps.relative_to p root ;;
      match fs_read_text fs p with
      | None => read_files_loop fs root files' total max_total_chars
      | Some text =>
          let snippet := Str.clip PER_FILE_CHARS text in
          let block := file_block rel snippet in
          if (total + Str.len block >? max_total_chars)%Z then
            Some [TRUNCATION_MARKER]
          else
            chunks <- read_files_loop fs root files' (total + Str.len block)
                        max_total_chars ;;
            Some (block :: chunks)
      end
  end.

Definition read_files (fs : FS) (root : Path) (files : list Path)
    (max_total_chars : Z) : option string :=
  chunks <- read_files_loop fs root files 0 max_total_chars ;;
  Some (Str.cat chunks).

Section Pick.

Variable set_order : list string -> list string.

(** The four tiers, in priority order. *)
Definition pinned_tier (fs : FS) (root : Path) : option (list Path) :=
  pinned <- pinned_scan root (iter_repo_files fs root) ;;
  Some (pin_readmes fs root pinned).

Definition entry_tier (fs : FS) (root : Path) : list Path :=
  entry_scan (iter_repo_files fs root).

Definition merge_tiers (fs : FS) (pinned entry central candidates : list Path)
    : option (list Path) :=
  picked <- add_unique fs [] pinned ;;
  picked <- add_unique fs picked entry ;;
  picked <- add_unique fs picked central ;;
  add_unique fs picked candidates.

Definition pick_important_files (fs : FS) (root : Path) (max_files : Z)
    : option (list Path) :=
  pinned <- pinned_tier fs root ;;
  let entry := entry_tier fs root in
  io <- _collect_import_centrality set_order fs root 250 ;;
  let central := central_scan fs root (fst io) in
  candidates <- heuristic_candidates fs root (snd io) ;;
  picked <- merge_tiers fs pinned entry (map snd central) (map snd candidates) ;;
  Some (Py.slice_to max_files picked).

(** The steps of [analyze_repo] that build the evidence. *)
Definition pipeline (fs : FS) (root : Path) : option (list Path * string) :=
  important <- pick_important_files fs root 40 ;;
  file_text <- read_files fs root important 180000 ;;
  Some (important, file_text).

End Pick.

(** ** [reposensei/signals.py] *)

Module Signals.

Definition _EXT_LANG : list (string * string) :=
  [(".py", "Python"); (".js", "JavaScript"); (".ts", "TypeScript");
   (".tsx", "TypeScript"); (".jsx", "JavaScript"); (".go", "Go");
   (".java", "Java"); (".kt", "Kotlin"); (".rb", "Ruby"); (".php", "PHP");
   (".rs", "Rust"); (".c", "C"); (".cc", "C++"); (".cpp", "C++");
   (".h", "C/C++"); (".hpp", "C++"); (".cs", "C#")].

Definition _IGNORE_DIRS : list string :=
  [".git"; ".venv"; "venv"; "__pycache__"; "node_modules"; "dist"; "build";
   ".next"; ".cache"; ".pytest_cache"; ".mypy_cache"].

Definition _ENTRYPOINT_FILES_NEAR_ROOT : list string :=
  ["manage.py"; "pyproject.toml"; "requirements.txt"; "setup.py"; "Pipfile";
   "poetry.lock"; "environment.yml"; "Dockerfile"; "docker-compose.yml";
   "compose.yml"; "Makefile"; "package.json"; "pnpm-lock.yaml"; "yarn.lock";
   "package-lock.json"; "go.mod"; "pom.xml"; "build.gradle";
   "build.gradle.kts"; "README.md"; "README.rst"; "README.txt"].

Definition _ENTRYPOINT_FILES_ANYWHERE : list string :=
  ["app.py"; "main.py"; "server.py"; "wsgi.py"; "asgi.py"; "manage.py";
   "index.js"; "index.ts"; "app.js"; "app.ts"; "server.js"; "server.ts";
   "main.go"; "Main.java"; "main.java"].

Definition MANIFEST_NAMES : list string :=
  ["package.json"; "pyproject.toml"; "go.mod"; "pom.xml"; "build.gradle";
   "build.gradle.kts"].

Definition _iter_files (fs : FS) (root : Path) : list Path :=
  filter (fun p => is_file fs p
                   && negb (existsb (fun part => Str.mem part _IGNORE_DIRS) p))
         (rglob fs root).

(** [_EXT_LANG.get(suffix)]. *)
Fixpoint ext_lang (suf : string) (table : list (string * string)) : option string :=
  match table with
  | [] => None
  | (e, l) :: table' => if String.eqb suf e then Some l else ext_lang suf table'
  end.

Definition lang_counts (files : list Path) : Py.Counter :=
  fold_left (fun counts p =>
               match ext_lang (Str.lower (PathOps.suffix p)) _EXT_LANG with
               | Some lang => Py.counter_add lang 1 counts
               | None => counts
               end)
            files [].

Fixpoint near_root_scan (root : Path) (files : list Path) : option (list string) :=
  match files with
  | [] => Some []
  | p :: files' =>
      rel <- relposix root p ;;
      rest <- near_root_scan root files' ;;
      Some (if (Str.count "/"%char rel <=? 1)%Z
               && Str.mem (PathOps.name p) _ENTRYPOINT_FILES_NEAR_ROOT
            then rel :: rest else rest)
  end.

Definition anywhere_scan (root : Path) (files : list Path) : option (list string) :=
  Py.mapM (relposix root)
    (filter (fun p => Str.mem (PathOps.name p) _ENTRYPOINT_FILES_ANYWHERE) files).

Definition manifest_scan (root : Path) (files : list Path) : option (list string) :=
  Py.mapM (relposix root)
    (filter (fun p => Str.mem (PathOps.name p) MANIFEST_NAMES) files).

(** [Path(x).parent.as_posix()]. *)
Definition parent_dir (x : string) : string :=
  PathOps.str (PathOps.parent (PathOps.parse x)).

(** [len({Path(x).parent.as_posix() for x in manifest_paths}) >= 2]. *)
Definition monorepo_of (manifest_paths : list string) : bool :=
  (Py.set_len (map parent_dir manifest_paths) >=? 2)%Z.

Record signals : Type := mkSignals {
  language_rank : list string;
  language_counts : Py.Counter;
  primary_language : option string;
  entrypoints_near_root : list string;
  entrypoints_anywhere : list string;
  monorepo_hint : bool;
  manifest_paths : list string
}.

(** The body of [build_signals] over the files [_iter_files] yields; the
    route sample, which only reads the contents of a few entry files for
    the report, is left out. *)
Definition signals_of (root : Path) (files : list Path) : option signals :=
  let counts := lang_counts files in
  let rank := map fst (Py.most_common_all counts) in
  near <- near_root_scan root files ;;
  anywhere <- anywhere_scan root files ;;
  manifests <- manifest_scan root files ;;
  Some {| language_rank := rank;
          language_counts := counts;
          primary_language := hd_error rank;
          entrypoints_near_root := Py.dedupe [] near;
          entrypoints_anywhere := Py.dedupe [] anywhere;
          monorepo_hint := monorepo_of manifests;
          manifest_paths := firstn 30 manifests |}.

Definition build_signals (fs : FS) (root : Path) : option signals :=
  signals_of root (_iter_files fs root).

End Signals.

(** ** Snapshots *)

(** What [pathlib] guarantees of [root.rglob]: every entry is a proper
    descendant, named by components that are file names, and is listed
    once. *)
Definition wf_component (c : string) : bool :=
  negb (String.eqb c EmptyString) && negb (String.eqb c ".")
  && (Str.count "/"%char c =? 0)%Z.

Definition wf_rel (rel : Path) : bool :=
  match rel with
  | [] => false
  | _ :: _ => forallb wf_component rel
  end.

Fixpoint distinct (l : list Path) : bool :=
  match l with
  | [] => true
  | p :: l' => negb (PathOps.mem p l') && distinct l'
  end.

Definition wf_tree (fs : FS) (root : Path) : Prop :=
  forallb wf_rel (fs_rglob fs root) && distinct (fs_rglob fs root) = true.

(** A concrete snapshot: the entries under one root, in traversal order,
    none of them a link. *)
Record Entry : Type := mkEntry {
  e_rel : Path;
  e_is_file : bool;
  e_size : Z;
  e_text : string
}.

Definition file_entry (rel : Path) (text : string) : Entry :=
  mkEntry rel true (Str.len text) text.

Definition lookup_entry (root : Path) (entries : list Entry) (p : Path)
    : option Entry :=
  find (fun e => PathOps.eqb (root ++ e_rel e) p) entries.

Definition snapshot (root : Path) (entries : list Entry) : FS :=
  {| fs_rglob := fun r => if PathOps.eqb r root then map e_rel entries else [];
     fs_stat := fun p =>
       match lookup_entry root entries p with
       | Some e => Some (mkStat (e_is_file e) (e_size e))
       | None => None
       end;
     fs_read_text := fun p =>
       match lookup_entry root entries p with
       | Some e => if e_is_file e then Some (e_text e) else None
       | None => None
       end;
     fs_resolve := fun p => Some p |}.

(** ** Vocabulary of the statements *)

(** The blocks [read_files] would emit without a total budget: one per file
    that can be read, as (relative path, clipped text), in selection order. *)
Definition readable_blocks (fs : FS) (root : Path) (files : list Path)
    : list (Path * string) :=
  flat_map (fun p =>
              match PathOps.relative_to p root, fs_read_text fs p with
              | Some rel, Some text => [(rel, Str.clip PER_FILE_CHARS text)]
              | _, _ => []
              end)
           files.

Definition render_block (b : Path * string) : string :=
  file_block (fst b) (snd b).

(** What [str] puts before the relative part of a path under [root]. *)
Definition root_prefix (root : Path) : string :=
  match root with
  | [] => EmptyString
  | c :: rest =>
      if String.eqb c "/"
      then match rest with
           | [] => "/"
           | _ :: _ => "/" +++ Str.join "/" rest +++ "/"
           end
      else Str.join "/" root +++ "/"
  end.

(** The entries of [iter_repo_files], relative to the root. *)
Definition repo_rels (fs : FS) (root : Path) : list Path :=
  filter (fun rel =>
            negb (existsb (fun part => Str.mem part IGNORE_DIRS) (root ++ rel))
            && is_file fs (root ++ rel))
         (fs_rglob fs root).

(** The iteration order of a set enumerates its elements, each once. *)
Definition set_iteration (set_order : list string -> list string) : Prop :=
  forall adds, NoDup (set_order adds)
               /\ (forall x, In x (set_order adds) <-> In x adds).

(** The relative path of a file under the root, as a string. *)
Definition relstr (root p : Path) : string :=
  match relposix root p with
  | Some s => s
  | None => EmptyString
  end.

(** The files one source file refers to: every file of the tree whose stem
    is the basename of one of its import tokens. *)
Definition resolved_targets (fs : FS) (root src : Path) : list Path :=
  flat_map (fun base => Py.index_get base (_build_basename_index fs root))
           (import_bases (Str.lower (PathOps.suffix src))
                         (_safe_read_text fs src 80000)).

Definition source_refs (fs : FS) (root src : Path) : list string :=
  map (relstr root) (resolved_targets fs root src).

(** A source file is scanned when it is a candidate with some text. *)
Definition has_text (fs : FS) (src : Path) : bool :=
  negb (String.eqb (_safe_read_text fs src 80000) EmptyString).

(** [src] refers to the file at [tgt_rel], another file than itself. *)
Definition references (fs : FS) (root src : Path) (tgt_rel : string) : bool :=
  has_text fs src && Str.mem tgt_rel (source_refs fs root src)
  && negb (String.eqb tgt_rel (relstr root src)).

(** The loop body of [_collect_import_centrality] on a file of the tree,
    where no path operation fails. *)
Definition scan_step (set_order : list string -> list string) (fs : FS)
    (root : Path) (acc : Py.Counter * Py.Counter) (src : Path)
    : Py.Counter * Py.Counter :=
  if has_text fs src
  then update_counters set_order (relstr root src) (source_refs fs root src) acc
  else acc.

Fixpoint sum_over {A : Type} (f : A -> Z) (l : list A) : Z :=
  match l with
  | [] => 0%Z
  | a :: l' => (f a + sum_over f l')%Z
  end.

(** The resolved targets of a source file other than the file itself. *)
Definition refs_to_others (fs : FS) (root src : Path) : list string :=
  filter (fun tgt_rel => negb (String.eqb tgt_rel (relstr root src)))
         (source_refs fs root src).

(** The files of the tree with a given lowercase stem. *)
Definition files_with_stem (fs : FS) (root : Path) (stem : string) : list Path :=
  filter (fun p => String.eqb stem (Str.lower (PathOps.stem p)))
         (iter_repo_files fs root).

(** Scenario B: the import line of [caller.py]. *)
Definition CALLER_LINE : string := "from app.routes import handler".

(** The manifest files [build_signals] finds. *)
Definition manifest_files (fs : FS) (root : Path) : list Path :=
  filter (fun p => Str.mem (PathOps.name p) Signals.MANIFEST_NAMES)
         (Signals._iter_files fs root).

(** Two observations of one unmodified tree, and two processes that iterate
    sets alike. *)
Definition same_snapshot (fs1 fs2 : FS) : Prop :=
  (forall p, fs_rglob fs1 p = fs_rglob fs2 p)
  /\ (forall p, fs_stat fs1 p = fs_stat fs2 p)
  /\ (forall p, fs_read_text fs1 p = fs_read_text fs2 p)
  /\ (forall p, fs_resolve fs1 p = fs_resolve fs2 p).

Definition same_order (o1 o2 : list string -> list string) : Prop :=
  forall adds, o1 adds = o2 adds.

(** ** Example trees *)

Definition demo_root : Path := ["/"; "tmp"; "repo"].

Definition dir_entry (rel : Path) : Entry := mkEntry rel false 4096 EmptyString.

(** A small service: a README and manifests, a package with an oversized
    entry file, and files named like ignored directories. *)
Definition demo_entries : list Entry :=
  [ file_entry ["Makefile"] "all: test";
    file_entry ["README.md"] "# demo";
    file_entry ["package.json"] "{}";
    dir_entry ["app"];
    file_entry ["app"; "caller.py"] CALLER_LINE;
    file_entry ["app"; "routes.py"] "def handler(): pass";
    mkEntry ["app"; "main.py"] true 400000 "import caller";
    dir_entry ["svc"];
    file_entry ["svc"; "go.mod"] "module svc";
    file_entry ["svc"; "build"] "#!/bin/sh";
    file_entry ["vendor"] "third party" ].

Definition demo_fs : FS := snapshot demo_root demo_entries.

(** Scenario for the README step: a Makefile listed before the README. *)
Definition readme_fs : FS :=
  snapshot demo_root
    [ file_entry ["Makefile"] "all: test"; file_entry ["README.md"] "# demo" ].

(** Two files with the stem [utils]; one imports the other by that name. *)
Definition utils_fs : FS :=
  snapshot demo_root
    [ dir_entry ["pkg"];
      file_entry ["pkg"; "utils.py"] "from lib.utils import helper";
      dir_entry ["lib"];
      file_entry ["lib"; "utils.py"] "def helper(): pass" ].

(** One file importing two others, which are then tied on inbound count. *)
Definition tie_fs : FS :=
  snapshot demo_root
    [ file_entry ["a.py"] ("import b" +++ Str.nl +++ "import c");
      file_entry ["b.py"] "x = 1";
      file_entry ["c.py"] "y = 2" ].

(** Forty-one directories [d00] .. [d40], each with a [main.py]; the last
    one is above the size ceiling. *)
Definition two_digits (n : nat) : string :=
  String (ascii_of_nat (48 + n / 10))
    (String (ascii_of_nat (48 + n mod 10)) EmptyString).

Definition many_entries : list Entry :=
  flat_map (fun n =>
              let d := "d" +++ two_digits n in
              [ dir_entry [d];
                mkEntry [d; "main.py"] true (if (n =? 40)%nat then 400000 else 10)%Z
                        "print(1)" ])
           (seq 0 41).

Definition many_fs : FS := snapshot demo_root many_entries.

(** ** [signals.py]: the route sample of [build_signals] *)

Definition ROUTE_CODE_SUFFIXES : list string := [".py"; ".js"; ".ts"].

Definition ROUTE_FALLBACKS : list string :=
  ["app.py"; "main.py"; "server.py"; "index.js"; "src/index.js"].

(** [fp = root / rel], kept when [fp.exists() and fp.is_file()]. *)
Definition existing_file (fs : FS) (root : Path) (rel : string) : list Path :=
  let fp := PathOps.joinpath root (PathOps.parse rel) in
  if exists_ fs fp && is_file fs fp then [fp] else [].

(** The files scanned for routes: the entrypoints with a code suffix, then
    the fallback names, which the code appends in every case. *)
Definition route_candidates (fs : FS) (root : Path) (ep_root ep_any : list string)
    : list Path :=
  flat_map (fun rel =>
              if existsb (fun suf => Str.endswith suf rel) ROUTE_CODE_SUFFIXES
              then existing_file fs root rel else [])
           (ep_root ++ ep_any)
  ++ flat_map (existing_file fs root) ROUTE_FALLBACKS.

Section RouteSample.

(** [[m.group(2) for m in _ROUTE_RE.finditer(txt)]].  The pattern has a
    backreference, which the matcher above does not cover: its matches are a
    parameter. *)
Variable route_literals : string -> list string.

Definition routes_of_text (txt : string) : list string :=
  filter (fun route => Str.startswith "/" route && (Str.len route <=? 60)%Z)
         (route_literals txt).

(** The loop over [candidates[:6]]; a file that cannot be read is skipped. *)
Definition collect_routes (fs : FS) (candidates : list Path) : list string :=
  flat_map (fun fp =>
              match fs_read_text fs fp with
              | Some txt => routes_of_text txt
              | None => []
              end)
           (firstn 6 candidates).

(** The value of the key [routes_sample]. *)
Definition routes_sample (fs : FS) (root : Path) (ep_root ep_any : list string)
    : list string :=
  firstn 20 (Py.dedupe [] (collect_routes fs (route_candidates fs root ep_root ep_any))).

End RouteSample.

(** ** [analyzer/analyze.py] *)

(** An element of a list decoded from JSON: a [str], or a value of another
    type, which the sanitizers skip. *)
Inductive value : Type :=
| VStr (s : string)
| VOther.

Definition WEB_STACK : list string := ["HTML"; "CSS"; "JavaScript"; "TypeScript"].

Definition HTML_ALIASES : list string := ["html/css/js"; "html/css"; "html"].

(** [allowed_stack] of [_sanitize_report_dict]. *)
Definition allowed_stack (languages framework_hints : list string) : list string :=
  languages ++ framework_hints ++ WEB_STACK.

(** The [cleaned] list of the tech stack block. *)
Definition clean_tech_stack (allowed : list string) (tech_stack : list value)
    : list string :=
  flat_map (fun t =>
              match t with
              | VOther => []
              | VStr t =>
                  let ts := Str.strip t in
                  let low := Str.lower ts in
                  if Str.mem low HTML_ALIASES then ["HTML"; "CSS"; "JavaScript"]
                  else if Str.mem ts allowed then [ts] else []
              end)
           tech_stack.

(** [data["tech_stack"]] after the strict-mode tech stack block. *)
Definition sanitize_tech_stack (languages framework_hints : list string)
    (tech_stack : list value) : list string :=
  Py.dedupe [] (clean_tech_stack (allowed_stack languages framework_hints) tech_stack).

Definition PAYMENT_WORDS : list string := ["payment"; "stripe"; "paypal"].
Definition EMAIL_WORDS : list string := ["email"; "smtp"].

Definition NO_NEW_FEATURES : string :=
  "Keep improvements repo-local; avoid adding major new features not present in code.".
Definition NO_NEW_INTEGRATIONS : string :=
  "Keep improvements repo-local; avoid claiming integrations not present in code.".

Definition mentions (words : list string) (low : string) : bool :=
  existsb (fun w => Str.contains w low) words.

(** One iteration of the improvements loop on a [str]. *)
Definition clean_improvement (has_payments has_email : bool) (s : string) : string :=
  let low := Str.lower s in
  if mentions PAYMENT_WORDS low && negb has_payments then NO_NEW_FEATURES
  else if mentions EMAIL_WORDS low && negb has_email then NO_NEW_INTEGRATIONS
  else s.

(** [data["improvements"]] after the strict-mode improvements block. *)
Definition sanitize_improvements (has_payments has_email : bool)
    (imps : list value) : list string :=
  Py.dedupe []
    (flat_map (fun v =>
                 match v with
                 | VStr s => [clean_improvement has_payments has_email s]
                 | VOther => []
                 end)
              imps).

(** [s.find(c)]: the first index of [c] in [s], [None] for Python's -1. *)
Fixpoint str_find (c : ascii) (s : string) : option nat :=
  match s with
  | EmptyString => None
  | String d s' =>
      if Ascii.eqb c d then Some O
      else match str_find c s' with
           | Some i => Some (S i)
           | None => None
           end
  end.

Section ExtractJson.

(** [json.loads], [None] when it raises. *)
Context {V : Type}.
Variable loads : string -> option V.

(** [_extract_json]: the whole text if it parses, else the span from the
    first open brace to the last close brace; [None] is an exception. *)
Definition _extract_json (text : string) : option V :=
  let text := Str.strip text in
  match loads text with
  | Some v => Some v
  | None =>
      match str_find "{"%char text, Str.rfind "}"%char text with
      | Some start, Some end_ =>
          if (end_ <=? start)%nat then None
          else loads (Str.take (end_ + 1 - start) (Str.drop start text))
      | _, _ => None
      end
  end.

End ExtractJson.

(** [p.read_text] succeeds. *)
Definition readable (fs : FS) (p : Path) : bool :=
  match fs_read_text fs p with
  | Some _ => true
  | None => false
  end.

(** The language of a file, by its lowercase extension. *)
Definition language_of (p : Path) : option string :=
  Signals.ext_lang (Str.lower (PathOps.suffix p)) Signals._EXT_LANG.

Definition has_language (lang : string) (p : Path) : bool :=
  match language_of p with
  | Some l => String.eqb lang l
  | None => false
  end.

(** The signals of a tree in which nothing is found. *)
Definition empty_signals : Signals.signals :=
  {| Signals.language_rank := [];
     Signals.language_counts := [];
     Signals.primary_language := None;
     Signals.entrypoints_near_root := [];
     Signals.entrypoints_anywhere := [];
     Signals.monorepo_hint := false;
     Signals.manifest_paths := [] |}.

(** A front end in which [main.ts] imports [./app.component]. *)
Definition angular_fs : FS :=
  snapshot demo_root
    [ file_entry ["app.component.ts"] "export class AppComponent {}";
      file_entry ["app.ts"] "export const app = 1;";
      file_entry ["main.ts"] "import { AppComponent } from './app.component';" ].

(** A checkout below a directory named [build]. *)
Definition nested_root : Path := ["/"; "ci"; "build"; "repo"].

Definition nested_fs : FS :=
  snapshot nested_root
    [ file_entry ["README.md"] "# demo"; file_entry ["main.py"] "import os" ].

(** A stand-in for [json.loads] that accepts the texts in braces. *)
Definition braced (s : string) : option string :=
  if Str.startswith "{" s && Str.endswith "}" s then Some s else None.

(** * Properties *)

Ltac inv H := inversion H; subst; clear H.

Ltac bind_inv H :=
  match type of H with
  | bind ?m _ = Some _ =>
      let E := fresh "E" in
      destruct m eqn:E; simpl in H; [ | discriminate H ]
  end.

(** ** Strings and paths *)

Lemma length_append (a b : string) :
  String.length (a +++ b) = (String.length a + String.length b)%nat.
Proof. induction a as [ | c a IH]; simpl; [ reflexivity | now rewrite IH ]. Qed.

Lemma len_append (a b : string) : Str.len (a +++ b) = (Str.len a + Str.len b)%Z.
Proof. unfold Str.len. rewrite length_append. lia. Qed.

Lemma len_nonneg (s : string) : (0 <= Str.len s)%Z.
Proof. unfold Str.len. lia. Qed.

Lemma append_assoc (a b c : string) : (a +++ b) +++ c = a +++ b +++ c.
Proof. induction a as [ | x a IH]; simpl; [ reflexivity | now rewrite IH ]. Qed.

Lemma append_empty_r (a : string) : a +++ EmptyString = a.
Proof. induction a as [ | x a IH]; simpl; [ reflexivity | now rewrite IH ]. Qed.

Lemma cat_app (l1 l2 : list string) : Str.cat (l1 ++ l2) = Str.cat l1 +++ Str.cat l2.
Proof.
  induction l1 as [ | s l1 IH]; simpl; [ reflexivity | ].
  now rewrite IH, append_assoc.
Qed.

Lemma clip_len (n : Z) (s : string) : (0 <= n -> Str.len (Str.clip n s) <= n)%Z.
Proof.
  revert n. induction s as [ | c s IH]; intros n Hn; simpl.
  - exact Hn.
  - destruct (Z.leb_spec n 0); [ exact Hn | ].
    specialize (IH (n - 1)%Z). unfold Str.len in *. simpl String.length. lia.
Qed.

Lemma relative_to_app (root rel : Path) :
  PathOps.relative_to (root ++ rel) root = Some rel.
Proof.
  induction root as [ | r root IH]; simpl; [ reflexivity | ].
  now rewrite String.eqb_refl.
Qed.

Lemma relative_to_inv (root p rel : Path) :
  PathOps.relative_to p root = Some rel -> p = root ++ rel.
Proof.
  revert p. induction root as [ | r root IH]; intros p H; simpl in *.
  - now inv H.
  - destruct p as [ | c p]; [ discriminate | ].
    destruct (String.eqb_spec r c); [ | discriminate ].
    subst. f_equal. now apply IH.
Qed.

(** ** The evidence budget *)

Lemma readable_blocks_clipped (fs : FS) (root : Path) (files : list Path) :
  Forall (fun b => (Str.len (snd b) <= 28000)%Z) (readable_blocks fs root files).
Proof.
  unfold readable_blocks. rewrite Forall_forall. intros b Hb.
  apply in_flat_map in Hb. destruct Hb as (p & _ & Hb).
  destruct (PathOps.relative_to p root); [ | contradiction ].
  destruct (fs_read_text fs p); [ | contradiction ].
  destruct Hb as [<- | []]. cbn [snd].
  apply clip_len. unfold PER_FILE_CHARS. lia.
Qed.

Lemma read_files_loop_spec (fs : FS) (root : Path) (cap : Z) (files : list Path) :
  forall total : Z,
  Forall (fun p => PathOps.relative_to p root <> None) files ->
  exists blocks rest tail,
    read_files_loop fs root files total cap = Some (map render_block blocks ++ tail)
    /\ readable_blocks fs root files = blocks ++ rest
    /\ (blocks = [] \/ total + Str.len (Str.cat (map render_block blocks)) <= cap)%Z
    /\ ((tail = [] /\ rest = [])
        \/ (tail = [TRUNCATION_MARKER]
            /\ exists b rest', rest = b :: rest'
               /\ (total + Str.len (Str.cat (map render_block blocks))
                   + Str.len (render_block b) > cap)%Z)).
Proof.
  induction files as [ | p files IH]; intros total Hroot.
  - exists [], [], []. simpl. repeat split; auto.
  - inv Hroot. simpl. unfold readable_blocks. simpl.
    destruct (PathOps.relative_to p root) as [rel | ] eqn:Erel; [ | congruence ].
    simpl. destruct (fs_read_text fs p) as [text | ] eqn:Etext.
    + set (blk := file_block rel (Str.clip PER_FILE_CHARS text)).
      destruct (Z.gtb_spec (total + Str.len blk) cap) as [Ecap | Ecap].
      * exists [], ((rel, Str.clip PER_FILE_CHARS text)
                    :: readable_blocks fs root files), [TRUNCATION_MARKER].
        simpl. repeat split; auto. right. split; [ reflexivity | ].
        eexists _, _. split; [ reflexivity | ].
        change (render_block (rel, Str.clip PER_FILE_CHARS text)) with blk.
        change (Str.len EmptyString) with 0%Z. lia.
      * destruct (IH (total + Str.len blk)%Z H2)
          as (blocks & rest & tail & Hloop & read_text_same & Hfit & Htail).
        rewrite Hloop. simpl.
        exists ((rel, Str.clip PER_FILE_CHARS text) :: blocks), rest, tail.
        assert (Hsum : Str.len (Str.cat (map render_block
                  ((rel, Str.clip PER_FILE_CHARS text) :: blocks)))
                = (Str.len blk + Str.len (Str.cat (map render_block blocks)))%Z).
        { cbn [map Str.cat]. rewrite len_append. reflexivity. }
        repeat split.
        -- fold (readable_blocks fs root files). now rewrite read_text_same.
        -- right. rewrite Hsum. destruct Hfit as [-> | Hfit].
           ++ change (Str.len (Str.cat (map render_block []))) with 0%Z. lia.
           ++ lia.
        -- destruct Htail as [Hnil | (Hmark & b & rest' & Hrest & Hover)].
           ++ now left.
           ++ right. split; [ exact Hmark | ]. exists b, rest'.
              split; [ exact Hrest | ]. rewrite Hsum. lia.
    + simpl. fold (readable_blocks fs root files). apply IH. exact H2.
Qed.

(** C1. For a non-negative total cap and selected files that lie under the
    root, [read_files] returns an evidence string that is a concatenation of
    whole blocks of the readable files, in selection order, followed by at
    most one truncation marker: the blocks are the longest run that fits the
    cap, the marker stands exactly where the next whole block would pass the
    cap and nothing follows it, every block's content has at most 28,000
    characters, and the evidence has at most cap plus marker length
    characters. *)
Theorem read_files_within_budget (fs : FS) (root : Path) (files : list Path)
    (cap : Z) :
  (0 <= cap)%Z ->
  Forall (fun p => PathOps.relative_to p root <> None) files ->
  exists blocks rest tail evidence,
    read_files fs root files cap = Some evidence
    /\ evidence = Str.cat (map render_block blocks ++ tail)
    /\ readable_blocks fs root files = blocks ++ rest
    /\ Forall (fun b => (Str.len (snd b) <= 28000)%Z) blocks
    /\ (Str.len (Str.cat (map render_block blocks)) <= cap)%Z
    /\ ((tail = [] /\ rest = [])
        \/ (tail = [TRUNCATION_MARKER]
            /\ exists b rest', rest = b :: rest'
               /\ (Str.len (Str.cat (map render_block blocks))
                   + Str.len (render_block b) > cap)%Z))
    /\ (Str.len evidence <= cap + Str.len TRUNCATION_MARKER)%Z.
Proof.
  intros Hcap Hroot.
  destruct (read_files_loop_spec fs root cap files 0%Z Hroot)
    as (blocks & rest & tail & Hloop & read_text_same & Hfit & Htail).
  exists blocks, rest, tail, (Str.cat (map render_block blocks ++ tail)).
  assert (Hsum : (Str.len (Str.cat (map render_block blocks)) <= cap)%Z).
  { destruct Hfit as [-> | Hfit]; [ | lia ].
    change (Str.len (Str.cat (map render_block []))) with 0%Z. lia. }
  split; [ unfold read_files; rewrite Hloop; reflexivity | ].
  split; [ reflexivity | ].
  split; [ exact read_text_same | ].
  split.
  { pose proof (readable_blocks_clipped fs root files) as Hclip.
    rewrite read_text_same in Hclip. apply Forall_app in Hclip. tauto. }
  split; [ exact Hsum | ].
  split.
  { destruct Htail as [Hnil | (Hmark & b & rest' & Hrest & Hover)].
    - left. exact Hnil.
    - right. split; [ exact Hmark | ]. exists b, rest'.
      split; [ exact Hrest | lia ]. }
  rewrite cat_app, len_append.
  pose proof (len_nonneg TRUNCATION_MARKER).
  destruct Htail as [(-> & _) | (-> & _)].
  - change (Str.len (Str.cat [])) with 0%Z. lia.
  - cbn [Str.cat]. rewrite append_empty_r. lia.
Qed.

(** ** Stable sorting *)

Section SortFacts.
Context {A K : Type} (key : A -> K) (leb : K -> K -> bool).

Lemma insert_perm (x : A) (l : list A) : Permutation (Py.insert key leb x l) (x :: l).
Proof.
  induction l as [ | y l IH]; simpl; [ reflexivity | ].
  destruct (leb (key x) (key y)); [ reflexivity | ].
  rewrite IH. apply perm_swap.
Qed.

Lemma sorted_perm (l : list A) : Permutation (Py.sorted key leb l) l.
Proof.
  induction l as [ | x l IH]; simpl; [ reflexivity | ].
  rewrite insert_perm. now constructor.
Qed.

Lemma sorted_length (l : list A) : length (Py.sorted key leb l) = length l.
Proof. apply Permutation_length, sorted_perm. Qed.

Lemma sorted_in (l : list A) (x : A) : In x (Py.sorted key leb l) <-> In x l.
Proof.
  split; apply Permutation_in; [ | symmetry ]; apply sorted_perm.
Qed.

Hypothesis leb_total : forall a b, leb a b = true \/ leb b a = true.
Hypothesis leb_trans : forall a b c, leb a b = true -> leb b c = true -> leb a c = true.

Lemma insert_sorted (x : A) (l : list A) :
  StronglySorted (fun x y => leb (key x) (key y) = true) l ->
  StronglySorted (fun x y => leb (key x) (key y) = true) (Py.insert key leb x l).
Proof.
  induction 1 as [ | y l Hl IH Hy]; simpl.
  - repeat constructor.
  - destruct (leb (key x) (key y)) eqn:Exy.
    + constructor; [ now constructor | ].
      constructor; [ exact Exy | ].
      rewrite Forall_forall in *. intros z Hz.
      eapply leb_trans; [ exact Exy | now apply Hy ].
    + constructor; [ exact IH | ].
      rewrite Forall_forall in *. intros z Hz.
      apply (Permutation_in _ (insert_perm x l)) in Hz.
      destruct Hz as [<- | Hz]; [ | now apply Hy ].
      destruct (leb_total (key x) (key y)); congruence.
Qed.

Lemma sorted_sorted (l : list A) :
  StronglySorted (fun x y => leb (key x) (key y) = true) (Py.sorted key leb l).
Proof.
  induction l as [ | x l IH]; simpl; [ constructor | now apply insert_sorted ].
Qed.
End SortFacts.

(** The result of a sort depends on the keys only through the comparisons
    between elements of the list. *)
Lemma insert_ext_in {A K1 K2 : Type} (k1 : A -> K1) (k2 : A -> K2)
    (leb1 : K1 -> K1 -> bool) (leb2 : K2 -> K2 -> bool) (x : A) (l : list A) :
  (forall y, In y l -> leb1 (k1 x) (k1 y) = leb2 (k2 x) (k2 y)) ->
  Py.insert k1 leb1 x l = Py.insert k2 leb2 x l.
Proof.
  induction l as [ | y l IH]; intros H; simpl; [ reflexivity | ].
  rewrite (H y (or_introl eq_refl)).
  destruct (leb2 (k2 x) (k2 y)); [ reflexivity | ].
  f_equal. apply IH. intros z Hz. apply H. now right.
Qed.

Lemma sorted_ext_in {A K1 K2 : Type} (k1 : A -> K1) (k2 : A -> K2)
    (leb1 : K1 -> K1 -> bool) (leb2 : K2 -> K2 -> bool) (l : list A) :
  (forall x y, In x l -> In y l -> leb1 (k1 x) (k1 y) = leb2 (k2 x) (k2 y)) ->
  Py.sorted k1 leb1 l = Py.sorted k2 leb2 l.
Proof.
  induction l as [ | x l IH]; intros H; simpl; [ reflexivity | ].
  rewrite IH by (intros; apply H; now right).
  apply insert_ext_in. intros y Hy.
  apply H; [ now left | right ]. now apply (sorted_in k2 leb2).
Qed.

Lemma insert_map {A B K : Type} (f : A -> B) (key : B -> K)
    (leb : K -> K -> bool) (x : A) (l : list A) :
  Py.insert key leb (f x) (map f l) = map f (Py.insert (fun a => key (f a)) leb x l).
Proof.
  induction l as [ | y l IH]; simpl; [ reflexivity | ].
  destruct (leb (key (f x)) (key (f y))); simpl; [ reflexivity | now rewrite IH ].
Qed.

Lemma sorted_map {A B K : Type} (f : A -> B) (key : B -> K)
    (leb : K -> K -> bool) (l : list A) :
  Py.sorted key leb (map f l) = map f (Py.sorted (fun a => key (f a)) leb l).
Proof.
  induction l as [ | x l IH]; simpl; [ reflexivity | ].
  now rewrite IH, insert_map.
Qed.

(** ** The order of strings *)

Lemma ascii_compare_refl (c : ascii) : Ascii.compare c c = Eq.
Proof. apply N.compare_refl. Qed.

Lemma string_compare_prefix (p a b : string) :
  String.compare (p +++ a) (p +++ b) = String.compare a b.
Proof.
  induction p as [ | c p IH]; simpl; [ reflexivity | ].
  now rewrite ascii_compare_refl.
Qed.

Lemma string_leb_prefix (p a b : string) :
  String.leb (p +++ a) (p +++ b) = String.leb a b.
Proof. unfold String.leb. now rewrite string_compare_prefix. Qed.

Lemma string_compare_lt_trans (a b c : string) :
  String.compare a b = Lt -> String.compare b c = Lt -> String.compare a c = Lt.
Proof.
  revert b c. induction a as [ | x a IH]; intros [ | y b] [ | z c]; simpl;
    try congruence.
  unfold Ascii.compare.
  destruct (N.compare_spec (N_of_ascii x) (N_of_ascii y)) as [Exy | Exy | Exy];
    destruct (N.compare_spec (N_of_ascii y) (N_of_ascii z)) as [Eyz | Eyz | Eyz];
    try congruence; intros Hab Hbc.
  - rewrite <- Exy in Eyz. rewrite (proj2 (N.compare_eq_iff _ _) Eyz).
    now apply (IH b c).
  - rewrite Exy. now rewrite (proj2 (N.compare_lt_iff _ _) Eyz).
  - rewrite <- Eyz. now rewrite (proj2 (N.compare_lt_iff _ _) Exy).
  - now rewrite (proj2 (N.compare_lt_iff _ _) (N.lt_trans _ _ _ Exy Eyz)).
Qed.

Lemma string_leb_trans (a b c : string) :
  String.leb a b = true -> String.leb b c = true -> String.leb a c = true.
Proof.
  unfold String.leb.
  destruct (String.compare a b) eqn:Eab; try discriminate;
    destruct (String.compare b c) eqn:Ebc; try discriminate; intros _ _.
  - apply String.compare_eq_iff in Eab, Ebc. subst.
    destruct (String.compare c c) eqn:Ecc; try reflexivity.
    pose proof (String.compare_antisym c c) as Ha. rewrite Ecc in Ha.
    discriminate.
  - apply String.compare_eq_iff in Eab. subst. now rewrite Ebc.
  - apply String.compare_eq_iff in Ebc. subst. now rewrite Eab.
  - now rewrite (string_compare_lt_trans a b c Eab Ebc).
Qed.

(** ** Well-formed relative paths *)

Lemma join_cons2 (sep x y : string) (l : list string) :
  Str.join sep (x :: y :: l) = x +++ sep +++ Str.join sep (y :: l).
Proof. reflexivity. Qed.

Lemma join_app (sep : string) (l1 l2 : list string) :
  l1 <> [] -> l2 <> [] ->
  Str.join sep (l1 ++ l2) = Str.join sep l1 +++ sep +++ Str.join sep l2.
Proof.
  intros H1 H2. induction l1 as [ | x l1 IH]; [ congruence | ].
  destruct l1 as [ | y l1].
  - destruct l2 as [ | z l2]; [ congruence | reflexivity ].
  - change ((x :: y :: l1) ++ l2) with (x :: y :: (l1 ++ l2)).
    rewrite !join_cons2. change (y :: l1 ++ l2) with ((y :: l1) ++ l2).
    rewrite IH by discriminate. now rewrite !append_assoc.
Qed.

Lemma count_nonneg (c : ascii) (s : string) : (0 <= Str.count c s)%Z.
Proof.
  induction s as [ | d s IH]; simpl; [ lia | ].
  destruct (Ascii.eqb c d); lia.
Qed.

Lemma wf_component_inv (c : string) :
  wf_component c = true ->
  c <> EmptyString /\ c <> "." /\ Str.count "/"%char c = 0%Z.
Proof.
  unfold wf_component. rewrite !andb_true_iff, !negb_true_iff.
  rewrite !String.eqb_neq, Z.eqb_eq. tauto.
Qed.

Lemma wf_component_not_anchor (c : string) :
  wf_component c = true -> String.eqb c "/" = false.
Proof.
  intros H. apply wf_component_inv in H. destruct H as (_ & _ & H).
  apply String.eqb_neq. intros ->. discriminate H.
Qed.

Lemma wf_rel_inv (rel : Path) :
  wf_rel rel = true -> rel <> [] /\ Forall (fun c => wf_component c = true) rel.
Proof.
  destruct rel as [ | c rel]; [ discriminate | ].
  intros H. split; [ discriminate | ].
  apply Forall_forall. now apply (proj1 (forallb_forall _ _)).
Qed.

Lemma str_wf (rel : Path) : wf_rel rel = true -> PathOps.str rel = Str.join "/" rel.
Proof.
  intros H. apply wf_rel_inv in H. destruct H as [Hne Hall].
  destruct rel as [ | c rel]; [ congruence | ].
  inv Hall. unfold PathOps.str. now rewrite wf_component_not_anchor.
Qed.

(** [str] of a path under the root is the root's prefix followed by [str]
    of the relative part. *)
Lemma str_under_root (root rel : Path) :
  wf_rel rel = true ->
  PathOps.str (root ++ rel) = root_prefix root +++ PathOps.str rel.
Proof.
  intros H. rewrite (str_wf rel H).
  pose proof (wf_rel_inv rel H) as [Hne Hall].
  destruct root as [ | c root].
  - exact (str_wf rel H).
  - cbn [app PathOps.str root_prefix].
    destruct (String.eqb c "/").
    + destruct root as [ | d root]; [ reflexivity | ].
      rewrite join_app by (discriminate || assumption).
      now rewrite !append_assoc.
    + change (c :: root ++ rel) with ((c :: root) ++ rel).
      rewrite join_app by (discriminate || assumption).
      now rewrite !append_assoc.
Qed.

Lemma split_sep (c : string) (rest : string) :
  Str.count "/"%char c = 0%Z ->
  Str.split "/"%char (c +++ "/" +++ rest) = c :: Str.split "/"%char rest.
Proof.
  induction c as [ | d c IH]; intros Hc; [ reflexivity | ].
  cbn [Str.count] in Hc. pose proof (count_nonneg "/"%char c).
  change (String d c +++ "/" +++ rest) with (String d (c +++ "/" +++ rest)).
  cbn [Str.split].
  destruct (Ascii.eqb "/"%char d); [ lia | ].
  rewrite IH by lia. reflexivity.
Qed.

Lemma split_free (c : string) :
  Str.count "/"%char c = 0%Z -> Str.split "/"%char c = [c].
Proof.
  induction c as [ | d c IH]; intros Hc; [ reflexivity | ].
  cbn [Str.count] in Hc. pose proof (count_nonneg "/"%char c).
  cbn [Str.split].
  destruct (Ascii.eqb "/"%char d); [ lia | ].
  rewrite IH by lia. reflexivity.
Qed.

Lemma split_join (rel : Path) :
  rel <> [] -> Forall (fun c => wf_component c = true) rel ->
  Str.split "/"%char (Str.join "/" rel) = rel.
Proof.
  intros Hne Hall. induction Hall as [ | c rel Hc Hall IH]; [ congruence | ].
  apply wf_component_inv in Hc. destruct Hc as (_ & _ & Hc).
  destruct rel as [ | d rel].
  - now apply split_free.
  - rewrite join_cons2, split_sep by exact Hc.
    f_equal. apply IH. discriminate.
Qed.

Lemma join_not_anchored (rel : Path) :
  rel <> [] -> Forall (fun c => wf_component c = true) rel ->
  Str.startswith "/" (Str.join "/" rel) = false.
Proof.
  intros Hne Hall. destruct Hall as [ | c rel Hc Hall]; [ congruence | ].
  apply wf_component_inv in Hc. destruct Hc as (Hc1 & _ & Hc).
  destruct c as [ | d c]; [ congruence | ].
  cbn [Str.count] in Hc. pose proof (count_nonneg "/"%char c).
  assert (Hd : Ascii.eqb "/"%char d = false)
    by (destruct (Ascii.eqb "/"%char d); [ lia | reflexivity ]).
  unfold Str.startswith.
  destruct rel; cbn [Str.join String.concat String.append String.prefix];
    destruct (Ascii.ascii_dec "/"%char d) as [E | E]; try reflexivity;
    subst; now rewrite Ascii.eqb_refl in Hd.
Qed.

(** [Path(rel.as_posix())] gives [rel] back. *)
Lemma parse_str (rel : Path) : wf_rel rel = true -> PathOps.parse (PathOps.str rel) = rel.
Proof.
  intros H. rewrite (str_wf rel H).
  pose proof (wf_rel_inv rel H) as [Hne Hall].
  unfold PathOps.parse.
  rewrite join_not_anchored, split_join by assumption.
  clear Hne H. induction Hall as [ | c rel Hc Hall IH]; [ reflexivity | ].
  cbn [filter]. apply wf_component_inv in Hc. destruct Hc as (Hc1 & Hc2 & _).
  apply String.eqb_neq in Hc1, Hc2. rewrite Hc1, Hc2. cbn. now f_equal.
Qed.

Lemma str_injective (r1 r2 : Path) :
  wf_rel r1 = true -> wf_rel r2 = true -> PathOps.str r1 = PathOps.str r2 -> r1 = r2.
Proof.
  intros H1 H2 E. rewrite <- (parse_str r1 H1), <- (parse_str r2 H2). now rewrite E.
Qed.

Lemma joinpath_wf (root rel : Path) :
  wf_rel rel = true -> PathOps.joinpath root rel = root ++ rel.
Proof.
  intros H. apply wf_rel_inv in H. destruct H as [Hne Hall].
  destruct Hall as [ | c rel Hc _]; [ congruence | ].
  unfold PathOps.joinpath. now rewrite wf_component_not_anchor.
Qed.

(** ** The scanners *)

Lemma filter_map_comm {A B : Type} (f : A -> B) (P : B -> bool) (l : list A) :
  filter P (map f l) = map f (filter (fun a => P (f a)) l).
Proof.
  induction l as [ | a l IH]; simpl; [ reflexivity | ].
  destruct (P (f a)); simpl; now rewrite IH.
Qed.

Lemma iter_repo_files_rels (fs : FS) (root : Path) :
  iter_repo_files fs root = map (fun rel => root ++ rel) (repo_rels fs root).
Proof. unfold iter_repo_files, rglob, repo_rels. apply filter_map_comm. Qed.

Lemma wf_tree_inv (fs : FS) (root : Path) :
  wf_tree fs root ->
  Forall (fun rel => wf_rel rel = true) (fs_rglob fs root)
  /\ NoDup (fs_rglob fs root).
Proof.
  unfold wf_tree. rewrite andb_true_iff. intros [Hwf Hd]. split.
  - now apply Forall_forall, forallb_forall.
  - induction (fs_rglob fs root) as [ | p l IH]; [ constructor | ].
    cbn [distinct] in Hd. apply andb_true_iff in Hd. destruct Hd as [Hp Hd].
    cbn [forallb] in Hwf. apply andb_true_iff in Hwf.
    constructor; [ | now apply IH ].
    intros Hin. apply negb_true_iff in Hp.
    assert (PathOps.mem p l = true); [ | congruence ].
    unfold PathOps.mem. apply existsb_exists. exists p. split; [ exact Hin | ].
    unfold PathOps.eqb. now destruct (list_eq_dec string_dec p p).
Qed.

Lemma repo_rels_wf (fs : FS) (root : Path) :
  wf_tree fs root ->
  Forall (fun rel => wf_rel rel = true) (repo_rels fs root)
  /\ NoDup (repo_rels fs root).
Proof.
  intros H. apply wf_tree_inv in H. destruct H as [Hwf Hnd]. split.
  - rewrite Forall_forall in *. intros rel Hrel.
    apply filter_In in Hrel. now apply Hwf.
  - now apply NoDup_filter.
Qed.

Lemma mapM_relposix_rels (root : Path) (rs : list Path) :
  Py.mapM (relposix root) (map (fun rel => root ++ rel) rs) = Some (map PathOps.str rs).
Proof.
  induction rs as [ | r rs IH]; [ reflexivity | ].
  cbn [map Py.mapM]. unfold relposix at 1. rewrite relative_to_app.
  cbn [bind]. rewrite IH. reflexivity.
Qed.

Lemma relposix_under_root (root rel : Path) :
  relposix root (root ++ rel) = Some (PathOps.str rel).
Proof. unfold relposix. now rewrite relative_to_app. Qed.

Lemma StronglySorted_map {A B : Type} (f : A -> B) (R : B -> B -> Prop) (l : list A) :
  StronglySorted (fun x y => R (f x) (f y)) l -> StronglySorted R (map f l).
Proof.
  induction 1 as [ | x l Hl IH Hx]; simpl; constructor; [ exact IH | ].
  rewrite Forall_forall in *. intros y Hy. apply in_map_iff in Hy.
  destruct Hy as (z & <- & Hz). now apply Hx.
Qed.

(** ** The tree listing *)

Lemma build_tree_loop_spec (root : Path) (max_entries : Z) (rs : list Path) :
  forall count : Z,
  (count < max_entries)%Z ->
  build_tree_loop root (map (fun rel => root ++ rel) rs) count max_entries
  = Some (map PathOps.str (firstn (Z.to_nat (max_entries - count)) rs)
          ++ (if (max_entries - count <=? Z.of_nat (length rs))%Z
              then [TREE_MARKER] else [])).
Proof.
  induction rs as [ | r rs IH]; intros count Hc.
  - cbn [map build_tree_loop length]. rewrite firstn_nil.
    destruct (Z.leb_spec (max_entries - count) (Z.of_nat 0)); [ lia | reflexivity ].
  - cbn [map build_tree_loop]. rewrite relative_to_app. cbn [bind].
    destruct (Z.geb_spec (count + 1) max_entries) as [Hge | Hlt].
    + replace (max_entries - count)%Z with 1%Z by lia.
      change (Z.to_nat 1) with 1%nat. cbn [firstn map app length].
      destruct (Z.leb_spec 1 (Z.of_nat (S (length rs)))); [ reflexivity | lia ].
    + rewrite (IH (count + 1)%Z) by lia. cbn [bind].
      replace (Z.to_nat (max_entries - count))
        with (S (Z.to_nat (max_entries - (count + 1)))) by lia.
      cbn [firstn map app length]. do 2 f_equal.
      destruct (Z.leb_spec (max_entries - (count + 1)) (Z.of_nat (length rs)));
        destruct (Z.leb_spec (max_entries - count) (Z.of_nat (S (length rs))));
        try reflexivity; lia.
Qed.

(** C9. On a well-formed tree and for an entry cap of at least one,
    [build_tree] returns the relative paths of the non-ignored regular files
    in lexicographic order, cut to the first [max_entries] of them and joined
    by newlines, and the truncation marker is the last line exactly when
    there are at least [max_entries] such files. *)
Theorem build_tree_listing (fs : FS) (root : Path) (max_entries : Z) :
  wf_tree fs root ->
  (1 <= max_entries)%Z ->
  exists rels all_lines,
    Py.mapM (relposix root) (iter_repo_files fs root) = Some rels
    /\ Permutation all_lines rels
    /\ StronglySorted (fun a b => String.leb a b = true) all_lines
    /\ build_tree fs root max_entries
       = Some (Str.join Str.nl
                 (firstn (Z.to_nat max_entries) all_lines
                  ++ (if (max_entries <=? Z.of_nat (length rels))%Z
                      then [TREE_MARKER] else [])))
    /\ (Z.of_nat (length (firstn (Z.to_nat max_entries) all_lines))
        <= max_entries)%Z.
Proof.
  intros Hwf Hmax.
  destruct (repo_rels_wf fs root Hwf) as [Hrels _].
  set (rs := repo_rels fs root) in *.
  exists (map PathOps.str rs), (map PathOps.str (Py.sorted PathOps.str String.leb rs)).
  rewrite iter_repo_files_rels. fold rs.
  split; [ apply mapM_relposix_rels | ].
  split; [ apply Permutation_map, sorted_perm | ].
  split.
  { apply StronglySorted_map.
    apply (sorted_sorted PathOps.str String.leb);
      [ apply String.leb_total | apply string_leb_trans ]. }
  split.
  - unfold build_tree. rewrite iter_repo_files_rels. fold rs.
    rewrite sorted_map.
    rewrite (sorted_ext_in (fun a => PathOps.str (root ++ a)) PathOps.str
               String.leb String.leb rs).
    + rewrite build_tree_loop_spec by lia. cbn [bind].
      rewrite Z.sub_0_r, firstn_map, sorted_length, length_map. reflexivity.
    + intros x y Hx Hy. rewrite Forall_forall in Hrels.
      rewrite !str_under_root by now apply Hrels.
      apply string_leb_prefix.
  - pose proof (firstn_le_length (Z.to_nat max_entries)
                  (map PathOps.str (Py.sorted PathOps.str String.leb rs))) as Hl.
    rewrite length_firstn. lia.
Qed.

(** ** Merging the tiers *)

Lemma path_eqb_eq (p q : Path) : PathOps.eqb p q = true <-> p = q.
Proof.
  unfold PathOps.eqb. destruct (list_eq_dec string_dec p q); split; congruence.
Qed.

Lemma path_mem_in (p : Path) (l : list Path) : PathOps.mem p l = true <-> In p l.
Proof.
  unfold PathOps.mem. rewrite existsb_exists. split.
  - intros (q & Hq & E). apply path_eqb_eq in E. now subst.
  - intros H. exists p. split; [ exact H | now apply path_eqb_eq ].
Qed.

Lemma mapM_resolve_keys (fs : FS) (out seen : list Path) :
  Py.mapM (fs_resolve fs) out = Some seen -> seen = map (resolved_key fs) out.
Proof.
  revert seen. induction out as [ | x out IH]; intros seen H; simpl in H.
  - now inv H.
  - bind_inv H. bind_inv H. inv H. simpl. unfold resolved_key at 1.
    rewrite E. f_equal. now apply IH.
Qed.

Lemma mapM_total {A B : Type} (f : A -> option B) (l : list A) :
  (forall a, In a l -> f a <> None) -> exists l', Py.mapM f l = Some l'.
Proof.
  induction l as [ | a l IH]; intros H; simpl.
  - now exists [].
  - destruct (f a) as [b | ] eqn:E; [ | now destruct (H a (or_introl eq_refl)) ].
    destruct IH as [l' Hl']; [ intros; apply H; now right | ].
    rewrite Hl'. simpl. now exists (b :: l').
Qed.

Section AddUnique.
Variable fs : FS.

Lemma add_unique_loop_nodup (items : list Path) :
  forall out seen,
  NoDup (map (resolved_key fs) out) ->
  (forall k, In k (map (resolved_key fs) out) -> In k seen) ->
  NoDup (map (resolved_key fs) (add_unique_loop fs out seen items)).
Proof.
  induction items as [ | it items IH]; intros out seen Hnd Hseen; simpl.
  - exact Hnd.
  - destruct (PathOps.mem (resolved_key fs it) seen) eqn:Emem.
    + now apply IH.
    + apply IH.
      * rewrite map_app. simpl. apply NoDup_app.
        -- exact Hnd.
        -- repeat constructor. intros [].
        -- intros k Hk [<- | []]. apply Hseen in Hk.
           apply path_mem_in in Hk. congruence.
      * intros k Hk. rewrite map_app in Hk. apply in_app_or in Hk.
        destruct Hk as [Hk | [<- | []]]; [ right; now apply Hseen | now left ].
Qed.

Lemma add_unique_loop_extends (items : list Path) :
  forall out seen,
  exists ext, add_unique_loop fs out seen items = out ++ ext
              /\ incl ext items /\ (length ext <= length items)%nat.
Proof.
  induction items as [ | it items IH]; intros out seen; simpl.
  - exists []. rewrite app_nil_r.
    split; [ reflexivity | split; [ intros x [] | simpl; lia ] ].
  - destruct (PathOps.mem (resolved_key fs it) seen).
    + destruct (IH out seen) as (ext & -> & Hincl & Hlen).
      exists ext.
      split; [ reflexivity | split; [ now apply incl_tl | simpl; lia ] ].
    + destruct (IH (out ++ [it]) (resolved_key fs it :: seen))
        as (ext & -> & Hincl & Hlen).
      exists (it :: ext). rewrite <- app_assoc.
      split; [ reflexivity | split; [ | simpl; lia ] ].
      intros x [<- | Hx]; [ now left | right; now apply Hincl ].
Qed.

Lemma add_unique_loop_covers (items : list Path) :
  forall out seen it,
  (forall k, In k seen -> In k (map (resolved_key fs) out)) ->
  In it items ->
  In (resolved_key fs it)
     (map (resolved_key fs) (add_unique_loop fs out seen items)).
Proof.
  induction items as [ | x items IH]; intros out seen it Hseen Hit; simpl.
  - destruct Hit.
  - assert (Hkeep : forall out' seen' k,
               In k (map (resolved_key fs) out) ->
               In k (map (resolved_key fs)
                       (add_unique_loop fs (out ++ out') seen' items))).
    { intros out' seen' k Hk.
      destruct (add_unique_loop_extends items (out ++ out') seen')
        as (ext & -> & _). rewrite !map_app. apply in_or_app. left.
      apply in_or_app. now left. }
    destruct (PathOps.mem (resolved_key fs x) seen) eqn:Emem.
    + destruct Hit as [<- | Hit]; [ | now apply IH ].
      apply path_mem_in, Hseen in Emem.
      specialize (Hkeep [] seen (resolved_key fs x) Emem). now rewrite app_nil_r in Hkeep.
    + destruct Hit as [<- | Hit].
      * destruct (add_unique_loop_extends items (out ++ [x]) ((resolved_key fs) x :: seen))
          as (ext & -> & _). rewrite !map_app. apply in_or_app. left.
        apply in_or_app. right. now left.
      * apply IH; [ | exact Hit ].
        intros k [<- | Hk]; rewrite map_app; apply in_or_app;
          [ right; now left | left; now apply Hseen ].
Qed.

Lemma add_unique_nodup (out items out' : list Path) :
  add_unique fs out items = Some out' ->
  NoDup (map (resolved_key fs) out) -> NoDup (map (resolved_key fs) out').
Proof.
  unfold add_unique. intros H Hnd. bind_inv H. inv H.
  apply mapM_resolve_keys in E. subst.
  apply add_unique_loop_nodup; [ exact Hnd | auto ].
Qed.

Lemma add_unique_extends (out items out' : list Path) :
  add_unique fs out items = Some out' ->
  exists ext, out' = out ++ ext /\ incl ext items
              /\ (length ext <= length items)%nat.
Proof.
  unfold add_unique. intros H. bind_inv H. inv H.
  apply add_unique_loop_extends.
Qed.

Lemma add_unique_covers (out items out' : list Path) (it : Path) :
  add_unique fs out items = Some out' ->
  In it items -> In (resolved_key fs it) (map (resolved_key fs) out').
Proof.
  unfold add_unique. intros H Hit. bind_inv H. inv H.
  apply mapM_resolve_keys in E. subst.
  apply add_unique_loop_covers; [ auto | exact Hit ].
Qed.

Lemma merge_tiers_nodup (pinned entry central candidates picked : list Path) :
  merge_tiers fs pinned entry central candidates = Some picked ->
  NoDup (map (resolved_key fs) picked).
Proof.
  unfold merge_tiers. intros H. do 3 bind_inv H.
  eapply add_unique_nodup; [ exact H | ].
  eapply add_unique_nodup; [ exact E1 | ].
  eapply add_unique_nodup; [ exact E0 | ].
  eapply add_unique_nodup; [ exact E | constructor ].
Qed.
End AddUnique.

Lemma NoDup_firstn {A : Type} (n : nat) (l : list A) : NoDup l -> NoDup (firstn n l).
Proof.
  revert n. induction l as [ | a l IH]; intros [ | n] H; simpl; try constructor.
  - inv H. intros Hin. apply H2.
    rewrite <- (firstn_skipn n l). apply in_or_app. now left.
  - inv H. now apply IH.
Qed.

(** C2. The selection [pick_important_files] returns holds no two entries
    with the same resolved path, whatever the tiers a file qualifies for. *)
Theorem selection_has_no_duplicates (set_order : list string -> list string)
    (fs : FS) (root : Path) (max_files : Z) (picked : list Path) :
  pick_important_files set_order fs root max_files = Some picked ->
  NoDup (map (resolved_key fs) picked).
Proof.
  unfold pick_important_files. intros H. do 4 bind_inv H. inv H.
  apply merge_tiers_nodup in E2.
  unfold Py.slice_to. destruct (0 <=? max_files)%Z;
    rewrite <- firstn_map; now apply NoDup_firstn.
Qed.

(** ** The basename index *)

Lemma index_get_append {V : Type} (k k' : string) (v : V) (d : list (string * list V)) :
  Py.index_get k (Py.index_append k' v d)
  = if String.eqb k k' then Py.index_get k d ++ [v] else Py.index_get k d.
Proof.
  induction d as [ | [k0 vs] d IH]; simpl.
  - now destruct (String.eqb k k').
  - destruct (String.eqb_spec k' k0) as [-> | Hk0]; simpl.
    + now destruct (String.eqb k k0).
    + rewrite IH. destruct (String.eqb_spec k k0) as [-> | Hk]; [ | reflexivity ].
      destruct (String.eqb_spec k0 k'); congruence.
Qed.

Lemma index_get_fold {V : Type} (f : V -> string) (k : string) (files : list V) :
  forall d,
  Py.index_get k (fold_left (fun idx p => Py.index_append (f p) p idx) files d)
  = Py.index_get k d ++ filter (fun p => String.eqb k (f p)) files.
Proof.
  induction files as [ | p files IH]; intros d; simpl.
  - now rewrite app_nil_r.
  - rewrite IH, index_get_append.
    destruct (String.eqb k (f p)); [ now rewrite <- app_assoc | reflexivity ].
Qed.

(** The index maps a basename to the files with that stem, in traversal
    order. *)
Lemma basename_index_get (fs : FS) (root : Path) (base : string) :
  Py.index_get base (_build_basename_index fs root)
  = filter (fun p => String.eqb base (Str.lower (PathOps.stem p)))
           (iter_repo_files fs root).
Proof. unfold _build_basename_index. now rewrite index_get_fold. Qed.

Lemma resolved_targets_files (fs : FS) (root src tgt : Path) :
  In tgt (resolved_targets fs root src) -> In tgt (iter_repo_files fs root).
Proof.
  unfold resolved_targets. intros H. apply in_flat_map in H.
  destruct H as (base & _ & H). rewrite basename_index_get in H.
  now apply filter_In in H.
Qed.

(** ** Relative paths of scanned files *)

Lemma iter_repo_files_under (fs : FS) (root p : Path) :
  In p (iter_repo_files fs root) ->
  exists rel, p = root ++ rel /\ In rel (repo_rels fs root).
Proof.
  rewrite iter_repo_files_rels. intros H. apply in_map_iff in H.
  destruct H as (rel & <- & H). now exists rel.
Qed.

Lemma relstr_under_root (root rel : Path) : relstr root (root ++ rel) = PathOps.str rel.
Proof. unfold relstr. now rewrite relposix_under_root. Qed.

Lemma relposix_relstr (fs : FS) (root p : Path) :
  In p (iter_repo_files fs root) -> relposix root p = Some (relstr root p).
Proof.
  intros H. apply iter_repo_files_under in H. destruct H as (rel & -> & _).
  now rewrite relstr_under_root, relposix_under_root.
Qed.

Lemma mapM_relposix_relstr (fs : FS) (root : Path) (l : list Path) :
  incl l (iter_repo_files fs root) ->
  Py.mapM (relposix root) l = Some (map (relstr root) l).
Proof.
  induction l as [ | p l IH]; intros H; [ reflexivity | ].
  cbn [Py.mapM map]. rewrite (relposix_relstr fs) by (apply H; now left).
  cbn [bind]. rewrite IH by (intros x Hx; apply H; now right). reflexivity.
Qed.

Lemma relstr_injective (fs : FS) (root p q : Path) :
  wf_tree fs root ->
  In p (iter_repo_files fs root) -> In q (iter_repo_files fs root) ->
  relstr root p = relstr root q -> p = q.
Proof.
  intros Hwf Hp Hq E. apply repo_rels_wf in Hwf. destruct Hwf as [Hwf _].
  rewrite Forall_forall in Hwf.
  apply iter_repo_files_under in Hp, Hq.
  destruct Hp as (rp & -> & Hp). destruct Hq as (rq & -> & Hq).
  rewrite !relstr_under_root in E. f_equal.
  apply str_injective; auto.
Qed.

(** ** Counters *)

Lemma counter_get_add (k k' : string) (n : Z) (c : Py.Counter) :
  Py.counter_get k (Py.counter_add k' n c)
  = (Py.counter_get k c + (if String.eqb k k' then n else 0))%Z.
Proof.
  induction c as [ | [k0 v] c IH]; simpl.
  - destruct (String.eqb k k'); lia.
  - destruct (String.eqb_spec k' k0) as [-> | Hk0]; simpl.
    + destruct (String.eqb k k0); lia.
    + rewrite IH. destruct (String.eqb_spec k k0) as [-> | Hk]; [ | reflexivity ].
      destruct (String.eqb_spec k0 k'); [ congruence | lia ].
Qed.

Lemma str_mem_in (s : string) (l : list string) : Str.mem s l = true <-> In s l.
Proof.
  unfold Str.mem. rewrite existsb_exists. split.
  - intros (x & Hx & E). apply String.eqb_eq in E. now subst.
  - intros H. exists s. split; [ exact H | apply String.eqb_refl ].
Qed.

Lemma str_mem_ext (s : string) (l1 l2 : list string) :
  (forall x, In x l1 <-> In x l2) -> Str.mem s l1 = Str.mem s l2.
Proof.
  intros H. destruct (Str.mem s l1) eqn:E1, (Str.mem s l2) eqn:E2; try reflexivity.
  - apply str_mem_in, H, str_mem_in in E1. congruence.
  - apply str_mem_in, H, str_mem_in in E2. congruence.
Qed.

Lemma inbound_fold (src_rel : string) (l : list string) :
  NoDup l ->
  forall (inbound : Py.Counter) (k : string),
  Py.counter_get k
    (fold_left (fun inb tgt_rel =>
                  if String.eqb tgt_rel src_rel then inb
                  else Py.counter_add tgt_rel 1 inb) l inbound)
  = (Py.counter_get k inbound
     + (if Str.mem k l && negb (String.eqb k src_rel) then 1 else 0))%Z.
Proof.
  induction 1 as [ | t l Ht Hl IH]; intros inbound k; simpl; [ lia | ].
  rewrite IH.
  destruct (String.eqb_spec k t) as [-> | Hkt]; simpl.
  - assert (Hmem : Str.mem t l = false).
    { destruct (Str.mem t l) eqn:E; [ | reflexivity ].
      apply str_mem_in in E. contradiction. }
    rewrite Hmem. simpl.
    destruct (String.eqb t src_rel); simpl; [ lia | ].
    rewrite counter_get_add, String.eqb_refl. lia.
  - destruct (String.eqb t src_rel); [ reflexivity | ].
    rewrite counter_get_add.
    destruct (String.eqb_spec k t); [ congruence | lia ].
Qed.

Section Centrality.
Variable set_order : list string -> list string.
Hypothesis set_order_enumerates : set_iteration set_order.
Variables (fs : FS) (root : Path).

Lemma update_counters_inbound (src_rel : string) (refs : list string)
    (acc : Py.Counter * Py.Counter) (k : string) :
  Py.counter_get k (fst (update_counters set_order src_rel refs acc))
  = (Py.counter_get k (fst acc)
     + (if Str.mem k refs && negb (String.eqb k src_rel) then 1 else 0))%Z.
Proof.
  destruct refs as [ | r refs]; [ simpl; lia | ].
  cbn [update_counters fst].
  destruct (set_order_enumerates (r :: refs)) as [Hnd Hin].
  rewrite inbound_fold by exact Hnd.
  now rewrite (str_mem_ext k _ _ Hin).
Qed.

Lemma update_counters_outbound (src_rel : string) (refs : list string)
    (acc : Py.Counter * Py.Counter) (k : string) :
  Py.counter_get k (snd (update_counters set_order src_rel refs acc))
  = (Py.counter_get k (snd acc)
     + (if String.eqb k src_rel then Py.set_len refs else 0))%Z.
Proof.
  destruct refs as [ | r refs].
  - cbn [update_counters]. change (Py.set_len []) with 0%Z.
    destruct (String.eqb k src_rel); lia.
  - cbn [update_counters snd]. apply counter_get_add.
Qed.

Lemma collect_refs_targets (src : Path) :
  collect_refs root (_build_basename_index fs root)
    (import_bases (Str.lower (PathOps.suffix src)) (_safe_read_text fs src 80000))
  = Some (source_refs fs root src).
Proof.
  unfold collect_refs. fold (resolved_targets fs root src).
  apply (mapM_relposix_relstr fs). intros tgt.
  apply resolved_targets_files.
Qed.

Lemma scan_source_step (acc : Py.Counter * Py.Counter) (src : Path) :
  In src (iter_repo_files fs root) ->
  scan_source set_order fs root (_build_basename_index fs root) acc src
  = Some (scan_step set_order fs root acc src).
Proof.
  intros Hsrc. unfold scan_source, scan_step, has_text.
  destruct (String.eqb (_safe_read_text fs src 80000) EmptyString);
    [ reflexivity | ].
  rewrite (relposix_relstr fs) by exact Hsrc. cbn [bind negb].
  rewrite collect_refs_targets. reflexivity.
Qed.

Lemma scan_sources_fold (cs : list Path) :
  incl cs (iter_repo_files fs root) ->
  forall acc,
  scan_sources set_order fs root (_build_basename_index fs root) cs acc
  = Some (fold_left (scan_step set_order fs root) cs acc).
Proof.
  induction cs as [ | src cs IH]; intros Hcs acc; [ reflexivity | ].
  cbn [scan_sources fold_left].
  rewrite scan_source_step by (apply Hcs; now left). cbn [bind].
  apply IH. intros x Hx. apply Hcs. now right.
Qed.

Lemma scan_fold_outbound (cs : list Path) (k : string) :
  forall acc,
  Py.counter_get k (snd (fold_left (scan_step set_order fs root) cs acc))
  = (Py.counter_get k (snd acc)
     + sum_over (fun src =>
                   if has_text fs src && String.eqb k (relstr root src)
                   then Py.set_len (source_refs fs root src) else 0) cs)%Z.
Proof.
  induction cs as [ | src cs IH]; intros acc; cbn [fold_left sum_over]; [ lia | ].
  rewrite IH. unfold scan_step.
  destruct (has_text fs src); cbn [andb]; [ | lia ].
  rewrite update_counters_outbound.
  destruct (String.eqb k (relstr root src)); lia.
Qed.

Lemma scan_fold_inbound (cs : list Path) (k : string) :
  forall acc,
  Py.counter_get k (fst (fold_left (scan_step set_order fs root) cs acc))
  = (Py.counter_get k (fst acc)
     + Z.of_nat (length (filter (fun src => references fs root src k) cs)))%Z.
Proof.
  induction cs as [ | src cs IH]; intros acc; cbn [fold_left filter length]; [ lia | ].
  rewrite IH. unfold scan_step, references.
  destruct (has_text fs src); cbn [andb].
  - rewrite update_counters_inbound.
    destruct (Str.mem k (source_refs fs root src)
              && negb (String.eqb k (relstr root src))); cbn [length]; lia.
  - lia.
Qed.
End Centrality.

Lemma sum_over_single {A : Type} (f : A -> Z) (l : list A) (a : A) :
  NoDup l -> In a l -> (forall b, In b l -> b <> a -> f b = 0%Z) ->
  sum_over f l = f a.
Proof.
  induction 1 as [ | b l Hb Hl IH]; intros Ha Hz; [ destruct Ha | ].
  cbn [sum_over]. destruct Ha as [-> | Ha].
  - assert (Hrest : sum_over f l = 0%Z); [ | lia ].
    clear IH. induction l as [ | c l IHl]; [ reflexivity | ].
    cbn [sum_over]. rewrite IHl.
    + rewrite (Hz c); [ lia | right; now left | ].
      intros ->. apply Hb. now left.
    + intros Hin. apply Hb. now right.
    + now inv Hl.
    + intros d Hd. apply Hz. destruct Hd as [-> | Hd]; [ now left | right; now right ].
  - rewrite (Hz b); [ | now left | intros ->; contradiction ].
    rewrite IH; [ lia | exact Ha | ].
    intros c Hc. apply Hz. now right.
Qed.

Lemma NoDup_map_app (root : Path) (l : list Path) :
  NoDup l -> NoDup (map (fun rel => root ++ rel) l).
Proof.
  induction 1 as [ | r l Hr Hl IH]; simpl; constructor; [ | exact IH ].
  intros Hin. apply in_map_iff in Hin. destruct Hin as (r' & E & Hr').
  apply app_inv_head in E. now subst.
Qed.

Lemma iter_repo_files_nodup (fs : FS) (root : Path) :
  wf_tree fs root -> NoDup (iter_repo_files fs root).
Proof.
  intros H. rewrite iter_repo_files_rels. apply NoDup_map_app.
  now apply repo_rels_wf.
Qed.

Lemma in_firstn {A : Type} (n : nat) (l : list A) (x : A) :
  In x (firstn n l) -> In x l.
Proof.
  intros H. rewrite <- (firstn_skipn n l). apply in_or_app. now left.
Qed.

Lemma slice_to_incl {A : Type} (n : Z) (l : list A) : incl (Py.slice_to n l) l.
Proof.
  unfold Py.slice_to. intros x Hx.
  destruct (0 <=? n)%Z; eapply in_firstn; exact Hx.
Qed.

Lemma slice_to_nodup {A : Type} (n : Z) (l : list A) : NoDup l -> NoDup (Py.slice_to n l).
Proof. unfold Py.slice_to. destruct (0 <=? n)%Z; apply NoDup_firstn. Qed.

Lemma scan_candidates_incl (fs : FS) (root : Path) (n : Z) :
  incl (scan_candidates fs root n) (iter_repo_files fs root).
Proof.
  unfold scan_candidates. intros p Hp. apply slice_to_incl in Hp.
  apply sorted_in, filter_In in Hp. tauto.
Qed.

Lemma scan_candidates_nodup (fs : FS) (root : Path) (n : Z) :
  wf_tree fs root -> NoDup (scan_candidates fs root n).
Proof.
  intros H. unfold scan_candidates. apply slice_to_nodup.
  eapply Permutation_NoDup; [ symmetry; apply sorted_perm | ].
  apply NoDup_filter. now apply iter_repo_files_nodup.
Qed.

(** ** The import graph *)

(** C4, as amended.  On a well-formed tree [_collect_import_centrality]
    returns counters such that the outbound count of every scanned source
    file is the number of its distinct resolved targets, the file itself
    included when it is one of them, and the inbound count of every path is
    the number of scanned source files, other than the file at that path,
    with that path among their resolved targets: one per referencing file,
    however many of its tokens resolve there. *)
Theorem import_centrality_counts (set_order : list string -> list string)
    (fs : FS) (root : Path) (max_files_to_scan : Z) :
  set_iteration set_order ->
  wf_tree fs root ->
  exists inbound outbound,
    _collect_import_centrality set_order fs root max_files_to_scan
    = Some (inbound, outbound)
    /\ (forall src,
          In src (scan_candidates fs root max_files_to_scan) ->
          has_text fs src = true ->
          Py.counter_get (relstr root src) outbound
          = Py.set_len (source_refs fs root src))
    /\ (forall tgt_rel,
          Py.counter_get tgt_rel inbound
          = Z.of_nat (length (filter (fun src => references fs root src tgt_rel)
                                (scan_candidates fs root max_files_to_scan)))).
Proof.
  intros Hset Hwf.
  set (cs := scan_candidates fs root max_files_to_scan).
  pose proof (scan_candidates_incl fs root max_files_to_scan) as Hincl. fold cs in Hincl.
  pose proof (scan_candidates_nodup fs root max_files_to_scan Hwf) as Hnd. fold cs in Hnd.
  exists (fst (fold_left (scan_step set_order fs root) cs ([], []))),
         (snd (fold_left (scan_step set_order fs root) cs ([], []))).
  split.
  { unfold _collect_import_centrality. fold cs.
    rewrite scan_sources_fold by exact Hincl. now rewrite <- surjective_pairing. }
  split.
  - intros src Hsrc Htext.
    rewrite scan_fold_outbound. cbn [snd Py.counter_get].
    rewrite (sum_over_single _ cs src Hnd Hsrc).
    + now rewrite Htext, String.eqb_refl.
    + intros b Hb Hne.
      destruct (has_text fs b); [ | reflexivity ]. cbn [andb].
      destruct (String.eqb_spec (relstr root src) (relstr root b)) as [E | E];
        [ | reflexivity ].
      exfalso. apply Hne. symmetry.
      apply (relstr_injective fs root); auto.
  - intros tgt_rel. rewrite (scan_fold_inbound set_order Hset). cbn [fst Py.counter_get].
    lia.
Qed.


(** ** The tiers of the selection *)

Lemma pinned_scan_incl (root : Path) (files pinned : list Path) :
  pinned_scan root files = Some pinned -> incl pinned files.
Proof.
  revert pinned. induction files as [ | p files IH]; intros pinned H; simpl in H.
  - inv H. intros x [].
  - do 2 bind_inv H. inv H. specialize (IH l eq_refl).
    destruct (_ && _); intros x Hx.
    + destruct Hx as [<- | Hx]; [ now left | right; now apply IH ].
    + right. now apply IH.
Qed.

Lemma pinned_scan_total (fs : FS) (root : Path) (files : list Path) :
  incl files (iter_repo_files fs root) ->
  exists pinned, pinned_scan root files = Some pinned.
Proof.
  induction files as [ | p files IH]; intros H; simpl.
  - now exists [].
  - rewrite (relposix_relstr fs) by (apply H; now left). cbn [bind].
    destruct IH as [pinned ->]; [ intros x Hx; apply H; now right | ].
    cbn [bind]. eauto.
Qed.

Lemma pin_readmes_in (fs : FS) (root : Path) (pinned : list Path) (p : Path) :
  In p (pin_readmes fs root pinned) ->
  In p pinned
  \/ exists rn, In rn README_NAMES /\ p = PathOps.joinpath root (PathOps.parse rn).
Proof.
  unfold pin_readmes. generalize README_NAMES as names.
  intros names. revert pinned.
  induction names as [ | rn names IH]; intros pinned H; simpl in H.
  - now left.
  - apply IH in H. destruct H as [H | (rn' & Hrn' & ->)].
    + destruct (_ && _).
      * destruct H as [<- | H]; [ right; exists rn; split; [ now left | reflexivity ] | now left ].
      * now left.
    + right. exists rn'. split; [ now right | reflexivity ].
Qed.

Lemma heuristic_entry_inv (fs : FS) (root : Path) (outbound : Py.Counter)
    (p : Path) (c : Z * Path) :
  heuristic_entry fs root outbound p = Some (Some c) ->
  snd c = p /\ exists st, fs_stat fs p = Some st /\ (st_size st <= SIZE_CEILING)%Z.
Proof.
  unfold heuristic_entry. intros H. bind_inv H.
  destruct (fs_stat fs p) as [st | ]; [ | discriminate ].
  destruct (Z.gtb_spec (st_size st) SIZE_CEILING) as [Hgt | Hle]; [ discriminate | ].
  bind_inv H. destruct (_ >? 0)%Z; inv H.
  split; [ reflexivity | ]. exists st. split; [ reflexivity | exact Hle ].
Qed.

Lemma heuristic_scan_inv (fs : FS) (root : Path) (outbound : Py.Counter)
    (files : list Path) (cands : list (Z * Path)) :
  heuristic_scan fs root outbound files = Some cands ->
  forall c, In c cands ->
  In (snd c) files
  /\ exists st, fs_stat fs (snd c) = Some st /\ (st_size st <= SIZE_CEILING)%Z.
Proof.
  revert cands. induction files as [ | p files IH]; intros cands H c Hc; simpl in H.
  - inv H. destruct Hc.
  - do 2 bind_inv H. inv H. specialize (IH l eq_refl).
    destruct o as [c0 | ].
    + destruct Hc as [<- | Hc].
      * apply heuristic_entry_inv in E. destruct E as [<- Hst].
        split; [ now left | exact Hst ].
      * destruct (IH c Hc) as [Hin Hst]. split; [ now right | exact Hst ].
    + destruct (IH c Hc) as [Hin Hst]. split; [ now right | exact Hst ].
Qed.

Lemma heuristic_scan_total (fs : FS) (root : Path) (outbound : Py.Counter)
    (files : list Path) :
  incl files (iter_repo_files fs root) ->
  exists cands, heuristic_scan fs root outbound files = Some cands.
Proof.
  induction files as [ | p files IH]; intros H; simpl.
  - now exists [].
  - assert (Hp : In p (iter_repo_files fs root)) by (apply H; now left).
    assert (He : exists e, heuristic_entry fs root outbound p = Some e).
    { unfold heuristic_entry. rewrite (relposix_relstr fs) by exact Hp.
      apply iter_repo_files_under in Hp. destruct Hp as (rel & -> & _).
      rewrite relative_to_app. cbn [bind].
      destruct (fs_stat fs (root ++ rel)); [ | eauto ].
      destruct (_ >? SIZE_CEILING)%Z; eauto. }
    destruct He as [e ->]. cbn [bind].
    destruct IH as [cands ->]; [ intros x Hx; apply H; now right | ].
    cbn [bind]. eauto.
Qed.

Lemma heuristic_candidates_inv (fs : FS) (root : Path) (outbound : Py.Counter)
    (cands : list (Z * Path)) :
  heuristic_candidates fs root outbound = Some cands ->
  forall p, In p (map snd cands) ->
  In p (iter_repo_files fs root)
  /\ exists st, fs_stat fs p = Some st /\ (st_size st <= SIZE_CEILING)%Z.
Proof.
  unfold heuristic_candidates. intros H p Hp. bind_inv H. inv H.
  apply in_map_iff in Hp. destruct Hp as (c & <- & Hc).
  apply sorted_in in Hc. now apply (heuristic_scan_inv fs root outbound _ l).
Qed.

Lemma counter_add_keys (k k' : string) (n : Z) (c : Py.Counter) :
  In k (map fst (Py.counter_add k' n c)) -> k = k' \/ In k (map fst c).
Proof.
  induction c as [ | [k0 v] c IH]; simpl.
  - intros [<- | []]. now left.
  - destruct (String.eqb k' k0); simpl.
    + intros [<- | H]; right; [ now left | now right ].
    + intros [<- | H]; [ right; now left | ].
      destruct (IH H) as [-> | H']; [ now left | right; now right ].
Qed.

Lemma inbound_fold_keys (src_rel : string) (l : list string) :
  forall (inbound : Py.Counter) (k : string),
  In k (map fst
          (fold_left (fun inb tgt_rel =>
                        if String.eqb tgt_rel src_rel then inb
                        else Py.counter_add tgt_rel 1 inb) l inbound)) ->
  In k l \/ In k (map fst inbound).
Proof.
  induction l as [ | t l IH]; intros inbound k H; simpl in H; [ now right | ].
  apply IH in H. destruct H as [H | H]; [ left; now right | ].
  destruct (String.eqb t src_rel); [ now right | ].
  apply counter_add_keys in H. destruct H as [-> | H]; [ left; now left | now right ].
Qed.

Section InboundKeys.
Variable set_order : list string -> list string.
Hypothesis set_order_enumerates : set_iteration set_order.
Variables (fs : FS) (root : Path).

Lemma scan_fold_inbound_keys (cs : list Path) :
  forall acc k,
  In k (map fst (fst (fold_left (scan_step set_order fs root) cs acc))) ->
  In k (map fst (fst acc))
  \/ exists src, In src cs /\ In k (source_refs fs root src).
Proof.
  induction cs as [ | src cs IH]; intros acc k H; cbn [fold_left] in H;
    [ now left | ].
  apply IH in H. destruct H as [H | (src' & Hsrc' & H)].
  - unfold scan_step in H. destruct (has_text fs src); [ | now left ].
    unfold update_counters in H.
    destruct (source_refs fs root src) as [ | r refs] eqn:Erefs; [ now left | ].
    cbn [fst] in H. apply inbound_fold_keys in H.
    destruct H as [H | H]; [ | now left ].
    right. exists src. split; [ now left | ].
    rewrite Erefs. now apply (set_order_enumerates (r :: refs)).
  - right. exists src'. split; [ now right | exact H ].
Qed.

(** Every key of the inbound counter is the relative path of a file of the
    tree. *)
Lemma inbound_keys_files (n : Z) (inbound outbound : Py.Counter) (k : string) :
  _collect_import_centrality set_order fs root n = Some (inbound, outbound) ->
  In k (map fst inbound) ->
  exists tgt, In tgt (iter_repo_files fs root) /\ k = relstr root tgt.
Proof.
  unfold _collect_import_centrality. intros H Hk.
  rewrite scan_sources_fold in H by apply scan_candidates_incl.
  injection H as H1.
  replace inbound with (fst (fold_left (scan_step set_order fs root)
                               (scan_candidates fs root n) ([], []))) in Hk
    by now rewrite H1.
  apply scan_fold_inbound_keys in Hk. destruct Hk as [[] | (src & _ & Hk)].
  unfold source_refs in Hk. apply in_map_iff in Hk.
  destruct Hk as (tgt & <- & Htgt). exists tgt.
  split; [ now apply (resolved_targets_files fs root src) | reflexivity ].
Qed.

Lemma central_scan_files (n : Z) (inbound outbound : Py.Counter) (fp : Path) :
  wf_tree fs root ->
  _collect_import_centrality set_order fs root n = Some (inbound, outbound) ->
  In fp (map snd (central_scan fs root inbound)) ->
  In fp (iter_repo_files fs root).
Proof.
  intros Hwf Hc Hfp. apply in_map_iff in Hfp. destruct Hfp as ([s q] & <- & Hq).
  unfold central_scan in Hq. apply in_flat_map in Hq.
  destruct Hq as ([rel score] & Hrel & Hq). cbn [fst snd] in Hq.
  destruct (_ && _); [ | destruct Hq ]. destruct Hq as [Hq | []]. inv Hq.
  unfold Py.most_common in Hrel. apply in_firstn in Hrel.
  apply sorted_in in Hrel.
  assert (Hk : In rel (map fst inbound)) by (apply in_map_iff; now exists (rel, s)).
  destruct (inbound_keys_files n inbound outbound rel Hc Hk) as (tgt & Htgt & ->).
  pose proof Htgt as Hin.
  apply iter_repo_files_under in Htgt. destruct Htgt as (r & -> & Hr).
  apply repo_rels_wf in Hwf. destruct Hwf as [Hwf _].
  rewrite Forall_forall in Hwf. specialize (Hwf r Hr).
  rewrite relstr_under_root, parse_str, joinpath_wf by exact Hwf.
  exact Hin.
Qed.
End InboundKeys.

Lemma merge_tiers_structure (fs : FS) (pinned entry central candidates picked : list Path) :
  merge_tiers fs pinned entry central candidates = Some picked ->
  exists front later,
    picked = front ++ later
    /\ (length front <= length (pinned ++ entry))%nat
    /\ (forall p, In p (pinned ++ entry) ->
          In (resolved_key fs p) (map (resolved_key fs) front))
    /\ incl front (pinned ++ entry)
    /\ incl later (central ++ candidates).
Proof.
  unfold merge_tiers. intros H. do 3 bind_inv H.
  destruct (add_unique_extends fs _ _ _ E) as (x1 & -> & Hi1 & Hl1).
  destruct (add_unique_extends fs _ _ _ E0) as (x2 & -> & Hi2 & Hl2).
  destruct (add_unique_extends fs _ _ _ E1) as (x3 & -> & Hi3 & Hl3).
  destruct (add_unique_extends fs _ _ _ H) as (x4 & -> & Hi4 & Hl4).
  cbn [app] in *. exists (x1 ++ x2), (x3 ++ x4).
  split; [ now rewrite <- !app_assoc | ].
  split; [ rewrite !length_app; lia | ].
  split; [ | split ].
  - intros p Hp. apply in_app_or in Hp. destruct Hp as [Hp | Hp].
    + rewrite map_app. apply in_or_app. left.
      exact (add_unique_covers fs _ _ _ p E Hp).
    + exact (add_unique_covers fs _ _ _ p E0 Hp).
  - intros p Hp. apply in_app_or in Hp. apply in_or_app.
    destruct Hp as [Hp | Hp]; [ left; now apply Hi1 | right; now apply Hi2 ].
  - intros p Hp. apply in_app_or in Hp. apply in_or_app.
    destruct Hp as [Hp | Hp]; [ left; now apply Hi3 | right; now apply Hi4 ].
Qed.

Lemma merge_tiers_total (fs : FS) (pinned entry central candidates : list Path) :
  (forall p, fs_resolve fs p <> None) ->
  exists picked, merge_tiers fs pinned entry central candidates = Some picked.
Proof.
  intros Hres.
  assert (Hadd : forall out items, exists out', add_unique fs out items = Some out').
  { intros out items. unfold add_unique.
    destruct (mapM_total (fs_resolve fs) out) as [seen ->]; [ auto | ].
    cbn [bind]. eauto. }
  unfold merge_tiers.
  destruct (Hadd [] pinned) as [p1 ->]. cbn [bind].
  destruct (Hadd p1 entry) as [p2 ->]. cbn [bind].
  destruct (Hadd p2 central) as [p3 ->]. cbn [bind].
  apply Hadd.
Qed.

(** [pick_important_files] returns a selection whenever [resolve] does not
    raise. *)
Lemma pick_important_files_returns (set_order : list string -> list string)
    (fs : FS) (root : Path) (max_files : Z) :
  (forall p, fs_resolve fs p <> None) ->
  exists picked, pick_important_files set_order fs root max_files = Some picked.
Proof.
  intros Hres. unfold pick_important_files, pinned_tier.
  destruct (pinned_scan_total fs root (iter_repo_files fs root)) as [pinned ->];
    [ apply incl_refl | ].
  cbn [bind]. unfold _collect_import_centrality.
  rewrite scan_sources_fold by apply scan_candidates_incl. cbn [bind].
  unfold heuristic_candidates.
  destruct (heuristic_scan_total fs root
              (snd (fold_left (scan_step set_order fs root)
                      (scan_candidates fs root 250) ([], [])))
              (iter_repo_files fs root)) as [cands ->]; [ apply incl_refl | ].
  cbn [bind].
  match goal with
  | |- context [merge_tiers fs ?a ?b ?c ?d] =>
      destruct (merge_tiers_total fs a b c d Hres) as [picked ->]
  end.
  cbn [bind]. eauto.
Qed.

(** Every selected file is a file the scanner yields or a README placed
    by the pinning step. *)
Lemma picked_sources (set_order : list string -> list string) (fs : FS)
    (root : Path) (max_files : Z) (picked : list Path) (q : Path) :
  set_iteration set_order ->
  wf_tree fs root ->
  pick_important_files set_order fs root max_files = Some picked ->
  In q picked ->
  In q (iter_repo_files fs root)
  \/ exists rn, In rn README_NAMES /\ q = PathOps.joinpath root (PathOps.parse rn).
Proof.
  intros Hset Hwf H Hq. unfold pick_important_files in H.
  do 4 bind_inv H. inv H. apply slice_to_incl in Hq.
  destruct p as [inbound outbound]. cbn [fst snd] in *.
  destruct (merge_tiers_structure fs _ _ _ _ _ E2)
    as (front & later & -> & _ & _ & Hfront & Hlater).
  unfold pinned_tier in E. bind_inv E. inv E.
  apply in_app_or in Hq. destruct Hq as [Hq | Hq].
  - apply Hfront, in_app_or in Hq. destruct Hq as [Hq | Hq].
    + apply pin_readmes_in in Hq. destruct Hq as [Hq | Hq]; [ left | now right ].
      now apply (pinned_scan_incl root _ _ E3).
    + left. unfold entry_tier, entry_scan in Hq. now apply filter_In in Hq.
  - left. apply Hlater, in_app_or in Hq. destruct Hq as [Hq | Hq].
    + now apply (central_scan_files set_order Hset fs root 250 inbound outbound).
    + now apply (heuristic_candidates_inv fs root outbound l0).
Qed.

(** C6, as amended.  A file above the size ceiling is in no heuristic
    candidate list.  The pinned and the entrypoint tiers never look at the
    size: when such a file is in one of them and the two tiers together hold
    at most [max_files] entries, the final selection holds it, as the entry
    with its resolved path. *)
Theorem oversized_files_selection (set_order : list string -> list string)
    (fs : FS) (root : Path) (max_files : Z) (p : Path) (st : Stat) :
  fs_stat fs p = Some st ->
  (st_size st > SIZE_CEILING)%Z ->
  (forall outbound cands,
     heuristic_candidates fs root outbound = Some cands ->
     ~ In p (map snd cands))
  /\ (forall pinned picked,
        pinned_tier fs root = Some pinned ->
        pick_important_files set_order fs root max_files = Some picked ->
        In p (pinned ++ entry_tier fs root) ->
        (Z.of_nat (length (pinned ++ entry_tier fs root)) <= max_files)%Z ->
        exists q, In q picked /\ resolved_key fs q = resolved_key fs p).
Proof.
  intros Hst Hsize. split.
  - intros outbound cands Hc Hin.
    destruct (heuristic_candidates_inv fs root outbound cands Hc p Hin)
      as (_ & st' & Hst' & Hle).
    rewrite Hst in Hst'. inv Hst'. lia.
  - intros pinned picked Hpin H Hp Hlen. unfold pick_important_files in H.
    rewrite Hpin in H. cbn [bind] in H. do 3 bind_inv H. inv H.
    destruct (merge_tiers_structure fs _ _ _ _ _ E1)
      as (front & later & -> & Hfl & Hcov & _ & _).
    specialize (Hcov p Hp). apply in_map_iff in Hcov.
    destruct Hcov as (q & Hkey & Hq). exists q. split; [ | exact Hkey ].
    unfold Py.slice_to. destruct (Z.leb_spec 0 max_files) as [Hpos | Hneg]; [ | lia ].
    rewrite firstn_app. apply in_or_app. left.
    rewrite firstn_all2 by lia. exact Hq.
Qed.

(** ** Files named like an ignored directory *)

Lemma name_in_parts (p : Path) : PathOps.name p <> EmptyString -> In (PathOps.name p) p.
Proof.
  unfold PathOps.name. intros H. apply in_rev.
  destruct (rev p) as [ | n [ | m l]]; [ congruence | | now left ].
  destruct (String.eqb n "/"); [ congruence | now left ].
Qed.

Lemma name_snoc (root : Path) (n : string) :
  n <> "/" -> PathOps.name (root ++ [n]) = n.
Proof.
  intros H. unfold PathOps.name. rewrite rev_app_distr. cbn [rev app].
  apply String.eqb_neq in H. destruct (rev root); [ now rewrite H | reflexivity ].
Qed.

Lemma ignored_name_in_parts (p : Path) (ignore : list string) :
  Str.mem EmptyString ignore = false ->
  Str.mem (PathOps.name p) ignore = true ->
  existsb (fun part => Str.mem part ignore) p = true.
Proof.
  intros Hempty Hname. apply existsb_exists. exists (PathOps.name p).
  split; [ | exact Hname ]. apply name_in_parts. intros E. congruence.
Qed.

Lemma ignored_name_not_scanned (fs : FS) (root p : Path) :
  Str.mem (PathOps.name p) IGNORE_DIRS = true -> ~ In p (iter_repo_files fs root).
Proof.
  intros Hname Hin. unfold iter_repo_files in Hin. apply filter_In in Hin.
  destruct Hin as [_ Hin]. apply andb_true_iff in Hin. destruct Hin as [Hin _].
  rewrite (ignored_name_in_parts p IGNORE_DIRS eq_refl Hname) in Hin. discriminate.
Qed.

Lemma signals_ignored_name_not_scanned (fs : FS) (root p : Path) :
  Str.mem (PathOps.name p) Signals._IGNORE_DIRS = true ->
  ~ In p (Signals._iter_files fs root).
Proof.
  intros Hname Hin. unfold Signals._iter_files in Hin. apply filter_In in Hin.
  destruct Hin as [_ Hin]. apply andb_true_iff in Hin. destruct Hin as [_ Hin].
  rewrite (ignored_name_in_parts p Signals._IGNORE_DIRS eq_refl Hname) in Hin.
  discriminate.
Qed.

(** A file named like an ignored directory has no extension with a language
    and is no entrypoint and no manifest. *)
Lemma ignored_name_no_signal (p : Path) :
  Str.mem (PathOps.name p) IGNORE_DIRS = true ->
  Signals.ext_lang (Str.lower (PathOps.suffix p)) Signals._EXT_LANG = None
  /\ Str.mem (PathOps.name p) Signals._ENTRYPOINT_FILES_NEAR_ROOT = false
  /\ Str.mem (PathOps.name p) Signals._ENTRYPOINT_FILES_ANYWHERE = false
  /\ Str.mem (PathOps.name p) Signals.MANIFEST_NAMES = false.
Proof.
  intros H. apply str_mem_in in H. unfold PathOps.suffix.
  unfold IGNORE_DIRS in H. cbn [In] in H.
  repeat (destruct H as [H | H]; [ rewrite <- H; vm_compute; auto | ]).
  destruct H.
Qed.

Lemma relposix_rglob (fs : FS) (root p : Path) :
  In p (rglob fs root) -> relposix root p = Some (relstr root p).
Proof.
  unfold rglob. intros H. apply in_map_iff in H. destruct H as (rel & <- & _).
  now rewrite relstr_under_root, relposix_under_root.
Qed.

Lemma mapM_relposix_rglob (fs : FS) (root : Path) (l : list Path) :
  incl l (rglob fs root) -> Py.mapM (relposix root) l = Some (map (relstr root) l).
Proof.
  induction l as [ | p l IH]; intros H; [ reflexivity | ].
  cbn [Py.mapM map]. rewrite (relposix_rglob fs) by (apply H; now left).
  cbn [bind]. rewrite IH by (intros x Hx; apply H; now right). reflexivity.
Qed.

Lemma near_root_scan_filter (fs : FS) (root : Path) (l : list Path) :
  incl l (rglob fs root) ->
  Signals.near_root_scan root l
  = Some (map (relstr root)
            (filter (fun p => (Str.count "/"%char (relstr root p) <=? 1)%Z
                              && Str.mem (PathOps.name p)
                                   Signals._ENTRYPOINT_FILES_NEAR_ROOT) l)).
Proof.
  induction l as [ | p l IH]; intros H; [ reflexivity | ].
  cbn [Signals.near_root_scan filter].
  rewrite (relposix_rglob fs) by (apply H; now left). cbn [bind].
  rewrite IH by (intros x Hx; apply H; now right). cbn [bind].
  now destruct (_ && _).
Qed.

Lemma filter_filter_keep {A : Type} (cond keep : A -> bool) (l : list A) :
  (forall a, cond a = true -> keep a = true) ->
  filter cond (filter keep l) = filter cond l.
Proof.
  intros H. induction l as [ | a l IH]; simpl; [ reflexivity | ].
  destruct (keep a) eqn:Ek; simpl.
  - now rewrite IH.
  - destruct (cond a) eqn:Ec; [ | exact IH ].
    apply H in Ec. congruence.
Qed.

Lemma fold_left_filter_keep {A B : Type} (f : B -> A -> B) (keep : A -> bool)
    (l : list A) :
  (forall a b, keep a = false -> f b a = b) ->
  forall b, fold_left f (filter keep l) b = fold_left f l b.
Proof.
  intros H. induction l as [ | a l IH]; intros b; simpl; [ reflexivity | ].
  destruct (keep a) eqn:Ek; simpl; [ apply IH | ].
  rewrite (H a b Ek). apply IH.
Qed.

(** The signals are those of the tree without the file [p]. *)
Lemma signals_without_ignored_name (fs : FS) (root p : Path) :
  Str.mem (PathOps.name p) IGNORE_DIRS = true ->
  Signals.build_signals fs root
  = Signals.signals_of root
      (filter (fun q => negb (PathOps.eqb q p)) (Signals._iter_files fs root)).
Proof.
  intros Hname.
  destruct (ignored_name_no_signal p Hname) as (Hlang & Hnear & Hany & Hman).
  set (keep := fun q => negb (PathOps.eqb q p)).
  assert (Hkeep : forall q, keep q = false -> q = p).
  { intros q Hq. unfold keep in Hq. apply negb_false_iff in Hq.
    now apply path_eqb_eq. }
  assert (Hdrop : forall cond : Path -> bool, cond p = false ->
            forall l, filter cond (filter keep l) = filter cond l).
  { intros cond Hc l. apply filter_filter_keep. intros a Ha.
    destruct (keep a) eqn:Ek; [ reflexivity | ].
    apply Hkeep in Ek. congruence. }
  assert (Hfiles : incl (Signals._iter_files fs root) (rglob fs root)).
  { intros q Hq. unfold Signals._iter_files in Hq. now apply filter_In in Hq. }
  assert (Hfiles' : incl (filter keep (Signals._iter_files fs root)) (rglob fs root)).
  { intros q Hq. apply filter_In in Hq. now apply Hfiles. }
  unfold Signals.build_signals, Signals.signals_of.
  assert (Hcounts : Signals.lang_counts (filter keep (Signals._iter_files fs root))
                    = Signals.lang_counts (Signals._iter_files fs root)).
  { unfold Signals.lang_counts. apply fold_left_filter_keep.
    intros a b Ha. apply Hkeep in Ha. subst a. now rewrite Hlang. }
  rewrite Hcounts.
  rewrite !(near_root_scan_filter fs) by assumption.
  rewrite Hdrop by (now rewrite Hnear, andb_false_r).
  unfold Signals.anywhere_scan, Signals.manifest_scan.
  rewrite !Hdrop by assumption.
  reflexivity.
Qed.


(** ** The monorepo hint *)

Lemma set_len_two (l : list string) :
  (Py.set_len l >=? 2)%Z = true <-> exists x y, In x l /\ In y l /\ x <> y.
Proof.
  unfold Py.set_len. rewrite Z.geb_le.
  pose proof (NoDup_nodup string_dec l) as Hnd.
  pose proof (nodup_In string_dec l) as Hin.
  destruct (nodup string_dec l) as [ | a [ | b t]]; cbn [length].
  - split; [ lia | ]. intros (x & _ & Hx & _). now apply Hin in Hx.
  - split; [ lia | ]. intros (x & y & Hx & Hy & Hne).
    apply Hin in Hx, Hy. destruct Hx as [<- | []], Hy as [<- | []]. congruence.
  - split; [ intros _ | lia ]. exists a, b.
    split; [ apply Hin; now left | ].
    split; [ apply Hin; right; now left | ].
    inv Hnd. intros ->. apply H1. now left.
Qed.

Lemma removelast_wf (r : Path) :
  wf_rel r = true -> removelast r = [] \/ wf_rel (removelast r) = true.
Proof.
  intros H. apply wf_rel_inv in H. destruct H as [_ Hall].
  assert (Hrm : Forall (fun c => wf_component c = true) (removelast r)).
  { induction Hall as [ | c r Hc Hall IH]; [ constructor | ].
    cbn [removelast]. destruct r; [ constructor | now constructor ]. }
  destruct (removelast r) as [ | c d] eqn:E; [ now left | right ].
  unfold wf_rel. apply forallb_forall. now apply Forall_forall.
Qed.

Lemma parse_str_dir (d : Path) :
  d = [] \/ wf_rel d = true -> PathOps.parse (PathOps.str d) = d.
Proof. intros [-> | H]; [ reflexivity | now apply parse_str ]. Qed.

Lemma parent_wf (r : Path) : wf_rel r = true -> PathOps.parent r = removelast r.
Proof.
  intros H. apply wf_rel_inv in H. destruct H as [Hne Hall].
  destruct Hall as [ | c r Hc _]; [ congruence | ].
  unfold PathOps.parent. destruct r; [ | reflexivity ].
  now rewrite wf_component_not_anchor.
Qed.

Lemma parent_under_root (root r : Path) :
  wf_rel r = true -> PathOps.parent (root ++ r) = root ++ removelast r.
Proof.
  intros H. pose proof (wf_rel_inv r H) as [Hne _].
  destruct root as [ | c root].
  - now apply parent_wf.
  - rewrite <- removelast_app by exact Hne.
    unfold PathOps.parent. cbn [app].
    destruct (root ++ r) eqn:E; [ | reflexivity ].
    apply app_eq_nil in E. tauto.
Qed.

Lemma parent_dir_relative (r : Path) :
  wf_rel r = true -> Signals.parent_dir (PathOps.str r) = PathOps.str (removelast r).
Proof.
  intros H. unfold Signals.parent_dir. now rewrite parse_str, parent_wf.
Qed.

(** Two files of the tree have the same [Path(rel).parent.as_posix()]
    exactly when they lie in the same directory. *)
Lemma parent_dir_same (fs : FS) (root p q : Path) :
  wf_tree fs root -> In p (rglob fs root) -> In q (rglob fs root) ->
  Signals.parent_dir (relstr root p) = Signals.parent_dir (relstr root q)
  <-> PathOps.parent p = PathOps.parent q.
Proof.
  intros Hwf Hp Hq. apply wf_tree_inv in Hwf. destruct Hwf as [Hwf _].
  rewrite Forall_forall in Hwf. unfold rglob in Hp, Hq.
  apply in_map_iff in Hp, Hq.
  destruct Hp as (rp & <- & Hp). destruct Hq as (rq & <- & Hq).
  apply Hwf in Hp, Hq.
  rewrite !relstr_under_root, !parent_dir_relative, !parent_under_root by assumption.
  split.
  - intros E. f_equal.
    rewrite <- (parse_str_dir (removelast rp)), <- (parse_str_dir (removelast rq))
      by now apply removelast_wf.
    now rewrite E.
  - intros E. apply app_inv_head in E. now rewrite E.
Qed.

(** C7.  On a well-formed tree [build_signals] returns, and its
    [monorepo_hint] is true exactly when two of the manifest files it finds
    lie in different directories; with a single manifest it is false. *)
Theorem monorepo_hint_iff (fs : FS) (root : Path) :
  wf_tree fs root ->
  exists sg,
    Signals.build_signals fs root = Some sg
    /\ (Signals.monorepo_hint sg = true
        <-> exists m1 m2,
              In m1 (manifest_files fs root) /\ In m2 (manifest_files fs root)
              /\ PathOps.parent m1 <> PathOps.parent m2)
    /\ (forall m, manifest_files fs root = [m] -> Signals.monorepo_hint sg = false).
Proof.
  intros Hwf.
  assert (Hfiles : incl (Signals._iter_files fs root) (rglob fs root)).
  { intros q Hq. unfold Signals._iter_files in Hq. now apply filter_In in Hq. }
  assert (Hman : incl (manifest_files fs root) (rglob fs root)).
  { intros q Hq. unfold manifest_files in Hq. apply filter_In in Hq.
    now apply Hfiles. }
  unfold Signals.build_signals, Signals.signals_of.
  rewrite (near_root_scan_filter fs) by exact Hfiles. cbn [bind].
  unfold Signals.anywhere_scan, Signals.manifest_scan.
  rewrite (mapM_relposix_rglob fs)
    by (intros q Hq; apply filter_In in Hq; now apply Hfiles).
  cbn [bind]. fold (manifest_files fs root).
  rewrite (mapM_relposix_rglob fs) by exact Hman. cbn [bind].
  eexists. split; [ reflexivity | ]. cbn [Signals.monorepo_hint].
  assert (Hiff : Signals.monorepo_of (map (relstr root) (manifest_files fs root)) = true
                 <-> exists m1 m2,
                       In m1 (manifest_files fs root) /\ In m2 (manifest_files fs root)
                       /\ PathOps.parent m1 <> PathOps.parent m2).
  { unfold Signals.monorepo_of. rewrite set_len_two, map_map. split.
    - intros (x & y & Hx & Hy & Hne).
      apply in_map_iff in Hx, Hy.
      destruct Hx as (m1 & <- & H1). destruct Hy as (m2 & <- & H2).
      exists m1, m2. split; [ exact H1 | split; [ exact H2 | ] ].
      intros E. apply Hne. apply (parent_dir_same fs root); auto.
    - intros (m1 & m2 & H1 & H2 & Hne).
      exists (Signals.parent_dir (relstr root m1)), (Signals.parent_dir (relstr root m2)).
      split; [ apply in_map_iff; now exists m1 | ].
      split; [ apply in_map_iff; now exists m2 | ].
      intros E. apply Hne. apply (parent_dir_same fs root) in E; auto. }
  split; [ exact Hiff | ].
  intros m Hm.
  destruct (Signals.monorepo_of (map (relstr root) (manifest_files fs root))) eqn:E;
    [ | reflexivity ].
  destruct (proj1 Hiff eq_refl) as (m1 & m2 & H1 & H2 & Hne).
  rewrite Hm in H1, H2. destruct H1 as [<- | []], H2 as [<- | []]. congruence.
Qed.

(** ** Set iteration orders *)

Lemma order_first_added_enumerates : set_iteration Py.order_first_added.
Proof.
  intros adds. unfold Py.order_first_added. split.
  - apply NoDup_rev, NoDup_nodup.
  - intros x. rewrite <- in_rev, nodup_In, <- in_rev. tauto.
Qed.

Lemma order_last_added_enumerates : set_iteration Py.order_last_added.
Proof.
  intros adds. unfold Py.order_last_added. split.
  - apply NoDup_nodup.
  - intros x. rewrite nodup_In, <- in_rev. tauto.
Qed.

(** ** Scenarios *)

(** C3, failing input.  With a Makefile listed before the README, the pinned
    tier and the final selection both start with the Makefile: the README
    step leaves a README that the scan already pinned where it is. *)
Theorem readme_not_moved_to_front (set_order : list string -> list string) :
  pinned_tier readme_fs demo_root
  = Some [demo_root ++ ["Makefile"]; demo_root ++ ["README.md"]]
  /\ pick_important_files set_order readme_fs demo_root 40
     = Some [demo_root ++ ["Makefile"]; demo_root ++ ["README.md"]]
  /\ exists_ readme_fs (demo_root ++ ["README.md"]) = true.
Proof. vm_compute. auto. Qed.

(** C4, counterexample.  [pkg/utils.py] imports [lib.utils]; both files have
    the stem [utils], so the file is one of its own two resolved targets.
    Its outbound count is 2, while it has 1 resolved target other than
    itself. *)
Lemma outbound_counts_own_file :
  exists inbound outbound,
    _collect_import_centrality Py.order_first_added utils_fs demo_root 250
    = Some (inbound, outbound)
    /\ In (demo_root ++ ["pkg"; "utils.py"]) (scan_candidates utils_fs demo_root 250)
    /\ has_text utils_fs (demo_root ++ ["pkg"; "utils.py"]) = true
    /\ Py.counter_get "pkg/utils.py" outbound = 2%Z
    /\ Py.set_len (refs_to_others utils_fs demo_root (demo_root ++ ["pkg"; "utils.py"]))
       = 1%Z.
Proof.
  eexists _, _. split; [ vm_compute; reflexivity | ].
  split; [ vm_compute; auto | ].
  repeat split; vm_compute; reflexivity.
Qed.

(** C6, counterexample.  [d40/main.py] is above the size ceiling and is in
    the entrypoint tier, behind forty other entry files: it is not in the
    final selection of at most forty files. *)
Lemma oversized_entry_file_cut_off :
  fs_stat many_fs (demo_root ++ ["d40"; "main.py"]) = Some (mkStat true 400000)
  /\ In (demo_root ++ ["d40"; "main.py"]) (entry_tier many_fs demo_root)
  /\ exists picked,
       pick_important_files Py.order_first_added many_fs demo_root 40 = Some picked
       /\ ~ In (demo_root ++ ["d40"; "main.py"]) picked.
Proof.
  split; [ vm_compute; reflexivity | ].
  split; [ apply path_mem_in; vm_compute; reflexivity | ].
  eexists. split; [ vm_compute; reflexivity | ].
  intros H. apply path_mem_in in H. vm_compute in H. discriminate H.
Qed.


(** ** Re-running the pipeline *)

Lemma mapM_ext {A B : Type} (f g : A -> option B) (l : list A) :
  (forall a, f a = g a) -> Py.mapM f l = Py.mapM g l.
Proof.
  intros H. induction l as [ | a l IH]; simpl; [ reflexivity | ].
  now rewrite H, IH.
Qed.

Section Rerun.
Variables (o1 o2 : list string -> list string) (fs1 fs2 : FS).
Hypothesis same_fs : same_snapshot fs1 fs2.
Hypothesis same_sets : same_order o1 o2.

Lemma rglob_entries_same (p : Path) : fs_rglob fs1 p = fs_rglob fs2 p.
Proof. apply same_fs. Qed.

Lemma stat_same (p : Path) : fs_stat fs1 p = fs_stat fs2 p.
Proof. apply same_fs. Qed.

Lemma read_text_same (p : Path) : fs_read_text fs1 p = fs_read_text fs2 p.
Proof. apply same_fs. Qed.

Lemma resolve_same (p : Path) : fs_resolve fs1 p = fs_resolve fs2 p.
Proof. apply same_fs. Qed.

Lemma is_file_same (p : Path) : is_file fs1 p = is_file fs2 p.
Proof. unfold is_file. now rewrite stat_same. Qed.

Lemma exists_same (p : Path) : exists_ fs1 p = exists_ fs2 p.
Proof. unfold exists_. now rewrite stat_same. Qed.

Lemma rglob_same (root : Path) : rglob fs1 root = rglob fs2 root.
Proof. unfold rglob. now rewrite rglob_entries_same. Qed.

Lemma iter_repo_files_same (root : Path) :
  iter_repo_files fs1 root = iter_repo_files fs2 root.
Proof.
  unfold iter_repo_files. rewrite rglob_same. apply filter_ext.
  intros p. now rewrite is_file_same.
Qed.

Lemma iter_files_same (root : Path) :
  Signals._iter_files fs1 root = Signals._iter_files fs2 root.
Proof.
  unfold Signals._iter_files. rewrite rglob_same. apply filter_ext.
  intros p. now rewrite is_file_same.
Qed.

Lemma safe_read_text_same (p : Path) (n : Z) :
  _safe_read_text fs1 p n = _safe_read_text fs2 p n.
Proof. unfold _safe_read_text. now rewrite read_text_same. Qed.

Lemma scan_candidates_same (root : Path) (n : Z) :
  scan_candidates fs1 root n = scan_candidates fs2 root n.
Proof.
  unfold scan_candidates. rewrite iter_repo_files_same. f_equal.
  apply sorted_ext_in. intros x y _ _. unfold size_key. now rewrite !stat_same.
Qed.

Lemma update_counters_same (src_rel : string) (refs : list string)
    (acc : Py.Counter * Py.Counter) :
  update_counters o1 src_rel refs acc = update_counters o2 src_rel refs acc.
Proof. unfold update_counters. now rewrite (same_sets refs). Qed.

Lemma scan_sources_same (root : Path) (idx : list (string * list Path))
    (cs : list Path) :
  forall acc,
  scan_sources o1 fs1 root idx cs acc = scan_sources o2 fs2 root idx cs acc.
Proof.
  induction cs as [ | src cs IH]; intros acc; [ reflexivity | ].
  cbn [scan_sources]. unfold scan_source.
  rewrite safe_read_text_same.
  destruct (String.eqb (_safe_read_text fs2 src 80000) EmptyString);
    cbn [bind]; [ apply IH | ].
  destruct (relposix root src); cbn [bind]; [ | reflexivity ].
  destruct (collect_refs root idx _); cbn [bind]; [ | reflexivity ].
  rewrite update_counters_same. apply IH.
Qed.

Lemma collect_import_centrality_same (root : Path) (n : Z) :
  _collect_import_centrality o1 fs1 root n = _collect_import_centrality o2 fs2 root n.
Proof.
  unfold _collect_import_centrality, _build_basename_index.
  rewrite iter_repo_files_same, scan_candidates_same. apply scan_sources_same.
Qed.

Lemma pin_readmes_same (root : Path) (pinned : list Path) :
  pin_readmes fs1 root pinned = pin_readmes fs2 root pinned.
Proof.
  unfold pin_readmes. revert pinned.
  induction README_NAMES as [ | rn names IH]; intros pinned; [ reflexivity | ].
  cbn [fold_left]. rewrite exists_same. apply IH.
Qed.

Lemma central_scan_same (root : Path) (inbound : Py.Counter) :
  central_scan fs1 root inbound = central_scan fs2 root inbound.
Proof.
  unfold central_scan. apply flat_map_ext. intros rs.
  now rewrite exists_same, is_file_same.
Qed.

Lemma heuristic_scan_same (root : Path) (outbound : Py.Counter) (files : list Path) :
  heuristic_scan fs1 root outbound files = heuristic_scan fs2 root outbound files.
Proof.
  induction files as [ | p files IH]; [ reflexivity | ].
  cbn [heuristic_scan]. unfold heuristic_entry. now rewrite stat_same, IH.
Qed.

Lemma add_unique_loop_same (items : list Path) :
  forall out seen,
  add_unique_loop fs1 out seen items = add_unique_loop fs2 out seen items.
Proof.
  induction items as [ | it items IH]; intros out seen; [ reflexivity | ].
  cbn [add_unique_loop]. unfold resolved_key. now rewrite resolve_same, !IH.
Qed.

Lemma add_unique_same (out items : list Path) :
  add_unique fs1 out items = add_unique fs2 out items.
Proof.
  unfold add_unique. rewrite (mapM_ext _ _ out resolve_same).
  destruct (Py.mapM (fs_resolve fs2) out); cbn [bind]; [ | reflexivity ].
  now rewrite add_unique_loop_same.
Qed.

Lemma merge_tiers_same (pinned entry central candidates : list Path) :
  merge_tiers fs1 pinned entry central candidates
  = merge_tiers fs2 pinned entry central candidates.
Proof.
  unfold merge_tiers. rewrite add_unique_same.
  destruct (add_unique fs2 [] pinned) as [p1 | ]; cbn [bind]; [ | reflexivity ].
  rewrite add_unique_same.
  destruct (add_unique fs2 p1 entry) as [p2 | ]; cbn [bind]; [ | reflexivity ].
  rewrite add_unique_same.
  destruct (add_unique fs2 p2 central) as [p3 | ]; cbn [bind]; [ | reflexivity ].
  apply add_unique_same.
Qed.

Lemma pick_important_files_same (root : Path) (max_files : Z) :
  pick_important_files o1 fs1 root max_files
  = pick_important_files o2 fs2 root max_files.
Proof.
  unfold pick_important_files, pinned_tier, entry_tier, heuristic_candidates.
  rewrite iter_repo_files_same.
  destruct (pinned_scan root (iter_repo_files fs2 root)) as [pinned | ];
    cbn [bind]; [ | reflexivity ].
  rewrite pin_readmes_same, collect_import_centrality_same.
  destruct (_collect_import_centrality o2 fs2 root 250) as [io | ];
    cbn [bind]; [ | reflexivity ].
  rewrite heuristic_scan_same, central_scan_same.
  destruct (heuristic_scan fs2 root (snd io) (iter_repo_files fs2 root));
    cbn [bind]; [ | reflexivity ].
  now rewrite merge_tiers_same.
Qed.

Lemma read_files_loop_same (root : Path) (files : list Path) (cap : Z) :
  forall total,
  read_files_loop fs1 root files total cap = read_files_loop fs2 root files total cap.
Proof.
  induction files as [ | p files IH]; intros total; [ reflexivity | ].
  cbn [read_files_loop]. rewrite read_text_same.
  destruct (PathOps.relative_to p root); cbn [bind]; [ | reflexivity ].
  destruct (fs_read_text fs2 p); [ | apply IH ].
  destruct (_ >? cap)%Z; [ reflexivity | now rewrite IH ].
Qed.

Lemma read_files_same (root : Path) (files : list Path) (cap : Z) :
  read_files fs1 root files cap = read_files fs2 root files cap.
Proof. unfold read_files. now rewrite read_files_loop_same. Qed.

Lemma pipeline_same (root : Path) : pipeline o1 fs1 root = pipeline o2 fs2 root.
Proof.
  unfold pipeline. rewrite pick_important_files_same.
  destruct (pick_important_files o2 fs2 root 40); cbn [bind]; [ | reflexivity ].
  now rewrite read_files_same.
Qed.

Lemma build_tree_same (root : Path) (n : Z) :
  build_tree fs1 root n = build_tree fs2 root n.
Proof. unfold build_tree. now rewrite iter_repo_files_same. Qed.

Lemma build_signals_same (root : Path) :
  Signals.build_signals fs1 root = Signals.build_signals fs2 root.
Proof. unfold Signals.build_signals. now rewrite iter_files_same. Qed.
End Rerun.

(** On a well-formed tree the pipeline returns a selection and its evidence
    whenever [resolve] does not raise. *)
Lemma pipeline_returns (set_order : list string -> list string) (fs : FS)
    (root : Path) :
  set_iteration set_order ->
  wf_tree fs root ->
  (forall p, fs_resolve fs p <> None) ->
  exists selection evidence, pipeline set_order fs root = Some (selection, evidence).
Proof.
  intros Hset Hwf Hres. unfold pipeline.
  destruct (pick_important_files_returns set_order fs root 40 Hres) as [picked Hpick].
  rewrite Hpick. cbn [bind].
  assert (Hunder : Forall (fun p => PathOps.relative_to p root <> None) picked).
  { apply Forall_forall. intros q Hq.
    destruct (picked_sources set_order fs root 40 picked q Hset Hwf Hpick Hq)
      as [Hfile | (rn & Hrn & ->)].
    - apply iter_repo_files_under in Hfile. destruct Hfile as (rel & -> & _).
      rewrite relative_to_app. discriminate.
    - unfold README_NAMES in Hrn. cbn [In] in Hrn.
      destruct Hrn as [<- | [<- | [<- | []]]];
        match goal with
        | |- PathOps.relative_to (PathOps.joinpath root (PathOps.parse ?rn)) root <> None =>
            change (PathOps.joinpath root (PathOps.parse rn)) with (root ++ [rn])
        end; rewrite relative_to_app; discriminate. }
  destruct (read_files_loop_spec fs root 180000 picked 0%Z Hunder)
    as (blocks & rest & tail & Hloop & _).
  unfold read_files. rewrite Hloop. cbn [bind]. eauto.
Qed.


(** ** Instances on the example trees *)

Lemma read_files_within_budget_witness :
  exists evidence,
    read_files demo_fs demo_root
      [demo_root ++ ["README.md"]; demo_root ++ ["Makefile"]] 60 = Some evidence
    /\ (Str.len evidence <= 60 + Str.len TRUNCATION_MARKER)%Z.
Proof.
  destruct (read_files_within_budget demo_fs demo_root
              [demo_root ++ ["README.md"]; demo_root ++ ["Makefile"]] 60)
    as (blocks & rest & tail & evidence & Hev & _ & _ & _ & _ & _ & Hlen).
  - lia.
  - repeat constructor; discriminate.
  - exists evidence. split; [ exact Hev | exact Hlen ].
Defined.

Lemma selection_has_no_duplicates_witness :
  exists picked,
    pick_important_files Py.order_first_added demo_fs demo_root 40 = Some picked
    /\ NoDup (map (resolved_key demo_fs) picked).
Proof.
  eexists. split; [ vm_compute; reflexivity | ].
  apply (selection_has_no_duplicates Py.order_first_added demo_fs demo_root 40).
  vm_compute. reflexivity.
Defined.

Lemma import_centrality_counts_witness :
  exists inbound outbound,
    _collect_import_centrality Py.order_first_added demo_fs demo_root 250
    = Some (inbound, outbound)
    /\ Py.counter_get (relstr demo_root (demo_root ++ ["app"; "caller.py"])) outbound
       = Py.set_len (source_refs demo_fs demo_root (demo_root ++ ["app"; "caller.py"])).
Proof.
  destruct (import_centrality_counts Py.order_first_added demo_fs demo_root 250)
    as (inbound & outbound & Hret & Hout & _).
  - exact order_first_added_enumerates.
  - vm_compute. reflexivity.
  - exists inbound, outbound. split; [ exact Hret | ].
    apply Hout; [ vm_compute; auto | vm_compute; reflexivity ].
Defined.


Lemma oversized_files_selection_witness :
  exists q,
    In q [demo_root ++ ["Makefile"]; demo_root ++ ["README.md"];
          demo_root ++ ["package.json"]; demo_root ++ ["svc"; "go.mod"];
          demo_root ++ ["app"; "main.py"]; demo_root ++ ["app"; "caller.py"];
          demo_root ++ ["app"; "routes.py"]]
    /\ resolved_key demo_fs q = resolved_key demo_fs (demo_root ++ ["app"; "main.py"]).
Proof.
  destruct (oversized_files_selection Py.order_first_added demo_fs demo_root 40
              (demo_root ++ ["app"; "main.py"]) (mkStat true 400000))
    as [_ Hsel].
  - vm_compute. reflexivity.
  - vm_compute. reflexivity.
  - apply (Hsel [demo_root ++ ["Makefile"]; demo_root ++ ["README.md"];
                 demo_root ++ ["package.json"]; demo_root ++ ["svc"; "go.mod"]]).
    + vm_compute. reflexivity.
    + vm_compute. reflexivity.
    + vm_compute. auto 10.
    + vm_compute. discriminate.
Defined.

Lemma monorepo_hint_iff_witness :
  exists sg,
    Signals.build_signals demo_fs demo_root = Some sg
    /\ (Signals.monorepo_hint sg = true
        <-> exists m1 m2,
              In m1 (manifest_files demo_fs demo_root)
              /\ In m2 (manifest_files demo_fs demo_root)
              /\ PathOps.parent m1 <> PathOps.parent m2).
Proof.
  destruct (monorepo_hint_iff demo_fs demo_root) as (sg & Hret & Hiff & _).
  - vm_compute. reflexivity.
  - exists sg. split; [ exact Hret | exact Hiff ].
Defined.


Lemma build_tree_listing_witness :
  exists rels all_lines,
    Py.mapM (relposix demo_root) (iter_repo_files demo_fs demo_root) = Some rels
    /\ Permutation all_lines rels
    /\ build_tree demo_fs demo_root 3
       = Some (Str.join Str.nl (firstn 3 all_lines ++ [TREE_MARKER])).
Proof.
  destruct (build_tree_listing demo_fs demo_root 3)
    as (rels & all_lines & Hrels & Hperm & _ & Htree & _).
  - vm_compute. reflexivity.
  - lia.
  - exists rels, all_lines. split; [ exact Hrels | ]. split; [ exact Hperm | ].
    rewrite Htree. vm_compute in Hrels. inv Hrels. reflexivity.
Defined.


(** * Further properties *)

(** ** The merge of the tiers *)

Lemma mapM_resolve_total (fs : FS) (out : list Path) :
  (forall p, fs_resolve fs p <> None) ->
  Py.mapM (fs_resolve fs) out = Some (map (resolved_key fs) out).
Proof.
  intros Hres. destruct (mapM_total (fs_resolve fs) out) as [seen Hseen]; [ auto | ].
  rewrite Hseen. f_equal. now apply mapM_resolve_keys.
Qed.

Lemma add_unique_loop_seen_ext (fs : FS) (items : list Path) :
  forall out seen1 seen2,
  (forall k, In k seen1 <-> In k seen2) ->
  add_unique_loop fs out seen1 items = add_unique_loop fs out seen2 items.
Proof.
  induction items as [ | it items IH]; intros out seen1 seen2 H; [ reflexivity | ].
  cbn [add_unique_loop].
  assert (Hmem : PathOps.mem (resolved_key fs it) seen1
                 = PathOps.mem (resolved_key fs it) seen2).
  { destruct (PathOps.mem (resolved_key fs it) seen1) eqn:E1,
             (PathOps.mem (resolved_key fs it) seen2) eqn:E2; try reflexivity.
    - apply path_mem_in, H, path_mem_in in E1. congruence.
    - apply path_mem_in, H, path_mem_in in E2. congruence. }
  rewrite Hmem. destruct (PathOps.mem (resolved_key fs it) seen2).
  - now apply IH.
  - apply IH. intros k. cbn [In]. rewrite H. tauto.
Qed.

Lemma add_unique_loop_app (fs : FS) (items1 items2 : list Path) :
  forall out seen,
  (forall k, In k seen <-> In k (map (resolved_key fs) out)) ->
  add_unique_loop fs out seen (items1 ++ items2)
  = add_unique_loop fs (add_unique_loop fs out seen items1)
      (map (resolved_key fs) (add_unique_loop fs out seen items1)) items2.
Proof.
  induction items1 as [ | it items1 IH]; intros out seen H.
  - cbn [app add_unique_loop]. now apply add_unique_loop_seen_ext.
  - cbn [app add_unique_loop].
    destruct (PathOps.mem (resolved_key fs it) seen); [ now apply IH | ].
    apply IH. intros k. rewrite map_app, in_app_iff. cbn [In map].
    rewrite H. tauto.
Qed.

Lemma add_unique_loop_nothing_new (fs : FS) (items : list Path) :
  forall out seen,
  (forall it, In it items -> In (resolved_key fs it) seen) ->
  add_unique_loop fs out seen items = out.
Proof.
  induction items as [ | it items IH]; intros out seen H; [ reflexivity | ].
  cbn [add_unique_loop].
  assert (Hit : PathOps.mem (resolved_key fs it) seen = true)
    by (apply path_mem_in, H; now left).
  rewrite Hit. apply IH. intros x Hx. apply H. now right.
Qed.

Lemma add_unique_loop_all_new (fs : FS) (items : list Path) :
  forall out seen,
  NoDup (map (resolved_key fs) items) ->
  (forall it, In it items -> ~ In (resolved_key fs it) seen) ->
  add_unique_loop fs out seen items = out ++ items.
Proof.
  induction items as [ | it items IH]; intros out seen Hnd Hnew.
  - cbn. now rewrite app_nil_r.
  - cbn [add_unique_loop]. cbn [map] in Hnd. inv Hnd.
    destruct (PathOps.mem (resolved_key fs it) seen) eqn:E.
    + apply path_mem_in in E. now destruct (Hnew it (or_introl eq_refl)).
    + rewrite IH; [ now rewrite <- app_assoc | exact H2 | ].
      intros x Hx [Hk | Hk].
      * apply H1. rewrite Hk. now apply in_map.
      * now apply (Hnew x (or_intror Hx)).
Qed.

(** X1.  When [resolve] does not raise, merging the four tiers one after
    the other gives the same list as one merge of their concatenation. *)
Theorem merge_tiers_is_one_merge (fs : FS)
    (pinned entry central candidates : list Path) :
  (forall p, fs_resolve fs p <> None) ->
  merge_tiers fs pinned entry central candidates
  = add_unique fs [] (pinned ++ entry ++ central ++ candidates).
Proof.
  intros Hres. unfold merge_tiers, add_unique.
  repeat (rewrite mapM_resolve_total by exact Hres; cbn [bind]).
  cbn [map].
  rewrite (add_unique_loop_app fs pinned) by (intros k; tauto).
  rewrite (add_unique_loop_app fs entry) by (intros k; tauto).
  rewrite (add_unique_loop_app fs central) by (intros k; tauto).
  reflexivity.
Qed.

(** X2.  Merging the same items a second time adds nothing: every item is
    already in the list under its resolved path. *)
Theorem add_unique_twice (fs : FS) (out items out' : list Path) :
  (forall p, fs_resolve fs p <> None) ->
  add_unique fs out items = Some out' ->
  add_unique fs out' items = Some out'.
Proof.
  intros Hres H. unfold add_unique.
  rewrite mapM_resolve_total by exact Hres. cbn [bind]. f_equal.
  apply add_unique_loop_nothing_new. intros it Hit.
  exact (add_unique_covers fs out items out' it H Hit).
Qed.

Lemma pin_readmes_exists (fs : FS) (root : Path) (pinned : list Path) (p : Path) :
  In p (pin_readmes fs root pinned) ->
  In p pinned
  \/ (exists_ fs p = true
      /\ exists rn, In rn README_NAMES
                    /\ p = PathOps.joinpath root (PathOps.parse rn)).
Proof.
  unfold pin_readmes. generalize README_NAMES as names.
  intros names. revert pinned.
  induction names as [ | rn names IH]; intros pinned H; simpl in H.
  - now left.
  - apply IH in H. destruct H as [H | (He & rn' & Hrn' & ->)].
    + destruct (exists_ fs (PathOps.joinpath root (PathOps.parse rn))) eqn:Ex;
        cbn [andb] in H; [ | now left ].
      destruct (negb _); [ | now left ].
      destruct H as [<- | H]; [ | now left ].
      right. split; [ exact Ex | ]. exists rn. split; [ now left | reflexivity ].
    + right. split; [ exact He | ]. exists rn'. split; [ now right | reflexivity ].
Qed.

(** X3.  The selection has at most [max_files] entries, and each entry is a
    regular file of the tree with no ignored name on its path, or an
    existing README at the root, which the pinning step puts in without
    these tests. *)
Theorem selection_is_bounded_and_clean (set_order : list string -> list string)
    (fs : FS) (root : Path) (max_files : Z) (picked : list Path) :
  set_iteration set_order ->
  wf_tree fs root ->
  (0 <= max_files)%Z ->
  pick_important_files set_order fs root max_files = Some picked ->
  (Z.of_nat (length picked) <= max_files)%Z
  /\ forall q, In q picked ->
       (is_file fs q = true
        /\ forall part, In part q -> Str.mem part IGNORE_DIRS = false)
       \/ (exists_ fs q = true
           /\ exists rn, In rn README_NAMES /\ q = root ++ [rn]).
Proof.
  intros Hset Hwf Hmax Hpick. split.
  - unfold pick_important_files in Hpick. do 4 bind_inv Hpick. inv Hpick.
    unfold Py.slice_to. destruct (Z.leb_spec 0 max_files); [ | lia ].
    rewrite length_firstn. lia.
  - intros q Hq.
    assert (Hfile : In q (iter_repo_files fs root) ->
              is_file fs q = true
              /\ forall part, In part q -> Str.mem part IGNORE_DIRS = false).
    { intros Hin. unfold iter_repo_files in Hin. apply filter_In in Hin.
      destruct Hin as [_ Hin]. apply andb_true_iff in Hin.
      destruct Hin as [Hign Hf]. split; [ exact Hf | ].
      intros part Hpart. apply negb_true_iff in Hign.
      destruct (Str.mem part IGNORE_DIRS) eqn:E; [ | reflexivity ].
      assert (existsb (fun part => Str.mem part IGNORE_DIRS) q = true)
        by (apply existsb_exists; now exists part).
      congruence. }
    unfold pick_important_files in Hpick. do 4 bind_inv Hpick. inv Hpick.
    apply slice_to_incl in Hq. destruct p as [inbound outbound]. cbn [fst snd] in *.
    destruct (merge_tiers_structure fs _ _ _ _ _ E2)
      as (front & later & -> & _ & _ & Hfront & Hlater).
    unfold pinned_tier in E. bind_inv E. inv E.
    apply in_app_or in Hq. destruct Hq as [Hq | Hq].
    + apply Hfront, in_app_or in Hq. destruct Hq as [Hq | Hq].
      * apply pin_readmes_exists in Hq.
        destruct Hq as [Hq | (Hex & rn & Hrn & ->)].
        -- left. apply Hfile. now apply (pinned_scan_incl root _ _ E3).
        -- right. split; [ exact Hex | ]. exists rn. split; [ exact Hrn | ].
           unfold README_NAMES in Hrn. cbn [In] in Hrn.
           destruct Hrn as [<- | [<- | [<- | []]]]; reflexivity.
      * left. apply Hfile. unfold entry_tier, entry_scan in Hq.
        now apply filter_In in Hq.
    + left. apply Hfile. apply Hlater, in_app_or in Hq. destruct Hq as [Hq | Hq].
      * now apply (central_scan_files set_order Hset fs root 250 inbound outbound).
      * now apply (heuristic_candidates_inv fs root outbound l0).
Qed.

(** X4.  Tier priority: when the pinned tier holds no file twice (by
    resolved path) and fits in [max_files], the selection starts with the
    pinned tier, in its order. *)
Theorem pinned_tier_comes_first (set_order : list string -> list string)
    (fs : FS) (root : Path) (max_files : Z) (pinned picked : list Path) :
  pinned_tier fs root = Some pinned ->
  pick_important_files set_order fs root max_files = Some picked ->
  NoDup (map (resolved_key fs) pinned) ->
  (Z.of_nat (length pinned) <= max_files)%Z ->
  exists rest, picked = pinned ++ rest.
Proof.
  intros Hpin Hpick Hnd Hlen. unfold pick_important_files in Hpick.
  rewrite Hpin in Hpick. cbn [bind] in Hpick. do 3 bind_inv Hpick. inv Hpick.
  assert (Hfirst : add_unique fs [] pinned = Some pinned).
  { unfold add_unique. cbn [Py.mapM bind]. f_equal.
    rewrite add_unique_loop_all_new; [ reflexivity | exact Hnd | auto ]. }
  unfold merge_tiers in E1. rewrite Hfirst in E1. cbn [bind] in E1.
  do 2 bind_inv E1.
  destruct (add_unique_extends fs _ _ _ E2) as (x2 & -> & _).
  destruct (add_unique_extends fs _ _ _ E3) as (x3 & -> & _).
  destruct (add_unique_extends fs _ _ _ E1) as (x4 & -> & _).
  rewrite <- !app_assoc. unfold Py.slice_to.
  destruct (Z.leb_spec 0 max_files); [ | lia ].
  rewrite firstn_app, firstn_all2 by lia. eauto.
Qed.

(** ** The scanned candidates *)

Lemma StronglySorted_app_order {A : Type} (R : A -> A -> Prop) (l1 l2 : list A) :
  StronglySorted R (l1 ++ l2) ->
  forall x y, In x l1 -> In y l2 -> R x y.
Proof.
  induction l1 as [ | a l1 IH]; intros H x y Hx Hy; [ destruct Hx | ].
  cbn [app] in H. inv H. destruct Hx as [<- | Hx].
  - rewrite Forall_forall in H3. apply H3, in_or_app. now right.
  - now apply IH.
Qed.

Lemma geb_total (a b : Z) : Py.geb a b = true \/ Py.geb b a = true.
Proof. unfold Py.geb. rewrite !Z.leb_le. lia. Qed.

Lemma geb_trans (a b c : Z) :
  Py.geb a b = true -> Py.geb b c = true -> Py.geb a c = true.
Proof. unfold Py.geb. rewrite !Z.leb_le. lia. Qed.

(** X5.  The import scan reads at most [max_files_to_scan] files, all of
    them code files of the tree, and the largest come first: a code file
    left out is no larger than any file that is scanned. *)
Theorem scan_candidates_largest_first (fs : FS) (root : Path)
    (max_files_to_scan : Z) :
  (0 <= max_files_to_scan)%Z ->
  (Z.of_nat (length (scan_candidates fs root max_files_to_scan))
   <= max_files_to_scan)%Z
  /\ (forall p, In p (scan_candidates fs root max_files_to_scan) ->
        In p (iter_repo_files fs root)
        /\ Str.mem (Str.lower (PathOps.suffix p)) CODE_SUFFIXES = true)
  /\ (forall p q,
        In p (scan_candidates fs root max_files_to_scan) ->
        In q (iter_repo_files fs root) ->
        Str.mem (Str.lower (PathOps.suffix q)) CODE_SUFFIXES = true ->
        ~ In q (scan_candidates fs root max_files_to_scan) ->
        (size_key fs q <= size_key fs p)%Z).
Proof.
  intros Hn. unfold scan_candidates, Py.slice_to.
  destruct (Z.leb_spec 0 max_files_to_scan); [ | lia ].
  set (code := filter (fun p => Str.mem (Str.lower (PathOps.suffix p)) CODE_SUFFIXES)
                      (iter_repo_files fs root)).
  set (L := Py.sorted (size_key fs) Py.geb code).
  split; [ rewrite length_firstn; lia | ].
  split.
  - intros p Hp. apply in_firstn in Hp. apply sorted_in in Hp.
    now apply filter_In in Hp.
  - intros p q Hp Hq Hcode Hout.
    assert (HqL : In q L) by (apply sorted_in; apply filter_In; now split).
    rewrite <- (firstn_skipn (Z.to_nat max_files_to_scan) L) in HqL.
    apply in_app_or in HqL. destruct HqL as [HqL | HqL]; [ contradiction | ].
    pose proof (sorted_sorted (size_key fs) Py.geb geb_total geb_trans code) as Hs.
    fold L in Hs. rewrite <- (firstn_skipn (Z.to_nat max_files_to_scan) L) in Hs.
    pose proof (StronglySorted_app_order _ _ _ Hs p q Hp HqL) as Hpq.
    cbv beta in Hpq. unfold Py.geb in Hpq. now apply Z.leb_le in Hpq.
Qed.

(** ** The inbound counter *)

Lemma inbound_fold_counts (src_rel : string) (l : list string) :
  forall inbound : Py.Counter,
  (forall k, In k (map fst inbound) -> (1 <= Py.counter_get k inbound)%Z) ->
  (forall k, (0 <= Py.counter_get k inbound)%Z) ->
  let inbound' :=
    fold_left (fun inb tgt_rel =>
                 if String.eqb tgt_rel src_rel then inb
                 else Py.counter_add tgt_rel 1 inb) l inbound in
  (forall k, In k (map fst inbound') -> (1 <= Py.counter_get k inbound')%Z)
  /\ (forall k, (0 <= Py.counter_get k inbound')%Z).
Proof.
  induction l as [ | t l IH]; intros inbound Hpos Hnn; cbn [fold_left].
  - split; assumption.
  - apply IH.
    + destruct (String.eqb t src_rel); [ exact Hpos | ].
      intros k Hk. rewrite counter_get_add.
      apply counter_add_keys in Hk. specialize (Hnn k).
      destruct Hk as [-> | Hk].
      * rewrite String.eqb_refl. lia.
      * specialize (Hpos k Hk). destruct (String.eqb k t); lia.
    + destruct (String.eqb t src_rel); [ exact Hnn | ].
      intros k. rewrite counter_get_add. specialize (Hnn k).
      destruct (String.eqb k t); lia.
Qed.

Lemma scan_fold_counts (set_order : list string -> list string) (fs : FS)
    (root : Path) (cs : list Path) :
  forall acc,
  (forall k, In k (map fst (fst acc)) -> (1 <= Py.counter_get k (fst acc))%Z) ->
  (forall k, (0 <= Py.counter_get k (fst acc))%Z) ->
  forall k,
  In k (map fst (fst (fold_left (scan_step set_order fs root) cs acc))) ->
  (1 <= Py.counter_get k (fst (fold_left (scan_step set_order fs root) cs acc)))%Z.
Proof.
  induction cs as [ | src cs IH]; intros acc Hpos Hnn k Hk; cbn [fold_left] in *.
  - now apply Hpos.
  - apply IH; [ | | exact Hk ];
      unfold scan_step; destruct (has_text fs src); try assumption;
      unfold update_counters;
      destruct (source_refs fs root src) as [ | r refs]; try assumption;
      cbn [fst]; now apply inbound_fold_counts.
Qed.

(** X6.  Every entry of the inbound counter is the relative path of a file
    of the tree, and its count is at least one and at most the number of
    scanned files: the centrality tier ranks only files some other scanned
    file refers to. *)
Theorem inbound_entries (set_order : list string -> list string) (fs : FS)
    (root : Path) (max_files_to_scan : Z) (inbound outbound : Py.Counter)
    (k : string) :
  set_iteration set_order ->
  _collect_import_centrality set_order fs root max_files_to_scan
  = Some (inbound, outbound) ->
  In k (map fst inbound) ->
  (1 <= Py.counter_get k inbound
   <= Z.of_nat (length (scan_candidates fs root max_files_to_scan)))%Z
  /\ exists tgt, In tgt (iter_repo_files fs root) /\ k = relstr root tgt.
Proof.
  intros Hset Hc Hk. split.
  - pose proof Hc as Hfold. unfold _collect_import_centrality in Hfold.
    rewrite scan_sources_fold in Hfold by apply scan_candidates_incl.
    injection Hfold as Hfold.
    assert (Hin : inbound = fst (fold_left (scan_step set_order fs root)
                                   (scan_candidates fs root max_files_to_scan)
                                   ([], []))) by now rewrite Hfold.
    split.
    + rewrite Hin. apply scan_fold_counts.
      * intros k' [].
      * intros k'. cbn. lia.
      * now rewrite <- Hin.
    + rewrite Hin, (scan_fold_inbound set_order Hset). cbn [fst Py.counter_get].
      pose proof (filter_length_le
                    (fun src => references fs root src k)
                    (scan_candidates fs root max_files_to_scan)).
      lia.
  - exact (inbound_keys_files set_order Hset fs root max_files_to_scan
             inbound outbound k Hc Hk).
Qed.

(** ** Basenames have no dot *)

Lemma split_segments_free (c : ascii) (s : string) :
  Forall (fun seg => Str.count c seg = 0%Z) (Str.split c s).
Proof.
  induction s as [ | d s IH]; cbn [Str.split].
  - repeat constructor.
  - destruct (Ascii.eqb c d) eqn:E.
    + constructor; [ reflexivity | exact IH ].
    + destruct (Str.split c s) as [ | w ws]; inv IH.
      * repeat constructor. cbn [Str.count]. now rewrite E.
      * constructor; [ | assumption ]. cbn [Str.count]. rewrite E. lia.
Qed.

Lemma last_segment_free (c : ascii) (s : string) :
  Str.count c (last_segment c s) = 0%Z.
Proof.
  unfold last_segment. pose proof (split_segments_free c s) as H.
  induction (Str.split c s) as [ | w ws IH]; [ reflexivity | ].
  inv H. destruct ws; [ assumption | now apply IH ].
Qed.

Lemma first_segment_free (c : ascii) (s : string) :
  Str.count c (first_segment c s) = 0%Z.
Proof.
  unfold first_segment. pose proof (split_segments_free c s) as H.
  destruct (Str.split c s); [ reflexivity | now inv H ].
Qed.

Lemma lower_char_dot (c : ascii) :
  Ascii.eqb "."%char (Str.lower_char c) = Ascii.eqb "."%char c.
Proof.
  destruct c as [[|] [|] [|] [|] [|] [|] [|] [|]]; vm_compute; reflexivity.
Qed.

Lemma count_dot_lower (s : string) :
  Str.count "."%char (Str.lower s) = Str.count "."%char s.
Proof.
  induction s as [ | c s IH]; [ reflexivity | ].
  cbn [Str.lower Str.count]. now rewrite lower_char_dot, IH.
Qed.

Lemma import_bases_dot_free (suf text base : string) :
  In base (import_bases suf text) -> Str.count "."%char base = 0%Z.
Proof.
  unfold import_bases.
  destruct (String.eqb suf ".py").
  - unfold py_bases. intros H. apply in_flat_map in H. destruct H as (m & _ & H).
    destruct (String.eqb _ EmptyString); [ destruct H | ].
    destruct H as [<- | []]. rewrite count_dot_lower. apply last_segment_free.
  - destruct (Str.mem suf [".js"; ".ts"; ".tsx"; ".jsx"]).
    + unfold js_bases. intros H. apply in_app_or in H.
      destruct H as [H | H]; apply in_map_iff in H; destruct H as (m & <- & _).
      * destruct (Str.startswith "." _); rewrite count_dot_lower;
          apply first_segment_free.
      * rewrite count_dot_lower. apply first_segment_free.
    + destruct (String.eqb suf ".go"); [ | intros [] ].
      unfold go_bases. intros H. apply in_map_iff in H. destruct H as (m & <- & _).
      rewrite count_dot_lower. apply first_segment_free.
Qed.

(** X7.  Import tokens are looked up by a basename without a dot, so a file
    whose stem contains a dot ([app.component.ts], [jquery.min.js]) is never
    a resolved target: its inbound count stays zero. *)
Theorem dotted_stem_never_credited (set_order : list string -> list string)
    (fs : FS) (root : Path) (max_files_to_scan : Z)
    (inbound outbound : Py.Counter) (p : Path) :
  set_iteration set_order ->
  wf_tree fs root ->
  In p (iter_repo_files fs root) ->
  (0 < Str.count "."%char (PathOps.stem p))%Z ->
  _collect_import_centrality set_order fs root max_files_to_scan
  = Some (inbound, outbound) ->
  (forall src, ~ In p (resolved_targets fs root src))
  /\ Py.counter_get (relstr root p) inbound = 0%Z.
Proof.
  intros Hset Hwf Hp Hdot Hc.
  assert (Hnot : forall src, ~ In p (resolved_targets fs root src)).
  { intros src Hin. unfold resolved_targets in Hin. apply in_flat_map in Hin.
    destruct Hin as (base & Hbase & Hin). rewrite basename_index_get in Hin.
    apply filter_In in Hin. destruct Hin as [_ Hin].
    apply String.eqb_eq in Hin. apply import_bases_dot_free in Hbase.
    rewrite Hin, count_dot_lower in Hbase. lia. }
  split; [ exact Hnot | ].
  unfold _collect_import_centrality in Hc.
  rewrite scan_sources_fold in Hc by apply scan_candidates_incl.
  injection Hc as Hc.
  replace inbound with (fst (fold_left (scan_step set_order fs root)
                               (scan_candidates fs root max_files_to_scan) ([], [])))
    by now rewrite Hc.
  rewrite (scan_fold_inbound set_order Hset). cbn [fst Py.counter_get].
  rewrite (proj2 (length_zero_iff_nil _)); [ reflexivity | ].
  clear Hc.
  induction (scan_candidates fs root max_files_to_scan) as [ | src cs IH];
    [ reflexivity | ].
  cbn [filter].
  assert (Href : references fs root src (relstr root p) = false).
  { unfold references.
    destruct (Str.mem (relstr root p) (source_refs fs root src)) eqn:E;
      [ | now rewrite andb_false_r ].
    exfalso. apply str_mem_in in E. unfold source_refs in E.
    apply in_map_iff in E. destruct E as (t & Et & Ht).
    apply (relstr_injective fs root) in Et;
      [ | exact Hwf | now apply (resolved_targets_files fs root src) | exact Hp ].
    subst t. exact (Hnot src Ht). }
  rewrite Href. exact IH.
Qed.

(** ** More on the evidence *)

Lemma read_files_loop_readable (fs : FS) (root : Path) (cap : Z) (files : list Path) :
  forall total,
  Forall (fun p => PathOps.relative_to p root <> None) files ->
  read_files_loop fs root files total cap
  = read_files_loop fs root (filter (readable fs) files) total cap.
Proof.
  induction files as [ | p files IH]; intros total Hroot; [ reflexivity | ].
  inv Hroot. cbn [read_files_loop filter]. unfold readable at 1.
  destruct (PathOps.relative_to p root) as [rel | ] eqn:Erel; [ | congruence ].
  cbn [bind]. destruct (fs_read_text fs p) as [text | ] eqn:Etext.
  - cbn [read_files_loop]. rewrite Erel, Etext. cbn [bind].
    destruct (_ >? cap)%Z; [ reflexivity | ]. now rewrite IH.
  - now apply IH.
Qed.

(** X8.  Files that cannot be read are skipped without a trace: the
    evidence is the evidence of the readable files alone, and an unreadable
    file uses none of the budget. *)
Theorem read_files_skips_unreadable (fs : FS) (root : Path) (files : list Path)
    (cap : Z) :
  Forall (fun p => PathOps.relative_to p root <> None) files ->
  read_files fs root files cap
  = read_files fs root (filter (readable fs) files) cap.
Proof.
  intros Hroot. unfold read_files. now rewrite read_files_loop_readable.
Qed.

Lemma cat_len_app (l1 l2 : list string) :
  Str.len (Str.cat (l1 ++ l2)) = (Str.len (Str.cat l1) + Str.len (Str.cat l2))%Z.
Proof. now rewrite cat_app, len_append. Qed.

(** X9.  With a non-negative cap: when all the blocks together fit, the
    evidence is all of them and carries no marker; when they do not, the
    evidence is a proper run of leading blocks followed by the marker. *)
Theorem read_files_truncates_only_when_needed (fs : FS) (root : Path)
    (files : list Path) (cap : Z) :
  (0 <= cap)%Z ->
  Forall (fun p => PathOps.relative_to p root <> None) files ->
  ((Str.len (Str.cat (map render_block (readable_blocks fs root files))) <= cap)%Z ->
   read_files fs root files cap
   = Some (Str.cat (map render_block (readable_blocks fs root files))))
  /\ ((Str.len (Str.cat (map render_block (readable_blocks fs root files))) > cap)%Z ->
      exists blocks b rest,
        readable_blocks fs root files = blocks ++ b :: rest
        /\ read_files fs root files cap
           = Some (Str.cat (map render_block blocks) +++ TRUNCATION_MARKER)).
Proof.
  intros Hcap Hroot.
  destruct (read_files_loop_spec fs root cap files 0%Z Hroot)
    as (blocks & rest & tail & Hloop & Hread & Hfit & Htail).
  unfold read_files. rewrite Hloop. cbn [bind]. rewrite Hread.
  assert (Hsum : (Str.len (Str.cat (map render_block blocks)) <= cap)%Z).
  { destruct Hfit as [-> | Hfit]; [ | lia ].
    change (Str.len (Str.cat (map render_block []))) with 0%Z. lia. }
  destruct Htail as [(-> & ->) | (-> & b & rest' & -> & Hover)].
  - rewrite !app_nil_r. split; [ reflexivity | lia ].
  - rewrite map_app, cat_len_app. cbn [map Str.cat].
    rewrite (len_append (render_block b)).
    pose proof (len_nonneg (Str.cat (map render_block rest'))).
    split; [ lia | ]. intros _. exists blocks, b, rest'.
    split; [ reflexivity | ].
    now rewrite cat_app; cbn [Str.cat]; rewrite append_empty_r.
Qed.

(** ** The basename index and ignored roots *)

(** X10.  The basename index is looked up without regard to case: a
    basename gives the files of the tree whose lowercase stem it is, in
    traversal order, and every file of the tree is found under its own
    lowercase stem. *)
Theorem basename_index_lookup (fs : FS) (root : Path) :
  (forall base,
     Py.index_get base (_build_basename_index fs root)
     = files_with_stem fs root base)
  /\ (forall p, In p (iter_repo_files fs root) ->
        In p (Py.index_get (Str.lower (PathOps.stem p))
                (_build_basename_index fs root)))
  /\ (forall base p,
        In p (Py.index_get base (_build_basename_index fs root)) ->
        In p (iter_repo_files fs root) /\ Str.lower (PathOps.stem p) = base).
Proof.
  split; [ intros base; apply basename_index_get | ].
  split.
  - intros p Hp. rewrite basename_index_get. apply filter_In.
    split; [ exact Hp | apply String.eqb_refl ].
  - intros base p Hp. rewrite basename_index_get in Hp. apply filter_In in Hp.
    destruct Hp as [Hp E]. apply String.eqb_eq in E. now split.
Qed.

Lemma existsb_app_l {A : Type} (f : A -> bool) (l1 l2 : list A) :
  existsb f l1 = true -> existsb f (l1 ++ l2) = true.
Proof. intros H. rewrite existsb_app, H. reflexivity. Qed.

Lemma filter_none {A : Type} (f : A -> bool) (l : list A) :
  (forall a, In a l -> f a = false) -> filter f l = [].
Proof.
  induction l as [ | a l IH]; intros H; [ reflexivity | ].
  cbn [filter]. rewrite (H a (or_introl eq_refl)).
  apply IH. intros x Hx. apply H. now right.
Qed.

Lemma iter_repo_files_ignored_root (fs : FS) (root : Path) :
  existsb (fun part => Str.mem part IGNORE_DIRS) root = true ->
  iter_repo_files fs root = [].
Proof.
  intros H. unfold iter_repo_files, rglob. apply filter_none.
  intros p Hp. apply in_map_iff in Hp. destruct Hp as (rel & <- & _).
  now rewrite (existsb_app_l _ root rel H).
Qed.

(** X11.  The ignore test looks at every part of the full path, the root's
    own parts included: under a root with an ignored name on its path (a
    checkout below a [build] or [vendor] directory) no file is scanned, the
    tree listing is empty, the counters are empty, and only READMEs at the
    root can be selected. *)
Theorem ignored_root_hides_the_tree (set_order : list string -> list string)
    (fs : FS) (root : Path) :
  existsb (fun part => Str.mem part IGNORE_DIRS) root = true ->
  iter_repo_files fs root = []
  /\ (forall max_entries, build_tree fs root max_entries = Some EmptyString)
  /\ (forall n, _collect_import_centrality set_order fs root n = Some ([], []))
  /\ (forall max_files picked q,
        pick_important_files set_order fs root max_files = Some picked ->
        In q picked ->
        exists rn, In rn README_NAMES /\ q = root ++ [rn]).
Proof.
  intros Hroot. pose proof (iter_repo_files_ignored_root fs root Hroot) as Hnil.
  split; [ exact Hnil | ].
  split; [ intros n; unfold build_tree; now rewrite Hnil | ].
  assert (Hc : forall n, _collect_import_centrality set_order fs root n = Some ([], [])).
  { intros n. unfold _collect_import_centrality, scan_candidates, _build_basename_index.
    rewrite Hnil. cbn [filter Py.sorted fold_right fold_left].
    unfold Py.slice_to. destruct (0 <=? n)%Z; now rewrite firstn_nil. }
  split; [ exact Hc | ].
  intros max_files picked q Hpick Hq.
  unfold pick_important_files, pinned_tier, entry_tier, heuristic_candidates in Hpick.
  rewrite Hnil, Hc in Hpick.
  cbn [pinned_scan bind entry_scan filter heuristic_scan fst snd central_scan
       Py.most_common Py.most_common_all Py.sorted fold_right firstn flat_map map]
    in Hpick.
  bind_inv Hpick. inv Hpick. apply slice_to_incl in Hq.
  destruct (merge_tiers_structure fs _ _ _ _ _ E)
    as (front & later & -> & _ & _ & Hfront & Hlater).
  apply in_app_or in Hq. destruct Hq as [Hq | Hq].
  - apply Hfront in Hq. rewrite app_nil_r in Hq. apply pin_readmes_in in Hq.
    destruct Hq as [[] | (rn & Hrn & ->)]. exists rn. split; [ exact Hrn | ].
    unfold README_NAMES in Hrn. cbn [In] in Hrn.
    destruct Hrn as [<- | [<- | [<- | []]]]; reflexivity.
  - apply Hlater in Hq. destruct Hq.
Qed.

(** ** Counters and order-preserving removal of duplicates *)

Lemma counter_add_nodup (k : string) (n : Z) (c : Py.Counter) :
  NoDup (map fst c) -> NoDup (map fst (Py.counter_add k n c)).
Proof.
  induction c as [ | [k0 v] c IH]; intros H; cbn [Py.counter_add].
  - repeat constructor. intros [].
  - cbn [map fst] in H. inv H.
    destruct (String.eqb_spec k k0) as [-> | Hk]; cbn [map fst].
    + now constructor.
    + constructor; [ | now apply IH ].
      intros Hin. apply counter_add_keys in Hin. destruct Hin as [-> | Hin]; auto.
Qed.

Lemma counter_get_in (k : string) (v : Z) (c : Py.Counter) :
  NoDup (map fst c) -> In (k, v) c -> Py.counter_get k c = v.
Proof.
  induction c as [ | [k0 v0] c IH]; intros Hnd Hin; [ destruct Hin | ].
  cbn [map fst] in Hnd. inv Hnd. cbn [Py.counter_get].
  destruct Hin as [E | Hin].
  - inv E. now rewrite String.eqb_refl.
  - destruct (String.eqb_spec k k0) as [-> | Hk]; [ | now apply IH ].
    exfalso. apply H1. apply in_map_iff. now exists (k0, v).
Qed.

Lemma counter_get_absent (k : string) (c : Py.Counter) :
  ~ In k (map fst c) -> Py.counter_get k c = 0%Z.
Proof.
  induction c as [ | [k0 v0] c IH]; intros H; [ reflexivity | ].
  cbn [Py.counter_get]. cbn [map fst In] in H.
  destruct (String.eqb_spec k k0) as [-> | Hk]; [ tauto | ].
  apply IH. tauto.
Qed.

Lemma dedupe_in (l : list string) :
  forall seen x, In x (Py.dedupe seen l) <-> In x l /\ ~ In x seen.
Proof.
  induction l as [ | e l IH]; intros seen x; cbn [Py.dedupe].
  - cbn. tauto.
  - destruct (Str.mem e seen) eqn:E.
    + apply str_mem_in in E. rewrite IH. cbn [In]. split; [ tauto | ].
      intros [[<- | H] Hn]; tauto.
    + assert (Hn : ~ In e seen).
      { intros H. apply str_mem_in in H. congruence. }
      cbn [In]. rewrite IH. cbn [In]. split.
      * intros [<- | [H1 H2]]; tauto.
      * intros [[<- | H1] H2]; [ now left | ].
        destruct (string_dec e x) as [-> | Hne]; [ now left | right; tauto ].
Qed.

Lemma dedupe_nodup (l : list string) : forall seen, NoDup (Py.dedupe seen l).
Proof.
  induction l as [ | e l IH]; intros seen; cbn [Py.dedupe]; [ constructor | ].
  destruct (Str.mem e seen); [ apply IH | ].
  constructor; [ | apply IH ].
  intros H. apply dedupe_in in H. destruct H as [_ H]. apply H. now left.
Qed.

(** ** The language signals *)

Lemma lang_counts_fold (lang : string) (files : list Path) :
  forall counts,
  Py.counter_get lang
    (fold_left (fun counts p =>
                  match Signals.ext_lang (Str.lower (PathOps.suffix p)) Signals._EXT_LANG with
                  | Some l => Py.counter_add l 1 counts
                  | None => counts
                  end) files counts)
  = (Py.counter_get lang counts
     + Z.of_nat (length (filter (has_language lang) files)))%Z.
Proof.
  induction files as [ | p files IH]; intros counts; cbn [fold_left filter length];
    [ lia | ].
  rewrite IH. unfold has_language at 2, language_of.
  destruct (Signals.ext_lang _ _) as [l | ]; [ | lia ].
  rewrite counter_get_add. destruct (String.eqb lang l); cbn [length]; lia.
Qed.

Lemma lang_counts_invariant (files : list Path) :
  forall counts,
  NoDup (map fst counts) ->
  (forall k v, In (k, v) counts -> (1 <= v)%Z) ->
  let counts' :=
    fold_left (fun counts p =>
                 match Signals.ext_lang (Str.lower (PathOps.suffix p)) Signals._EXT_LANG with
                 | Some l => Py.counter_add l 1 counts
                 | None => counts
                 end) files counts in
  NoDup (map fst counts') /\ (forall k v, In (k, v) counts' -> (1 <= v)%Z).
Proof.
  induction files as [ | p files IH]; intros counts Hnd Hpos; cbn [fold_left].
  - now split.
  - destruct (Signals.ext_lang _ _) as [l | ]; [ | now apply IH ].
    apply IH; [ now apply counter_add_nodup | ].
    intros k v Hin.
    pose proof (counter_add_nodup l 1 counts Hnd) as Hnd'.
    pose proof (counter_get_in k v _ Hnd' Hin) as Hget.
    rewrite counter_get_add in Hget.
    assert (Hk : In k (map fst (Py.counter_add l 1 counts)))
      by (apply in_map_iff; now exists (k, v)).
    apply counter_add_keys in Hk.
    assert (Hold : (0 <= Py.counter_get k counts)%Z).
    { destruct (in_dec string_dec k (map fst counts)) as [Hi | Hi].
      - apply in_map_iff in Hi. destruct Hi as ([k' v'] & E & Hi). cbn in E. subst k'.
        rewrite (counter_get_in k v' counts Hnd Hi). specialize (Hpos k v' Hi). lia.
      - rewrite counter_get_absent by exact Hi. lia. }
    destruct Hk as [-> | Hk].
    + rewrite String.eqb_refl in Hget. lia.
    + apply in_map_iff in Hk. destruct Hk as ([k' v'] & E & Hi). cbn in E. subst k'.
      rewrite (counter_get_in k v' counts Hnd Hi) in Hget. specialize (Hpos k v' Hi).
      destruct (String.eqb k l); lia.
Qed.

Lemma lang_counts_get (files : list Path) (lang : string) :
  Py.counter_get lang (Signals.lang_counts files)
  = Z.of_nat (length (filter (has_language lang) files)).
Proof.
  unfold Signals.lang_counts. rewrite lang_counts_fold. cbn [Py.counter_get]. lia.
Qed.

Lemma build_signals_fields (fs : FS) (root : Path) (sg : Signals.signals) :
  Signals.build_signals fs root = Some sg ->
  Signals.language_counts sg = Signals.lang_counts (Signals._iter_files fs root)
  /\ Signals.language_rank sg
     = map fst (Py.most_common_all (Signals.language_counts sg))
  /\ Signals.primary_language sg = hd_error (Signals.language_rank sg).
Proof.
  unfold Signals.build_signals, Signals.signals_of. intros H. do 3 bind_inv H.
  inv H. cbn. auto.
Qed.

(** X12.  The count of a language is the number of scanned files whose
    lowercase extension maps to it; files with an unmapped or no extension
    count for nothing. *)
Theorem language_counts_count_files (fs : FS) (root : Path)
    (sg : Signals.signals) (lang : string) :
  Signals.build_signals fs root = Some sg ->
  Py.counter_get lang (Signals.language_counts sg)
  = Z.of_nat (length (filter (has_language lang) (Signals._iter_files fs root))).
Proof.
  intros H. apply build_signals_fields in H. destruct H as (-> & _).
  apply lang_counts_get.
Qed.

(** X13.  The primary language is a language with the highest count, and
    that count is at least one; there is no primary language exactly when
    no scanned file has a mapped extension. *)
Theorem primary_language_is_most_frequent (fs : FS) (root : Path)
    (sg : Signals.signals) :
  Signals.build_signals fs root = Some sg ->
  (forall lang, Signals.primary_language sg = Some lang ->
     (1 <= Py.counter_get lang (Signals.language_counts sg))%Z
     /\ forall other,
          (Py.counter_get other (Signals.language_counts sg)
           <= Py.counter_get lang (Signals.language_counts sg))%Z)
  /\ (Signals.primary_language sg = None
      <-> forall p, In p (Signals._iter_files fs root) -> language_of p = None).
Proof.
  intros Hsg. apply build_signals_fields in Hsg.
  destruct Hsg as (Hcounts & Hrank & Hprim).
  set (files := Signals._iter_files fs root) in *.
  set (counts := Signals.language_counts sg) in *.
  destruct (lang_counts_invariant files [] (NoDup_nil _)) as [Hnd Hpos];
    [ intros k v [] | ].
  fold (Signals.lang_counts files) in Hnd, Hpos. rewrite <- Hcounts in Hnd, Hpos.
  pose proof (sorted_sorted (@snd string Z) Py.geb geb_total geb_trans counts) as Hs.
  pose proof (sorted_in (@snd string Z) Py.geb counts) as Hin.
  fold (Py.most_common_all counts) in Hs, Hin.
  rewrite Hprim, Hrank. split.
  - intros lang Hlang.
    destruct (Py.most_common_all counts) as [ | [k v] rest] eqn:E; [ discriminate | ].
    cbn in Hlang. inv Hlang.
    assert (Hhead : In (lang, v) counts) by (apply Hin; now left).
    rewrite (counter_get_in lang v counts Hnd Hhead).
    split; [ now apply (Hpos lang v) | ].
    intros other.
    destruct (in_dec string_dec other (map fst counts)) as [Hi | Hi].
    + apply in_map_iff in Hi. destruct Hi as ([k' v'] & Ek & Hi). cbn in Ek. subst k'.
      rewrite (counter_get_in other v' counts Hnd Hi).
      apply Hin in Hi. destruct Hi as [Hi | Hi]; [ inv Hi; lia | ].
      inv Hs. rewrite Forall_forall in H2. specialize (H2 _ Hi).
      cbn in H2. unfold Py.geb in H2. now apply Z.leb_le in H2.
    + rewrite counter_get_absent by exact Hi. specialize (Hpos lang v Hhead). lia.
  - split.
    + intros Hnone p Hp.
      destruct (language_of p) as [l | ] eqn:El; [ exfalso | reflexivity ].
      assert (Hempty : counts = []).
      { destruct (Py.most_common_all counts) as [ | e rest] eqn:E; [ | discriminate ].
        destruct counts as [ | e c]; [ reflexivity | ].
        assert (In e []) by (apply Hin; now left). contradiction. }
      pose proof (lang_counts_get files l) as Hget.
      rewrite <- Hcounts, Hempty in Hget. cbn [Py.counter_get] in Hget.
      assert (In p (filter (has_language l) files)).
      { apply filter_In. split; [ exact Hp | ].
        unfold has_language. rewrite El. apply String.eqb_refl. }
      destruct (filter (has_language l) files); [ contradiction | ].
      cbn [length] in Hget. lia.
    + intros Hall.
      destruct (Py.most_common_all counts) as [ | [k v] rest] eqn:E; [ reflexivity | ].
      exfalso. assert (Hhead : In (k, v) counts) by (apply Hin; now left).
      pose proof (lang_counts_get files k) as Hget.
      rewrite <- Hcounts, (counter_get_in k v counts Hnd Hhead) in Hget.
      specialize (Hpos k v Hhead).
      rewrite filter_none in Hget; [ cbn [length] in Hget; lia | ].
      intros p Hp. unfold has_language. now rewrite (Hall p Hp).
Qed.

(** ** Entrypoints, manifests and routes *)

Lemma iter_files_rglob (fs : FS) (root : Path) :
  incl (Signals._iter_files fs root) (rglob fs root).
Proof.
  intros q Hq. unfold Signals._iter_files in Hq. now apply filter_In in Hq.
Qed.

(** X14.  The two entrypoint lists hold no path twice.  A path is a
    near-root entrypoint exactly when it is the relative path, with at most
    one separator, of a scanned file with a near-root name; it is an
    anywhere entrypoint exactly when it is the relative path of a scanned
    file with an entry filename, compared case-sensitively.  At most thirty
    manifest paths are reported. *)
Theorem entrypoints_are_distinct_and_near (fs : FS) (root : Path)
    (sg : Signals.signals) :
  Signals.build_signals fs root = Some sg ->
  NoDup (Signals.entrypoints_near_root sg)
  /\ NoDup (Signals.entrypoints_anywhere sg)
  /\ (forall e,
        In e (Signals.entrypoints_near_root sg)
        <-> exists p, In p (Signals._iter_files fs root) /\ relstr root p = e
                      /\ (Str.count "/"%char e <= 1)%Z
                      /\ Str.mem (PathOps.name p)
                           Signals._ENTRYPOINT_FILES_NEAR_ROOT = true)
  /\ (forall e,
        In e (Signals.entrypoints_anywhere sg)
        <-> exists p, In p (Signals._iter_files fs root) /\ relstr root p = e
                      /\ Str.mem (PathOps.name p)
                           Signals._ENTRYPOINT_FILES_ANYWHERE = true)
  /\ (length (Signals.manifest_paths sg) <= 30)%nat.
Proof.
  unfold Signals.build_signals, Signals.signals_of. intros H.
  pose proof (iter_files_rglob fs root) as Hfiles.
  rewrite (near_root_scan_filter fs) in H by exact Hfiles. cbn [bind] in H.
  unfold Signals.anywhere_scan, Signals.manifest_scan in H.
  rewrite (mapM_relposix_rglob fs) in H
    by (intros q Hq; apply filter_In in Hq; now apply Hfiles).
  cbn [bind] in H.
  rewrite (mapM_relposix_rglob fs) in H
    by (intros q Hq; apply filter_In in Hq; now apply Hfiles).
  cbn [bind] in H. injection H as Hsg. subst sg.
  cbn [Signals.entrypoints_near_root Signals.entrypoints_anywhere
       Signals.manifest_paths].
  split; [ apply dedupe_nodup | ].
  split; [ apply dedupe_nodup | ].
  split; [ | split ].
  - intros e. rewrite dedupe_in, in_map_iff. split.
    + intros [(p & <- & Hp) _]. apply filter_In in Hp. destruct Hp as [Hp Hc].
      apply andb_true_iff in Hc. destruct Hc as [Hd Hn]. apply Z.leb_le in Hd.
      exists p. auto.
    + intros (p & Hp & <- & Hd & Hn). split; [ | intros [] ].
      exists p. split; [ reflexivity | ]. apply filter_In. split; [ exact Hp | ].
      apply andb_true_iff. split; [ now apply Z.leb_le | exact Hn ].
  - intros e. rewrite dedupe_in, in_map_iff. split.
    + intros [(p & <- & Hp) _]. apply filter_In in Hp. destruct Hp as [Hp Hn].
      exists p. auto.
    + intros (p & Hp & <- & Hn). split; [ | intros [] ].
      exists p. split; [ reflexivity | ]. apply filter_In. now split.
  - exact (firstn_le_length 30
             (map (relstr root)
                (filter (fun p => Str.mem (PathOps.name p) Signals.MANIFEST_NAMES)
                        (Signals._iter_files fs root)))).
Qed.

(** X15.  The scanner of [signals.py] tests the root's own parts too, against
    its own ignore set: under a root with one of those names on its path
    every signal is empty. *)
Theorem ignored_root_empties_the_signals (fs : FS) (root : Path) :
  existsb (fun part => Str.mem part Signals._IGNORE_DIRS) root = true ->
  Signals._iter_files fs root = []
  /\ Signals.build_signals fs root = Some empty_signals.
Proof.
  intros H.
  assert (Hnil : Signals._iter_files fs root = []).
  { unfold Signals._iter_files, rglob. apply filter_none.
    intros p Hp. apply in_map_iff in Hp. destruct Hp as (rel & <- & _).
    rewrite (existsb_app_l _ root rel H). apply andb_false_r. }
  split; [ exact Hnil | ].
  unfold Signals.build_signals. rewrite Hnil. reflexivity.
Qed.

Section RouteSampleFacts.
Variable route_literals : string -> list string.

Lemma routes_of_text_shape (txt route : string) :
  In route (routes_of_text route_literals txt) ->
  Str.startswith "/" route = true /\ (Str.len route <= 60)%Z.
Proof.
  unfold routes_of_text. intros H. apply filter_In in H. destruct H as [_ H].
  apply andb_true_iff in H. destruct H as [Hs Hl]. apply Z.leb_le in Hl. now split.
Qed.

Lemma existing_file_inv (fs : FS) (root : Path) (rel : string) (fp : Path) :
  In fp (existing_file fs root rel) ->
  fp = PathOps.joinpath root (PathOps.parse rel) /\ is_file fs fp = true.
Proof.
  unfold existing_file. destruct (exists_ fs _ && is_file fs _) eqn:E;
    [ | intros [] ].
  intros [<- | []]. apply andb_true_iff in E. tauto.
Qed.

(** X16.  The route sample holds at most twenty strings, none twice; each
    starts with a slash, has at most sixty characters, and was read from one
    of the first six candidate files, which is a regular file named by an
    entrypoint with a [.py], [.js] or [.ts] suffix or by a fallback name. *)
Theorem routes_sample_is_bounded (fs : FS) (root : Path)
    (ep_root ep_any : list string) :
  (length (routes_sample route_literals fs root ep_root ep_any) <= 20)%nat
  /\ NoDup (routes_sample route_literals fs root ep_root ep_any)
  /\ forall route,
       In route (routes_sample route_literals fs root ep_root ep_any) ->
       Str.startswith "/" route = true
       /\ (Str.len route <= 60)%Z
       /\ exists fp txt rel,
            In fp (firstn 6 (route_candidates fs root ep_root ep_any))
            /\ fs_read_text fs fp = Some txt
            /\ In route (route_literals txt)
            /\ fp = PathOps.joinpath root (PathOps.parse rel)
            /\ is_file fs fp = true
            /\ ((In rel (ep_root ++ ep_any)
                 /\ existsb (fun suf => Str.endswith suf rel) ROUTE_CODE_SUFFIXES = true)
                \/ In rel ROUTE_FALLBACKS).
Proof.
  unfold routes_sample. split; [ apply firstn_le_length | ].
  split; [ apply NoDup_firstn, dedupe_nodup | ].
  intros route H. apply in_firstn in H. apply dedupe_in in H. destruct H as [H _].
  unfold collect_routes in H. apply in_flat_map in H. destruct H as (fp & Hfp & H).
  destruct (fs_read_text fs fp) as [txt | ] eqn:Etxt; [ | destruct H ].
  destruct (routes_of_text_shape txt route H) as [Hs Hl].
  split; [ exact Hs | ]. split; [ exact Hl | ].
  unfold routes_of_text in H. apply filter_In in H. destruct H as [Hlit _].
  pose proof (in_firstn _ _ _ Hfp) as Hcand. unfold route_candidates in Hcand.
  apply in_app_or in Hcand.
  destruct Hcand as [Hcand | Hcand]; apply in_flat_map in Hcand;
    destruct Hcand as (rel & Hrel & Hin).
  - destruct (existsb _ ROUTE_CODE_SUFFIXES) eqn:Esuf; [ | destruct Hin ].
    apply existing_file_inv in Hin. destruct Hin as [Hjoin Hfile].
    exists fp, txt, rel. repeat split; auto.
  - apply existing_file_inv in Hin. destruct Hin as [Hjoin Hfile].
    exists fp, txt, rel. repeat split; auto.
Qed.
End RouteSampleFacts.

(** ** The strict-mode sanitizers *)

(** X17.  The sanitized tech stack holds no entry twice and only entries of
    the allowed stack (the detected languages, the framework hints and the
    four web names).  An entry that says [html], whatever its case and
    surrounding blanks, stands for HTML, CSS and JavaScript; any other string
    is kept, stripped, exactly when it is allowed; values that are not
    strings are dropped. *)
Theorem sanitize_tech_stack_allowed (languages framework_hints : list string)
    (tech_stack : list value) :
  NoDup (sanitize_tech_stack languages framework_hints tech_stack)
  /\ (forall x, In x (sanitize_tech_stack languages framework_hints tech_stack) ->
        In x (allowed_stack languages framework_hints))
  /\ (forall x,
        In x (sanitize_tech_stack languages framework_hints tech_stack)
        <-> exists t,
              In (VStr t) tech_stack
              /\ ((Str.mem (Str.lower (Str.strip t)) HTML_ALIASES = true
                   /\ In x ["HTML"; "CSS"; "JavaScript"])
                  \/ (Str.mem (Str.lower (Str.strip t)) HTML_ALIASES = false
                      /\ x = Str.strip t
                      /\ In x (allowed_stack languages framework_hints)))).
Proof.
  unfold sanitize_tech_stack.
  set (allowed := allowed_stack languages framework_hints).
  assert (Hiff : forall x,
            In x (clean_tech_stack allowed tech_stack)
            <-> exists t,
                  In (VStr t) tech_stack
                  /\ ((Str.mem (Str.lower (Str.strip t)) HTML_ALIASES = true
                       /\ In x ["HTML"; "CSS"; "JavaScript"])
                      \/ (Str.mem (Str.lower (Str.strip t)) HTML_ALIASES = false
                          /\ x = Str.strip t /\ In x allowed))).
  { intros x. unfold clean_tech_stack. rewrite in_flat_map. split.
    - intros ([t | ] & Ht & Hx); [ | destruct Hx ]. exists t. split; [ exact Ht | ].
      destruct (Str.mem (Str.lower (Str.strip t)) HTML_ALIASES); [ now left | right ].
      destruct (Str.mem (Str.strip t) allowed) eqn:E; [ | destruct Hx ].
      destruct Hx as [<- | []]. apply str_mem_in in E. auto.
    - intros (t & Ht & [[Ha Hx] | (Ha & -> & Hx)]); exists (VStr t);
        (split; [ exact Ht | ]); rewrite Ha; [ exact Hx | ].
      apply str_mem_in in Hx. rewrite Hx. now left. }
  split; [ apply dedupe_nodup | ].
  split.
  - intros x Hx. apply dedupe_in in Hx. destruct Hx as [Hx _].
    apply Hiff in Hx. destruct Hx as (t & _ & [[_ Hx] | (_ & _ & Hx)]);
      [ | exact Hx ].
    unfold allowed, allowed_stack, WEB_STACK. rewrite !in_app_iff.
    right. right. cbn [In] in *. tauto.
  - intros x. rewrite dedupe_in, Hiff. cbn [In]. tauto.
Qed.

Lemma replacements_mention_nothing :
  mentions PAYMENT_WORDS (Str.lower NO_NEW_FEATURES) = false
  /\ mentions EMAIL_WORDS (Str.lower NO_NEW_FEATURES) = false
  /\ mentions PAYMENT_WORDS (Str.lower NO_NEW_INTEGRATIONS) = false
  /\ mentions EMAIL_WORDS (Str.lower NO_NEW_INTEGRATIONS) = false.
Proof. vm_compute. auto. Qed.

(** X18.  The sanitized improvements hold no entry twice.  Without payments
    evidence no entry mentions payment, stripe or paypal, and without email
    evidence none mentions email or smtp, in any letter case: such an entry
    is replaced by a fixed sentence.  An entry that mentions none of these is
    kept as it is. *)
Theorem sanitize_improvements_scrubs (has_payments has_email : bool)
    (imps : list value) :
  NoDup (sanitize_improvements has_payments has_email imps)
  /\ (forall s, In s (sanitize_improvements has_payments has_email imps) ->
        (has_payments = false -> mentions PAYMENT_WORDS (Str.lower s) = false)
        /\ (has_email = false -> mentions EMAIL_WORDS (Str.lower s) = false))
  /\ (forall s, In (VStr s) imps ->
        mentions PAYMENT_WORDS (Str.lower s) = false ->
        mentions EMAIL_WORDS (Str.lower s) = false ->
        In s (sanitize_improvements has_payments has_email imps)).
Proof.
  unfold sanitize_improvements.
  destruct replacements_mention_nothing as (Hfp & Hfe & Hip & Hie).
  split; [ apply dedupe_nodup | ].
  split.
  - intros s Hs. apply dedupe_in in Hs. destruct Hs as [Hs _].
    apply in_flat_map in Hs. destruct Hs as ([t | ] & _ & Hs); [ | destruct Hs ].
    destruct Hs as [<- | []]. unfold clean_improvement.
    destruct (mentions PAYMENT_WORDS (Str.lower t)) eqn:Ep,
             (mentions EMAIL_WORDS (Str.lower t)) eqn:Ee,
             has_payments, has_email; cbn [andb negb]; split; intros Hno;
      try discriminate; assumption.
  - intros s Hs Hp He. apply dedupe_in. split; [ | intros [] ].
    apply in_flat_map. exists (VStr s). split; [ exact Hs | ].
    unfold clean_improvement. rewrite Hp, He. now left.
Qed.

(** ** Extracting the JSON object *)

Lemma str_find_first (c : ascii) (pre rest : string) :
  Str.count c pre = 0%Z ->
  str_find c (pre +++ String c rest) = Some (String.length pre).
Proof.
  induction pre as [ | d pre IH]; intros H.
  - cbn. now rewrite Ascii.eqb_refl.
  - cbn [Str.count] in H. pose proof (count_nonneg c pre).
    cbn [String.append str_find String.length].
    destruct (Ascii.eqb c d); [ lia | ]. now rewrite IH by lia.
Qed.

Lemma str_find_none (c : ascii) (s : string) :
  Str.count c s = 0%Z -> str_find c s = None.
Proof.
  induction s as [ | d s IH]; intros H; [ reflexivity | ].
  cbn [Str.count] in H. pose proof (count_nonneg c s). cbn [str_find].
  destruct (Ascii.eqb c d); [ lia | ]. now rewrite IH by lia.
Qed.

Lemma rfind_none (c : ascii) (s : string) :
  Str.count c s = 0%Z -> Str.rfind c s = None.
Proof.
  induction s as [ | d s IH]; intros H; [ reflexivity | ].
  cbn [Str.count] in H. pose proof (count_nonneg c s). cbn [Str.rfind].
  destruct (Ascii.eqb c d); [ lia | ]. now rewrite IH by lia.
Qed.

Lemma rfind_last (c : ascii) (x post : string) :
  Str.count c post = 0%Z ->
  Str.rfind c (x +++ String c post) = Some (String.length x).
Proof.
  intros H. induction x as [ | d x IH].
  - cbn. now rewrite rfind_none, Ascii.eqb_refl.
  - cbn [String.append Str.rfind String.length]. now rewrite IH.
Qed.

Lemma drop_append (a b : string) : Str.drop (String.length a) (a +++ b) = b.
Proof. induction a as [ | c a IH]; [ now destruct b | exact IH ]. Qed.

Lemma take_append (a b : string) : Str.take (String.length a) (a +++ b) = a.
Proof.
  induction a as [ | c a IH]; [ now destruct b | ].
  cbn. now rewrite IH.
Qed.

Section ExtractJsonFacts.
Context {V : Type}.
Variable loads : string -> option V.

(** X19.  When the stripped reply is not JSON as a whole but wraps one
    braced span in prose, with no open brace before the span and no close
    brace after it, [_extract_json] parses exactly that span. *)
Theorem extract_json_takes_the_braced_span (text pre mid post : string) :
  Str.strip text = pre +++ String "{"%char (mid +++ String "}"%char post) ->
  Str.count "{"%char pre = 0%Z ->
  Str.count "}"%char post = 0%Z ->
  loads (Str.strip text) = None ->
  _extract_json loads text = loads (String "{"%char (mid +++ String "}"%char EmptyString)).
Proof.
  intros Hstrip Hpre Hpost Hwhole. unfold _extract_json. rewrite Hwhole, Hstrip.
  rewrite (str_find_first "{"%char pre _ Hpre).
  assert (Hre : pre +++ String "{"%char (mid +++ String "}"%char post)
                = (pre +++ String "{"%char mid) +++ String "}"%char post).
  { rewrite append_assoc. reflexivity. }
  rewrite Hre at 1. rewrite (rfind_last "}"%char _ post Hpost).
  rewrite length_append. cbn [String.length].
  destruct (Nat.leb_spec (String.length pre + S (String.length mid))
              (String.length pre)); [ lia | ].
  rewrite drop_append. f_equal.
  replace (String.length pre + S (String.length mid) + 1 - String.length pre)%nat
    with (String.length (String "{"%char (mid +++ String "}"%char EmptyString))).
  - change (String "{"%char (mid +++ String "}"%char post))
      with (String "{"%char ((mid +++ String "}"%char EmptyString) +++ post))
      || (replace (mid +++ String "}"%char post)
            with ((mid +++ String "}"%char EmptyString) +++ post)
            by (rewrite append_assoc; reflexivity)).
    exact (take_append (String "{"%char (mid +++ String "}"%char EmptyString)) post).
  - cbn [String.length]. rewrite length_append. cbn [String.length]. lia.
Qed.

End ExtractJsonFacts.

(** ** The ranked tiers *)

Lemma StronglySorted_weaken {A : Type} (R1 R2 : A -> A -> Prop) (l : list A) :
  (forall a b, R1 a b -> R2 a b) -> StronglySorted R1 l -> StronglySorted R2 l.
Proof.
  intros H. induction 1 as [ | a l Hl IH Ha]; constructor; [ exact IH | ].
  rewrite Forall_forall in *. intros b Hb. now apply H, Ha.
Qed.

Lemma heuristic_entry_score (fs : FS) (root : Path) (outbound : Py.Counter)
    (p : Path) (c : Z * Path) :
  heuristic_entry fs root outbound p = Some (Some c) ->
  (0 < fst c)%Z
  /\ exists rel st,
       PathOps.relative_to p root = Some rel
       /\ fs_stat fs p = Some st
       /\ fst c = (name_score rel (PathOps.name p) - Z.quot (st_size st) 12000
                   + (if (Py.counter_get (PathOps.str rel) outbound >=? 8)%Z
                      then 25 else 0))%Z.
Proof.
  unfold heuristic_entry, relposix. intros H.
  destruct (PathOps.relative_to p root) as [rel | ]; [ | discriminate ].
  cbn [bind] in H.
  destruct (fs_stat fs p) as [st | ]; [ | discriminate ].
  destruct (st_size st >? SIZE_CEILING)%Z; [ discriminate | ].
  destruct (Py.counter_get (PathOps.str rel) outbound >=? 8)%Z eqn:Eb;
    match type of H with
    | Some (if (?s >? 0)%Z then _ else _) = _ =>
        destruct (Z.gtb_spec s 0); inv H
    end; (split; [ cbn [fst]; lia | ]); exists rel, st; rewrite Eb; cbn [fst];
    (split; [ reflexivity | split; [ reflexivity | lia ] ]).
Qed.

Lemma heuristic_scan_scores (fs : FS) (root : Path) (outbound : Py.Counter)
    (files : list Path) (cands : list (Z * Path)) :
  heuristic_scan fs root outbound files = Some cands ->
  forall c, In c cands ->
    heuristic_entry fs root outbound (snd c) = Some (Some c).
Proof.
  revert cands. induction files as [ | p files IH]; intros cands H c Hc; simpl in H.
  - inv H. destruct Hc.
  - do 2 bind_inv H. inv H. specialize (IH l eq_refl).
    destruct o as [c0 | ]; [ | now apply IH ].
    destruct Hc as [<- | Hc]; [ | now apply IH ].
    pose proof (heuristic_entry_inv fs root outbound p c0 E) as [-> _]. exact E.
Qed.

(** X20.  The heuristic candidates come in descending order of score; every
    score is positive and is the name score of the file, less one for each
    full 12,000 bytes of its size, plus 25 when the file has eight or more
    outbound references. *)
Theorem heuristic_candidates_ranked (fs : FS) (root : Path)
    (outbound : Py.Counter) (cands : list (Z * Path)) :
  heuristic_candidates fs root outbound = Some cands ->
  StronglySorted (fun a b => (fst b <= fst a)%Z) cands
  /\ forall c, In c cands ->
       (0 < fst c)%Z
       /\ In (snd c) (iter_repo_files fs root)
       /\ exists rel st,
            PathOps.relative_to (snd c) root = Some rel
            /\ fs_stat fs (snd c) = Some st
            /\ (st_size st <= SIZE_CEILING)%Z
            /\ fst c = (name_score rel (PathOps.name (snd c))
                        - Z.quot (st_size st) 12000
                        + (if (Py.counter_get (PathOps.str rel) outbound >=? 8)%Z
                           then 25 else 0))%Z.
Proof.
  unfold heuristic_candidates. intros H. bind_inv H. inv H. split.
  - pose proof (sorted_sorted (@fst Z Path) Py.geb geb_total geb_trans l) as Hs.
    eapply StronglySorted_weaken; [ | exact Hs ].
    intros a b Hab. cbv beta in Hab. unfold Py.geb in Hab. now apply Z.leb_le.
  - intros c Hc. apply sorted_in in Hc.
    pose proof (heuristic_scan_scores fs root outbound _ _ E c Hc) as He.
    destruct (heuristic_scan_inv fs root outbound _ _ E c Hc)
      as (Hin & st' & Hst' & Hle).
    destruct (heuristic_entry_score fs root outbound _ _ He)
      as (Hpos & rel & st & Hrel & Hst & Hscore).
    split; [ exact Hpos | ]. split; [ exact Hin | ].
    exists rel, st. rewrite Hst in Hst'. inv Hst'. auto.
Qed.

Lemma StronglySorted_firstn {A : Type} (R : A -> A -> Prop) (n : nat) (l : list A) :
  StronglySorted R l -> StronglySorted R (firstn n l).
Proof.
  revert n. induction l as [ | a l IH]; intros [ | n] H; cbn [firstn];
    try constructor.
  - apply IH. now inv H.
  - inv H. rewrite Forall_forall in *. intros x Hx. apply H3.
    now apply (in_firstn n).
Qed.

Lemma flat_map_length_le {A B : Type} (f : A -> list B) (l : list A) :
  (forall a, (length (f a) <= 1)%nat) ->
  (length (flat_map f l) <= length l)%nat.
Proof.
  intros H. induction l as [ | a l IH]; [ cbn; lia | ].
  cbn [flat_map length]. rewrite length_app. specialize (H a). lia.
Qed.

(** X21.  The centrality tier holds at most eighty files, in descending
    order of inbound count; each is an existing regular file named by a key
    of the inbound counter, with that key's count as its score. *)
Theorem central_tier_ranked (fs : FS) (root : Path) (inbound : Py.Counter) :
  (length (central_scan fs root inbound) <= 80)%nat
  /\ StronglySorted (fun a b => (fst b <= fst a)%Z) (central_scan fs root inbound)
  /\ forall c, In c (central_scan fs root inbound) ->
       is_file fs (snd c) = true
       /\ exists rel, In (rel, fst c) inbound
                      /\ snd c = PathOps.joinpath root (PathOps.parse rel).
Proof.
  unfold central_scan.
  set (top := Py.most_common 80 inbound).
  assert (Htop : (length top <= 80)%nat) by apply firstn_le_length.
  assert (Hsorted : StronglySorted (fun a b : string * Z => (snd b <= snd a)%Z) top).
  { apply StronglySorted_firstn.
    pose proof (sorted_sorted (@snd string Z) Py.geb geb_total geb_trans inbound) as Hs.
    eapply StronglySorted_weaken; [ | exact Hs ].
    intros a b Hab. cbv beta in Hab. unfold Py.geb in Hab. now apply Z.leb_le. }
  assert (Hin : forall e, In e top -> In e inbound).
  { intros e He. apply in_firstn in He. now apply sorted_in in He. }
  clearbody top. split; [ | split ].
  - etransitivity; [ apply flat_map_length_le | exact Htop ].
    intros rs. cbv zeta. destruct (_ && _); cbn [length]; lia.
  - clear Htop Hin. induction Hsorted as [ | e top Hs IH He]; [ constructor | ].
    cbn [flat_map]. destruct (_ && _); cbn [app]; [ | exact IH ].
    constructor; [ exact IH | ].
    rewrite Forall_forall in *. intros x Hx. apply in_flat_map in Hx.
    destruct Hx as (e' & He' & Hx). destruct (_ && _); [ | destruct Hx ].
    destruct Hx as [<- | []]. cbn [fst]. now apply He.
  - intros c Hc. apply in_flat_map in Hc. destruct Hc as ([rel s] & He & Hc).
    cbn [fst snd] in Hc.
    destruct (exists_ fs _ && is_file fs _) eqn:E; [ | destruct Hc ].
    destruct Hc as [<- | []]. cbn [fst snd].
    apply andb_true_iff in E. split; [ tauto | ].
    exists rel. split; [ now apply Hin | reflexivity ].
Qed.

(** ** Further instances on the example trees *)

Lemma merge_tiers_is_one_merge_witness :
  merge_tiers demo_fs [demo_root ++ ["README.md"]]
    [demo_root ++ ["app"; "main.py"]] [demo_root ++ ["README.md"]] []
  = add_unique demo_fs []
      ([demo_root ++ ["README.md"]] ++ [demo_root ++ ["app"; "main.py"]]
       ++ [demo_root ++ ["README.md"]] ++ []).
Proof.
  apply (merge_tiers_is_one_merge demo_fs). intros p. discriminate.
Defined.

Lemma add_unique_twice_witness :
  add_unique demo_fs
    [demo_root ++ ["README.md"]; demo_root ++ ["Makefile"]]
    [demo_root ++ ["Makefile"]; demo_root ++ ["README.md"]]
  = Some [demo_root ++ ["README.md"]; demo_root ++ ["Makefile"]].
Proof.
  apply (add_unique_twice demo_fs [demo_root ++ ["README.md"]]
           [demo_root ++ ["Makefile"]; demo_root ++ ["README.md"]]).
  - intros p. discriminate.
  - vm_compute. reflexivity.
Defined.

Lemma selection_is_bounded_and_clean_witness :
  exists picked,
    pick_important_files Py.order_first_added demo_fs demo_root 3 = Some picked
    /\ (Z.of_nat (length picked) <= 3)%Z.
Proof.
  eexists. split; [ vm_compute; reflexivity | ].
  apply (selection_is_bounded_and_clean Py.order_first_added demo_fs demo_root 3).
  - exact order_first_added_enumerates.
  - vm_compute. reflexivity.
  - lia.
  - vm_compute. reflexivity.
Defined.

Lemma pinned_tier_comes_first_witness :
  exists picked rest,
    pick_important_files Py.order_first_added demo_fs demo_root 40 = Some picked
    /\ picked = [demo_root ++ ["Makefile"]; demo_root ++ ["README.md"];
                 demo_root ++ ["package.json"]; demo_root ++ ["svc"; "go.mod"]]
                ++ rest.
Proof.
  eexists.
  destruct (pinned_tier_comes_first Py.order_first_added demo_fs demo_root 40
              [demo_root ++ ["Makefile"]; demo_root ++ ["README.md"];
               demo_root ++ ["package.json"]; demo_root ++ ["svc"; "go.mod"]]
              _ eq_refl eq_refl) as [rest Hrest].
  - vm_compute. repeat constructor; intros H; cbn in H; intuition discriminate.
  - vm_compute. discriminate.
  - exists rest. split; [ reflexivity | exact Hrest ].
Defined.

Lemma scan_candidates_largest_first_witness :
  (Z.of_nat (length (scan_candidates demo_fs demo_root 2)) <= 2)%Z
  /\ (size_key demo_fs (demo_root ++ ["app"; "routes.py"])
      <= size_key demo_fs (demo_root ++ ["app"; "main.py"]))%Z.
Proof.
  destruct (scan_candidates_largest_first demo_fs demo_root 2) as (Hlen & _ & Hbig);
    [ lia | ].
  split; [ exact Hlen | ].
  apply Hbig.
  - vm_compute. auto.
  - vm_compute. auto 10.
  - vm_compute. reflexivity.
  - vm_compute. intros [H | [H | []]]; discriminate H.
Defined.

Lemma inbound_entries_witness :
  (1 <= Py.counter_get "app/routes.py" [("app/caller.py", 1%Z); ("app/routes.py", 1%Z)]
   <= Z.of_nat (length (scan_candidates demo_fs demo_root 250)))%Z.
Proof.
  apply (inbound_entries Py.order_first_added demo_fs demo_root 250
           [("app/caller.py", 1%Z); ("app/routes.py", 1%Z)]
           [("app/main.py", 1%Z); ("app/caller.py", 1%Z)] "app/routes.py").
  - exact order_first_added_enumerates.
  - vm_compute. reflexivity.
  - vm_compute. auto.
Defined.

Lemma dotted_stem_never_credited_witness :
  exists inbound outbound,
    _collect_import_centrality Py.order_first_added angular_fs demo_root 250
    = Some (inbound, outbound)
    /\ Py.counter_get "app.component.ts" inbound = 0%Z
    /\ Py.counter_get "app.ts" inbound = 1%Z.
Proof.
  eexists _, _. split; [ vm_compute; reflexivity | ].
  split; [ | vm_compute; reflexivity ].
  apply (dotted_stem_never_credited Py.order_first_added angular_fs demo_root 250
           _ [("main.ts", 1%Z)] (demo_root ++ ["app.component.ts"])).
  - exact order_first_added_enumerates.
  - vm_compute. reflexivity.
  - vm_compute. auto.
  - vm_compute. reflexivity.
  - vm_compute. reflexivity.
Defined.

Lemma read_files_skips_unreadable_witness :
  read_files demo_fs demo_root
    [demo_root ++ ["app"]; demo_root ++ ["README.md"]] 180000
  = read_files demo_fs demo_root
      (filter (readable demo_fs) [demo_root ++ ["app"]; demo_root ++ ["README.md"]])
      180000.
Proof.
  apply read_files_skips_unreadable. repeat constructor; discriminate.
Defined.

Lemma read_files_truncates_only_when_needed_witness :
  read_files demo_fs demo_root
    [demo_root ++ ["README.md"]; demo_root ++ ["Makefile"]] 180000
  = Some (Str.cat (map render_block
                     (readable_blocks demo_fs demo_root
                        [demo_root ++ ["README.md"]; demo_root ++ ["Makefile"]]))).
Proof.
  destruct (read_files_truncates_only_when_needed demo_fs demo_root
              [demo_root ++ ["README.md"]; demo_root ++ ["Makefile"]] 180000)
    as [Hfits _].
  - lia.
  - repeat constructor; discriminate.
  - apply Hfits. vm_compute. discriminate.
Defined.

Lemma ignored_root_hides_the_tree_witness :
  iter_repo_files nested_fs nested_root = []
  /\ pick_important_files Py.order_first_added nested_fs nested_root 40
     = Some [nested_root ++ ["README.md"]].
Proof.
  destruct (ignored_root_hides_the_tree Py.order_first_added nested_fs nested_root)
    as (Hnil & _).
  - vm_compute. reflexivity.
  - split; [ exact Hnil | vm_compute; reflexivity ].
Defined.

Lemma language_counts_count_files_witness :
  exists sg,
    Signals.build_signals demo_fs demo_root = Some sg
    /\ Py.counter_get "Python" (Signals.language_counts sg)
       = Z.of_nat (length (filter (has_language "Python")
                             (Signals._iter_files demo_fs demo_root))).
Proof.
  eexists. split; [ vm_compute; reflexivity | ].
  apply (language_counts_count_files demo_fs demo_root). vm_compute. reflexivity.
Defined.

Lemma primary_language_is_most_frequent_witness :
  exists sg,
    Signals.build_signals demo_fs demo_root = Some sg
    /\ Signals.primary_language sg = Some "Python"
    /\ (Py.counter_get "Go" (Signals.language_counts sg)
        <= Py.counter_get "Python" (Signals.language_counts sg))%Z.
Proof.
  eexists. split; [ vm_compute; reflexivity | ]. split; [ reflexivity | ].
  destruct (primary_language_is_most_frequent demo_fs demo_root _ eq_refl)
    as [Hmax _].
  destruct (Hmax "Python" eq_refl) as [_ Hle]. apply Hle.
Defined.

Lemma entrypoints_are_distinct_and_near_witness :
  exists sg,
    Signals.build_signals demo_fs demo_root = Some sg
    /\ NoDup (Signals.entrypoints_near_root sg)
    /\ (length (Signals.manifest_paths sg) <= 30)%nat.
Proof.
  eexists. split; [ vm_compute; reflexivity | ].
  destruct (entrypoints_are_distinct_and_near demo_fs demo_root _ eq_refl)
    as (Hnear & _ & _ & _ & Hman).
  split; [ exact Hnear | exact Hman ].
Defined.

Lemma ignored_root_empties_the_signals_witness :
  Signals.build_signals nested_fs nested_root = Some empty_signals.
Proof.
  apply (ignored_root_empties_the_signals nested_fs nested_root).
  vm_compute. reflexivity.
Defined.

Lemma extract_json_takes_the_braced_span_witness :
  _extract_json braced "Here is the report: {} Done."
  = Some "{}".
Proof.
  rewrite (extract_json_takes_the_braced_span braced
             "Here is the report: {} Done." "Here is the report: " EmptyString
             " Done.").
  - reflexivity.
  - vm_compute. reflexivity.
  - vm_compute. reflexivity.
  - vm_compute. reflexivity.
  - vm_compute. reflexivity.
Defined.

Lemma heuristic_candidates_ranked_witness :
  exists cands,
    heuristic_candidates demo_fs demo_root [] = Some cands
    /\ StronglySorted (fun a b => (fst b <= fst a)%Z) cands.
Proof.
  eexists. split; [ vm_compute; reflexivity | ].
  apply (heuristic_candidates_ranked demo_fs demo_root []). vm_compute. reflexivity.
Defined.
